(** * commons-node/process.js: process table parsing, process-tree
      termination and the process event multiplexer.

    A shallow embedding of [src/pkg/commons-node/process.js].

    - Module [JS] models the JavaScript built-ins the file calls
      ([String.prototype.split] with the two regular expressions used,
      [trim], [Array.prototype.slice], [join], [parseInt], [===] on
      numbers).
    - Module [Ps] embeds [parsePsOutput].
    - Module [Eff] is the state and exception monad of the effectful
      code: a store of child-process objects, the log of the effects
      performed, and the operating system as an environment.
    - Module [Run] embeds [asyncExecute], [checkOutput], [psTree] and
      [getChildrenOfProcess]; module [Kill] embeds [killProcess],
      [_killProcess], [killWindowsProcessTree], [killUnixProcessTree].
    - Module [Rx] gives a timed-trace semantics to the rxjs operators the
      file composes, and module [Proc] embeds [_createProcessStream],
      [observeProcessExitMessage], [observeProcessExit], [getOutputStream]
      and [observeProcess] on top of it.
    - Modules [Table], [Vocabulary] and [Samples] hold the definitions the
      statements use; the modules after them hold the proofs. *)

From Stdlib Require Import List ZArith Bool Ascii String Lia Arith.
From Stdlib Require Import DecimalString DecimalNat.
Import ListNotations.

Open Scope string_scope.
Open Scope list_scope.

(* ================================================================== *)
(** ** JavaScript built-ins *)
(* ================================================================== *)

Module JS.

(** Strings are sequences of code units; the model keeps the code units
    below 256, which covers the output of [ps] and [wmic]. *)

Definition LF : ascii := "010"%char.
Definition CR : ascii := "013"%char.

(** The white space and line terminator code units below 256: what
    [\s], [trim] and [parseInt] skip. *)
Definition isWhiteSpace (c : ascii) : bool :=
  let n := nat_of_ascii c in
  ((n =? 9) || (n =? 10) || (n =? 11) || (n =? 12) || (n =? 13)
   || (n =? 32) || (n =? 160))%nat.

(** JavaScript numbers as [parseInt] produces them: a double whose value
    is an integer ([Num]), an infinity ([Inf], with its sign), or the
    not-a-number sentinel.  A [Num] that [parseInt] returns is a value a
    double can hold: see [toDouble]. *)
Inductive number : Type :=
| NaN : number
| Num (z : Z) : number
| Inf (negative : bool) : number.

(** [a === b] on numbers: [NaN] is equal to nothing, itself included. *)
Definition strictEq (a b : number) : bool :=
  match a, b with
  | Num x, Num y => Z.eqb x y
  | Inf x, Inf y => Bool.eqb x y
  | _, _ => false
  end.

(** Below 2^53 every integer is a double. *)
Definition maxSafe : Z := 9007199254740992.

(** The doubles end below 2^1024. *)
Definition overflow : Z := Z.shiftl 1 1024.

(** The double nearest to the integer [m >= 0], ties to the even
    significand (the significand has 53 bits); [None] when the rounded
    value is beyond the largest double. *)
Definition toDouble (m : Z) : option Z :=
  if (m <? maxSafe)%Z then Some m
  else
    let e := (Z.log2 m - 52)%Z in
    let q := Z.shiftr m e in
    let r := (m - Z.shiftl q e)%Z in
    let half := Z.shiftl 1 (e - 1) in
    let q' := if (half <? r)%Z || ((r =? half)%Z && Z.odd q) then (q + 1)%Z else q in
    let v := Z.shiftl q' e in
    if (overflow <=? v)%Z then None else Some v.

(** The number with the sign [sign] (1 or -1) and the magnitude nearest
    to [m]. *)
Definition ofInteger (sign m : Z) : number :=
  match toDouble m with
  | Some v => Num (sign * v)
  | None => Inf (sign <? 0)%Z
  end.

Fixpoint trimStart (s : string) : string :=
  match s with
  | EmptyString => EmptyString
  | String c r => if isWhiteSpace c then trimStart r else s
  end.

Fixpoint trimEnd (s : string) : string :=
  match s with
  | EmptyString => EmptyString
  | String c r =>
      match trimEnd r with
      | EmptyString => if isWhiteSpace c then EmptyString else String c EmptyString
      | r' => String c r'
      end
  end.

(** [s.trim()] *)
Definition trim (s : string) : string := trimEnd (trimStart s).

(** Prepend a code unit to the first piece of a split. *)
Definition consHead (c : ascii) (pieces : list string) : list string :=
  match pieces with
  | [] => [String c EmptyString]
  | h :: t => String c h :: t
  end.

(** [s.split(/\n|\r\n/)]: a cut at every LF and at every CR LF pair. *)
Fixpoint splitLines (s : string) : list string :=
  match s with
  | EmptyString => [EmptyString]
  | String c r =>
      if Ascii.eqb c LF then EmptyString :: splitLines r
      else
        match r with
        | String c2 r2 =>
            if Ascii.eqb c CR && Ascii.eqb c2 LF
            then EmptyString :: splitLines r2
            else consHead c (splitLines r)
        | EmptyString => consHead c (splitLines r)
        end
  end.

(** [s.split(/\s+/)]: a cut at every maximal run of white space.
    [inSep] tells that the previous code unit belonged to a separator. *)
Fixpoint splitWsFrom (inSep : bool) (s : string) : list string :=
  match s with
  | EmptyString => [EmptyString]
  | String c r =>
      if isWhiteSpace c
      then (if inSep then splitWsFrom true r
            else EmptyString :: splitWsFrom true r)
      else consHead c (splitWsFrom false r)
  end.

Definition splitWs (s : string) : list string := splitWsFrom false s.

(** [arr.slice(n)] *)
Definition slice {A : Type} (n : nat) (l : list A) : list A := skipn n l.

(** [arr.join(sep)] *)
Definition join (sep : string) (l : list string) : string :=
  String.concat sep l.

(** Array destructuring and indexing: a missing element is [undefined]. *)
Definition index {A : Type} (l : list A) (i : nat) : option A := nth_error l i.

(** [ToString] of a string or [undefined]. *)
Definition toString (x : option string) : string :=
  match x with
  | Some s => s
  | None => "undefined"
  end.

Definition digitValue (c : ascii) : option Z :=
  let n := nat_of_ascii c in
  if ((48 <=? n) && (n <=? 57))%nat then Some (Z.of_nat (n - 48)) else None.

(** The value of the longest prefix of decimal digits, [None] when the
    string does not start with a digit. *)
Fixpoint digitsPrefix (acc : option Z) (s : string) : option Z :=
  match s with
  | EmptyString => acc
  | String c r =>
      match digitValue c with
      | Some d =>
          digitsPrefix
            (Some (10 * (match acc with Some a => a | None => 0 end) + d)%Z) r
      | None => acc
      end
  end.

(** [parseInt(x, 10)]: the longest prefix of decimal digits after the
    white space and the sign, read as the nearest double; not-a-number
    when there is no digit. *)
Definition parseInt (x : option string) : number :=
  let s := trimStart (toString x) in
  let '(sign, body) :=
    match s with
    | String "-" r => ((-1)%Z, r)
    | String "+" r => (1%Z, r)
    | _ => (1%Z, s)
    end in
  match digitsPrefix None body with
  | Some v => ofInteger sign v
  | None => NaN
  end.

(** Template-literal rendering of an integer. *)
Definition showZ (z : Z) : string := NilZero.string_of_int (Z.to_int z).

Definition showNumber (n : number) : string :=
  match n with
  | NaN => "NaN"
  | Num z => showZ z
  | Inf false => "Infinity"
  | Inf true => "-Infinity"
  end.

(** [/^win/.test(s)] *)
Definition startsWithWin (s : string) : bool := String.prefix "win" s.

End JS.

(* ================================================================== *)
(** ** The process table *)
(* ================================================================== *)

Module Ps.
Import JS.

(** [ProcessInfo] of process-rpc-types. *)
Record ProcessInfo : Type := mkProcessInfo {
  command : string;
  parentPid : number;
  pid : number
}.

(** The arrow function mapped over the lines in [parsePsOutput]. *)
Definition parsePsLine (line : string) : ProcessInfo :=
  let columns := splitWs (trim line) in
  let parentPid := index columns 0 in
  let pid := index columns 1 in
  let command := join " " (slice 2 columns) in
  {| command := command;
     parentPid := parseInt parentPid;
     pid := parseInt pid |}.

Definition parsePsOutput (psOutput : string) : list ProcessInfo :=
  (* Remove the first header line. *)
  let lines := slice 1 (splitLines psOutput) in
  map parsePsLine lines.

End Ps.

(* ================================================================== *)
(** ** Effects: the console, the operating system, child-process handles *)
(* ================================================================== *)

Module Eff.
Import JS.

(** An error reported by the operating system (its code). *)
Definition OsError : Type := string.

(** [AsyncExecuteReturn] *)
Record AsyncExecuteReturn : Type := mkAsyncExecuteReturn {
  errorMessage : option string;
  errorCode : option string;
  exitCode : option Z;
  stderr : string;
  stdout : string
}.

(** Values that are thrown, or that reject a promise. *)
Inductive Exn : Type :=
| Null                                         (* [reject(null)] *)
| Os (e : OsError)                             (* raised by a system call *)
| TypeError (msg : string)
| AssertionError (msg : string)                (* a failed [invariant] *)
| CheckOutputError (cmd : string) (r : AsyncExecuteReturn).

(** [err.code] of the error [execFile] hands to its callback. *)
Inductive ErrCode : Type :=
| IntCode (z : Z)
| OtherCode.

Record ExecFileError : Type := mkExecFileError {
  code : ErrCode;
  errno : option string;
  message : string
}.

(** What [execFile] hands to its callback. *)
Record ExecFileResult : Type := mkExecFileResult {
  err : option ExecFileError;
  stdoutBuf : string;
  stderrBuf : string
}.

(** What [childProcess.kill()] does: the signal was delivered, it was not
    (the process is gone, or the platform emitted an error event), or the
    call threw. *)
Inductive KillOutcome : Type :=
| Delivered
| Missed
| Threw (e : Exn).

(** The operating system as the file sees it. *)
Record Env : Type := mkEnv {
  platform : string;                                   (* process.platform *)
  exec : string -> option OsError;                     (* error given to exec's callback *)
  execFile : string -> list string -> ExecFileResult;  (* result given to execFile's callback *)
  processKill : Z -> string -> option Exn;             (* process.kill(pid, sig): what it throws *)
  handleKill : Z -> KillOutcome                        (* childProcess.kill() *)
}.

(** A reference to a [child_process$ChildProcess] object. *)
Definition Handle : Type := nat.

(** The fields of a child-process object the file reads or writes;
    [wasKilled] is the field [_killProcess] adds, [false] while unset. *)
Record ChildProcess : Type := mkChildProcess {
  pid : Z;
  exitCodeOf : option Z;       (* process.exitCode *)
  killed : bool;
  wasKilled : bool
}.

Inductive Effect : Type :=
| ConsoleLog (msg : string)
| ConsoleError (msg : string) (e : Exn)
| Exec (cmd : string)                                (* child_process.exec *)
| ExecFile (cmd : string) (args : list string)       (* child_process.execFile *)
| ProcessKill (pid : number) (signal : string)       (* process.kill *)
| HandleKill (h : Handle).                           (* childProcess.kill() *)

(** The store of child-process objects and the effects performed so far,
    oldest first. *)
Record World : Type := mkWorld {
  objects : Handle -> ChildProcess;
  effects : list Effect
}.

Definition emit (e : Effect) (w : World) : World :=
  {| objects := objects w; effects := effects w ++ [e] |}.

Definition update (h : Handle) (f : ChildProcess -> ChildProcess) (w : World) : World :=
  {| objects := fun h' => if Nat.eqb h' h then f (objects w h') else objects w h';
     effects := effects w |}.

(** The result of a call: a value or a thrown exception.  For an [async]
    function, read [Returned] as resolved and [Thrown] as rejected. *)
Inductive Outcome (A : Type) : Type :=
| Returned (a : A)
| Thrown (e : Exn).
Arguments Returned {A} a.
Arguments Thrown {A} e.

Definition M (A : Type) : Type := World -> Outcome A * World.

Definition ret {A : Type} (a : A) : M A := fun w => (Returned a, w).
Definition throw {A : Type} (e : Exn) : M A := fun w => (Thrown e, w).

Definition bind {A B : Type} (m : M A) (k : A -> M B) : M B :=
  fun w =>
    match m w with
    | (Returned a, w') => k a w'
    | (Thrown e, w') => (Thrown e, w')
    end.

(** [promise.then(onResolved, onRejected)] with the derived promise dropped. *)
Definition thenDo {A : Type} (promise : M A)
    (onResolved : A -> M unit) (onRejected : Exn -> M unit) : M unit :=
  fun w =>
    match promise w with
    | (Returned a, w') => (Returned tt, snd (onResolved a w'))
    | (Thrown e, w') => (Returned tt, snd (onRejected e w'))
    end.

Declare Scope eff_scope.
Delimit Scope eff_scope with eff.
Notation "x <- m ;; k" := (bind m (fun x => k))
  (at level 61, m at next level, right associativity) : eff_scope.
Notation "m ;;; k" := (bind m (fun _ => k))
  (at level 61, right associativity) : eff_scope.

(** [for (const x of xs) body(x)] *)
Fixpoint forOf {A : Type} (xs : list A) (body : A -> M unit) : M unit :=
  match xs with
  | [] => ret tt
  | x :: rest => bind (body x) (fun _ => forOf rest body)
  end.

Definition log (msg : string) : M unit :=
  fun w => (Returned tt, emit (ConsoleLog msg) w).

Definition logError (msg : string) (e : Exn) : M unit :=
  fun w => (Returned tt, emit (ConsoleError msg e) w).

Definition getObject (h : Handle) : M ChildProcess :=
  fun w => (Returned (objects w h), w).

(** [childProcess.kill()] *)
Definition childKill (env : Env) (h : Handle) : M bool :=
  fun w =>
    let w1 := emit (HandleKill h) w in
    match handleKill env (pid (objects w h)) with
    | Delivered =>
        (Returned true,
         update h (fun o => {| pid := pid o; exitCodeOf := exitCodeOf o;
                               killed := true; wasKilled := wasKilled o |}) w1)
    | Missed => (Returned false, w1)
    | Threw e => (Thrown e, w1)
    end.

(** [process.kill(pid, signal)] *)
Definition sysKill (env : Env) (p : number) (signal : string) : M unit :=
  fun w =>
    let w1 := emit (ProcessKill p signal) w in
    match p with
    | NaN | Inf _ => (Thrown (TypeError "invalid pid"), w1)
    | Num z =>
        match processKill env z signal with
        | None => (Returned tt, w1)
        | Some e => (Thrown e, w1)
        end
    end.

End Eff.

(* ================================================================== *)
(** ** Running commands, listing processes *)
(* ================================================================== *)

Module Run.
Import JS Eff Ps.
Local Open Scope eff_scope.

(** [err.errno || 'EUNKNOWN'] *)
Definition errnoOrUnknown (e : option string) : string :=
  match e with
  | Some (String c r) => String c r
  | _ => "EUNKNOWN"
  end.

(** [asyncExecute(command, args)] with the default options: the promise
    always resolves. *)
Definition asyncExecute (env : Env) (command : string) (args : list string)
  : M AsyncExecuteReturn :=
  fun w =>
    let w1 := emit (ExecFile command args) w in
    let r := execFile env command args in
    let stdout := stdoutBuf r in
    let stderr := stderrBuf r in
    match err r with
    | None =>
        (Returned {| errorMessage := None; errorCode := None;
                     exitCode := Some 0%Z; stderr := stderr; stdout := stdout |}, w1)
    | Some e =>
        match code e with
        | IntCode z =>
            (Returned {| errorMessage := None; errorCode := None;
                         exitCode := Some z; stderr := stderr; stdout := stdout |}, w1)
        | OtherCode =>
            (Returned {| errorMessage := Some (message e);
                         errorCode := Some (errnoOrUnknown (errno e));
                         exitCode := None; stderr := stderr; stdout := stdout |}, w1)
        end
    end.

(** [checkOutput]: throws if the exit code is not zero. *)
Definition checkOutput (env : Env) (command : string) (args : list string)
  : M AsyncExecuteReturn :=
  result <- asyncExecute env command args ;;
  match exitCode result with
  | Some 0%Z => ret result
  | _ => throw (CheckOutputError command result)
  end.

Definition psTree (env : Env) : M (list ProcessInfo) :=
  let isWindows := startsWithWin (platform env) in
  let psPromise :=
    if isWindows
    then checkOutput env "wmic.exe" ["PROCESS"; "GET"; "ParentProcessId,ProcessId,Name"]
    else checkOutput env "ps" ["-A"; "-o"; "ppid,pid,comm"] in
  r <- psPromise ;;
  ret (parsePsOutput (stdout r)).

Definition getChildrenOfProcess (env : Env) (processId : number)
  : M (list ProcessInfo) :=
  processes <- psTree env ;;
  ret (filter (fun processInfo => strictEq (parentPid processInfo) processId)
              processes).

End Run.

(* ================================================================== *)
(** ** Killing a process and its children *)
(* ================================================================== *)

Module Kill.
Import JS Eff Ps Run.
Local Open Scope eff_scope.

Definition killWindowsProcessTree (env : Env) (pid : Z) : M unit :=
  fun w =>
    let cmd := ("taskkill /pid " ++ showZ pid ++ " /T /F")%string in
    let w1 := emit (Exec cmd) w in
    match exec env cmd with
    | None => (Thrown Null, w1)          (* error == null: reject(error) *)
    | Some _ => (Returned tt, w1)        (* otherwise: resolve() *)
    end.

Definition killUnixProcessTree (env : Env) (childProcess : Handle) : M unit :=
  o <- getObject childProcess ;;
  children <- getChildrenOfProcess env (Num (Eff.pid o)) ;;
  forOf children (fun child => sysKill env (Ps.pid child) "SIGTERM") ;;;
  _ <- childKill env childProcess ;;
  ret tt.

Definition setWasKilled (h : Handle) : M unit :=
  fun w =>
    (Returned tt,
     update h (fun o => {| Eff.pid := Eff.pid o; exitCodeOf := exitCodeOf o;
                           killed := killed o; wasKilled := true |}) w).

Definition _killProcess (env : Env) (childProcess : Handle) (killTree : bool)
  : M unit :=
  setWasKilled childProcess ;;;
  if negb killTree then
    _ <- childKill env childProcess ;;
    ret tt
  else
    o <- getObject childProcess ;;
    if startsWithWin (platform env)
    then killWindowsProcessTree env (Eff.pid o)
    else killUnixProcessTree env childProcess.

Definition killProcess (env : Env) (childProcess : Handle) (killTree : bool)
  : M unit :=
  o <- getObject childProcess ;;
  log ("Ending process stream. Killing process " ++ showZ (Eff.pid o))%string ;;;
  thenDo (_killProcess env childProcess killTree)
    (fun _ => ret tt)
    (fun error =>
       o' <- getObject childProcess ;;
       logError ("Killing process " ++ showZ (Eff.pid o') ++ " failed")%string error).

(** The [finally] callback of [_createProcessStream]; [finished] is the
    local flag the [do] handlers set. *)
Definition processStreamFinally (env : Env) (process : Handle)
    (finished : bool) (killTreeOnComplete : bool) : M unit :=
  o <- getObject process ;;
  if negb (wasKilled o) && negb finished
  then killProcess env process killTreeOnComplete
  else ret tt.

(** How many times [childProcess.kill()] was called on [h]. *)
Definition handleKills (h : Handle) (es : list Effect) : nat :=
  List.length (filter (fun e => match e with
                                | HandleKill h' => Nat.eqb h' h
                                | _ => false
                                end) es).

Definition isConsoleError (e : Effect) : bool :=
  match e with
  | ConsoleError _ _ => true
  | _ => false
  end.

End Kill.

(* ================================================================== *)
(** ** Observables as timed traces *)
(* ================================================================== *)

Module Rx.
Import JS Eff.

(** How a subscription ends, when it does. *)
Inductive Ending : Type :=
| Completed
| Errored (e : Exn).

(** What one subscriber sees: the values with the time (in milliseconds)
    at which each is delivered, and the end of the subscription, if any. *)
Record Trace (A : Type) : Type := mkTrace {
  items : list (nat * A);
  ending : option (nat * Ending)
}.
Arguments mkTrace {A} items ending.
Arguments items {A} t.
Arguments ending {A} t.

(** An observable maps the time of subscription to what the subscriber
    sees.  Among notifications that carry the same time stamp, values go
    before the signals that end a subscription, and the left operand of a
    merge goes first. *)
Definition Observable (A : Type) : Type := nat -> Trace A.

Definition upTo {A : Type} (t : nat) (l : list (nat * A)) : list (nat * A) :=
  filter (fun x => fst x <=? t)%nat l.

Definition since {A : Type} (t : nat) (l : list (nat * A)) : list (nat * A) :=
  filter (fun x => t <=? fst x)%nat l.

(** [Observable.of(v)] *)
Definition of_ {A : Type} (v : A) : Observable A :=
  fun t => mkTrace [(t, v)] (Some (t, Completed)).

(** [Observable.never()] *)
Definition never {A : Type} : Observable A :=
  fun _ => mkTrace [] None.

(** [Observable.throw(e)] *)
Definition throw_ {A : Type} (e : Exn) : Observable A :=
  fun t => mkTrace [] (Some (t, Errored e)).

(** [Observable.fromEvent(target, name)]: the events dispatched from the
    subscription on; the subscription never ends by itself. *)
Definition fromEvent {A : Type} (events : list (nat * A)) : Observable A :=
  fun t => mkTrace (since t events) None.

(** [Observable.defer(factory)] *)
Definition defer {A : Type} (factory : unit -> Observable A) : Observable A :=
  fun t => factory tt t.

Definition map_ {A B : Type} (f : A -> B) (o : Observable A) : Observable B :=
  fun t => mkTrace (map (fun x => (fst x, f (snd x))) (items (o t))) (ending (o t)).

Definition filter_ {A : Type} (p : A -> bool) (o : Observable A) : Observable A :=
  fun t => mkTrace (filter (fun x => p (snd x)) (items (o t))) (ending (o t)).

(** [.take(1)] *)
Definition take1 {A : Type} (o : Observable A) : Observable A :=
  fun t =>
    match items (o t) with
    | (u, v) :: _ => mkTrace [(u, v)] (Some (u, Completed))
    | [] => o t
    end.

Fixpoint mergeItems {A : Type} (l1 l2 : list (nat * A)) : list (nat * A) :=
  let fix aux (l2 : list (nat * A)) : list (nat * A) :=
    match l1, l2 with
    | [], _ => l2
    | _, [] => l1
    | x1 :: r1, x2 :: r2 =>
        if (fst x1 <=? fst x2)%nat then x1 :: mergeItems r1 l2 else x2 :: aux r2
    end in
  aux l2.

Definition mergeT {A : Type} (a b : Trace A) : Trace A :=
  let all := mergeItems (items a) (items b) in
  match ending a, ending b with
  | Some (ta, Errored e), Some (tb, Errored e') =>
      if (ta <=? tb)%nat then mkTrace (upTo ta all) (Some (ta, Errored e))
      else mkTrace (upTo tb all) (Some (tb, Errored e'))
  | Some (ta, Errored e), _ => mkTrace (upTo ta all) (Some (ta, Errored e))
  | _, Some (tb, Errored e) => mkTrace (upTo tb all) (Some (tb, Errored e))
  | Some (ta, Completed), Some (tb, Completed) =>
      mkTrace all (Some (Nat.max ta tb, Completed))
  | _, _ => mkTrace all None
  end.

(** [a.merge(b)], [Observable.merge(a, b)] *)
Definition merge {A : Type} (a b : Observable A) : Observable A :=
  fun t => mergeT (a t) (b t).

(** The first notification of a notifier that stops [takeUntil]: its
    first value (the subscription completes) or its error (the
    subscription fails); its completion stops nothing. *)
Definition firstSignal {B : Type} (n : Trace B) : option (nat * Ending) :=
  match items n with
  | (tn, _) :: _ => Some (tn, Completed)
  | [] =>
      match ending n with
      | Some (te, Errored e) => Some (te, Errored e)
      | _ => None
      end
  end.

(** [o.takeUntil(notifier)] *)
Definition takeUntil {A B : Type} (o : Observable A) (notifier : Observable B)
  : Observable A :=
  fun t =>
    let tr := o t in
    match firstSignal (notifier t) with
    | None => tr
    | Some (tn, k) =>
        let cut := mkTrace (upTo tn (items tr)) (Some (tn, k)) in
        match ending tr with
        | Some (te, _) => if (te <=? tn)%nat then tr else cut
        | None => cut
        end
    end.

(** [o.delay(d)]: values and completion are delivered [d] later, an error
    at once. *)
Definition delay {A : Type} (d : nat) (o : Observable A) : Observable A :=
  fun t =>
    let tr := o t in
    let shifted := map (fun x => (fst x + d, snd x)) (items tr) in
    match ending tr with
    | Some (te, Completed) => mkTrace shifted (Some (te + d, Completed))
    | Some (te, Errored e) => mkTrace (upTo te shifted) (Some (te, Errored e))
    | None => mkTrace shifted None
    end.

(** [a.concat(b)]: [b] is subscribed when [a] completes. *)
Definition concat {A : Type} (a b : Observable A) : Observable A :=
  fun t =>
    let ta := a t in
    match ending ta with
    | Some (te, Completed) =>
        let tb := b te in
        mkTrace (items ta ++ items tb) (ending tb)
    | _ => ta
    end.

(** [o.flatMap(f)]: the inner observable of a value is subscribed when the
    value arrives; the result ends when the outer and every inner
    subscription have completed, or when one of them fails. *)
Definition flatMap {A B : Type} (o : Observable A) (f : A -> Observable B)
  : Observable B :=
  fun t =>
    let tr := o t in
    fold_right (fun x acc => mergeT (f (snd x) (fst x)) acc)
               (mkTrace [] (ending tr)) (items tr).

(** [o.publishReplay()] connected at time [t0]: one subscription to [o]
    made at [t0]; a later subscriber receives at once what was delivered
    before it subscribed, and the rest as it comes. *)
Definition publishReplay {A : Type} (o : Observable A) (t0 : nat) : Observable A :=
  fun t =>
    let tr := o t0 in
    mkTrace (map (fun x => (Nat.max (fst x) t, snd x)) (items tr))
            (option_map (fun x => (Nat.max (fst x) t, snd x)) (ending tr)).

Fixpoint takeThrough {A : Type} (p : A -> bool) (l : list (nat * A)) : list (nat * A) :=
  match l with
  | [] => []
  | x :: r => if p (snd x) then x :: takeThrough p r else [x]
  end.

Fixpoint firstFailing {A : Type} (p : A -> bool) (l : list (nat * A)) : option nat :=
  match l with
  | [] => None
  | x :: r => if p (snd x) then firstFailing p r else Some (fst x)
  end.

(** Modelled from the spec: [takeWhileInclusive] of commons-node/observable,
    which is imported but not part of the file.  "The sequence is cut off
    (takes-while-inclusive semantics) at the first terminal variant
    encountered: that event is emitted, then the sequence ends". *)
Definition takeWhileInclusive {A : Type} (o : Observable A) (p : A -> bool)
  : Observable A :=
  fun t =>
    let tr := o t in
    mkTrace (takeThrough p (items tr))
            (match firstFailing p (items tr) with
             | Some u => Some (u, Completed)
             | None => ending tr
             end).

(** A byte stream of a child process: the chunks it delivers and the time
    it closes, if it does. *)
Record RawStream : Type := mkRawStream {
  chunks : list (nat * string);
  closed : option nat
}.

(** Modelled from the spec: [observeStream] of commons-node/stream, which
    is imported but not part of the file.  "A lazy, finite, non-restartable
    sequence of text records terminating when the underlying source
    closes". *)
Definition observeStream (s : RawStream) : Observable string :=
  fun t =>
    mkTrace (since t (chunks s))
            (option_map (fun c => (Nat.max c t, Completed)) (closed s)).

(** The complete lines of [cur ++ s], each with its line feed, and the
    partial line that remains. *)
Fixpoint cutLines (cur s : string) : list string * string :=
  match s with
  | EmptyString => ([], cur)
  | String c r =>
      if Ascii.eqb c LF
      then let (ls, rest) := cutLines EmptyString r in
           ((cur ++ String LF EmptyString)%string :: ls, rest)
      else cutLines (cur ++ String c EmptyString)%string r
  end.

Fixpoint splitItems (cur : string) (l : list (nat * string))
  : list (nat * string) * string :=
  match l with
  | [] => ([], cur)
  | x :: r =>
      let (ls, cur') := cutLines cur (snd x) in
      let (out, final) := splitItems cur' r in
      (map (fun line => (fst x, line)) ls ++ out, final)
  end.

(** Modelled from the spec: [splitStream] of commons-node/observable, which
    is imported but not part of the file.  "Adapt a raw byte-chunk source
    into a sequence of complete lines, buffering any trailing partial line
    across chunks, flushing the final partial line (if non-empty) when the
    source ends".  A line keeps its line feed: [runCommand] rebuilds the
    output by appending the records. *)
Definition splitStream (o : Observable string) : Observable string :=
  fun t =>
    let tr := o t in
    let (out, final) := splitItems EmptyString (items tr) in
    match ending tr with
    | Some (te, k) =>
        mkTrace (out ++ match final with
                        | EmptyString => []
                        | _ => [(te, final)]
                        end)
                (Some (te, k))
    | None => mkTrace out None
    end.

End Rx.

(* ================================================================== *)
(** ** Process streams *)
(* ================================================================== *)

Module Proc.
Import JS Eff Rx.

(** [ProcessExitMessage] *)
Record ProcessExitMessage : Type := mkExit {
  exitCode : option Z;
  signal : option string
}.

(** [ProcessMessage], a union tagged by [kind]. *)
Inductive ProcessMessage : Type :=
| MStdout (data : string)
| MStderr (data : string)
| MError (error : Exn)
| MExit (m : ProcessExitMessage).

Definition kind (m : ProcessMessage) : string :=
  match m with
  | MStdout _ => "stdout"
  | MStderr _ => "stderr"
  | MError _ => "error"
  | MExit _ => "exit"
  end.

(** A child process: the object's fields when it is handed over, and the
    events it dispatches afterwards. *)
Record Process : Type := mkProcess {
  self : ChildProcess;
  errorEvents : list (nat * Exn);                          (* 'error' *)
  exitEvents : list (nat * (option Z * option string));    (* 'exit' *)
  stdout : RawStream;
  stderr : RawStream
}.

(** [message.signal !== 'SIGUSR1'] *)
Definition notSIGUSR1 (message : ProcessExitMessage) : bool :=
  match signal message with
  | Some s => negb (String.eqb s "SIGUSR1")
  | None => true
  end.

Definition observeProcessExitMessage (process : Process)
  : Observable ProcessExitMessage :=
  take1
    (filter_ notSIGUSR1
       (map_ (fun args => {| exitCode := fst args; signal := snd args |})
             (fromEvent (exitEvents process)))).

(** [process.exitCode == null && !process.killed] *)
Definition isFresh (process : Process) : bool :=
  match exitCodeOf (self process) with
  | None => negb (killed (self process))
  | Some _ => false
  end.

Definition alreadyExited : Exn :=
  AssertionError "Process already exited. (This indicates a race condition in Nuclide.)".

(** The [do] and [finally] operators leave what the subscriber sees
    unchanged; the [finally] callback is [Kill.processStreamFinally]. *)
Definition _createProcessStream (createProcess : unit -> Process)
    (throwOnError : bool) (killTreeOnComplete : bool) : Observable Process :=
  defer (fun _ =>
    let process := createProcess tt in
    if negb (isFresh process) then throw_ alreadyExited
    else
      let errors := fromEvent (errorEvents process) in
      let exit := observeProcessExitMessage process in
      takeUntil
        (takeUntil
           (merge (of_ process) never)
           (if throwOnError then flatMap errors throw_ else errors))
        exit).

Definition createProcessStream (createProcess : unit -> Process)
    (killTreeOnComplete : bool) : Observable Process :=
  _createProcessStream createProcess true killTreeOnComplete.

Definition observeProcessExit (createProcess : unit -> Process)
    (killTreeOnComplete : bool) : Observable ProcessExitMessage :=
  flatMap (_createProcessStream createProcess false killTreeOnComplete)
          observeProcessExitMessage.

(** [event.kind !== 'error' && event.kind !== 'exit'] *)
Definition notTerminal (event : ProcessMessage) : bool :=
  negb (String.eqb (kind event) "error") && negb (String.eqb (kind event) "exit").

(** The grace period given to stdout and stderr after the exit event. *)
Definition closeDelay : nat := 100.

Definition getOutputStream (process : Process) (killTreeOnComplete : bool)
  : Observable ProcessMessage :=
  fun t0 =>
    let exit :=
      publishReplay (observeProcessExit (fun _ => process) killTreeOnComplete) t0 in
    let error := map_ MError (fromEvent (errorEvents process)) in
    let close := delay closeDelay exit in
    let stdout :=
      map_ MStdout (splitStream (takeUntil (observeStream (stdout process)) close)) in
    let stderr :=
      map_ MStderr (splitStream (takeUntil (observeStream (stderr process)) close)) in
    takeWhileInclusive
      (merge (concat (merge stdout stderr) (map_ MExit exit)) error)
      notTerminal
      t0.

(** [flatMap] hands the index of the value as second argument: the flag
    [killTreeOnComplete] of [getOutputStream] is the index 0, that is
    false. *)
Definition observeProcess (createProcess : unit -> Process)
    (killTreeOnComplete : bool) : Observable ProcessMessage :=
  flatMap (_createProcessStream createProcess false killTreeOnComplete)
          (fun process => getOutputStream process false).

Definition isTerminal (m : ProcessMessage) : bool := negb (notTerminal m).

(** The number of terminal events (error or exit) in a sequence. *)
Definition terminals (l : list (nat * ProcessMessage)) : nat :=
  List.length (filter (fun x => isTerminal (snd x)) l).

(** The text carried by the stdout records of a sequence. *)
Fixpoint stdoutText (l : list (nat * ProcessMessage)) : string :=
  match l with
  | [] => EmptyString
  | (_, MStdout d) :: r => (d ++ stdoutText r)%string
  | _ :: r => stdoutText r
  end.

End Proc.

(* ================================================================== *)
(** ** The specification's reading of the process table *)
(* ================================================================== *)

Module Table.
Import JS Ps.

(** The columns of a line as the specification describes them: the
    maximal runs of characters that are not white space. *)
Fixpoint tokens (s : string) : list string :=
  match s with
  | EmptyString => []
  | String c r =>
      if isWhiteSpace c then tokens r
      else
        match r with
        | EmptyString => [String c EmptyString]
        | String c2 _ =>
            if isWhiteSpace c2 then String c EmptyString :: tokens r
            else consHead c (tokens r)
        end
  end.

(** The record of a line: parent id and id from the first two columns,
    the remaining columns joined by single spaces. *)
Definition recordOfLine (line : string) : ProcessInfo :=
  let cols := tokens line in
  {| command := String.concat " " (skipn 2 cols);
     parentPid := parseInt (nth_error cols 0);
     pid := parseInt (nth_error cols 1) |}.

(** The number of line feeds of a text: each ends one line, alone or
    after a carriage return. *)
Fixpoint countLF (s : string) : nat :=
  match s with
  | EmptyString => 0
  | String c r => (if Ascii.eqb c LF then 1 else 0) + countLF r
  end.

(** A line made of white space only. *)
Fixpoint isBlank (s : string) : bool :=
  match s with
  | EmptyString => true
  | String c r => isWhiteSpace c && isBlank r
  end.

(** What an empty or blank line parses to. *)
Definition blankRecord : ProcessInfo :=
  {| command := EmptyString; parentPid := NaN; pid := NaN |}.

Definition newline : string := String LF EmptyString.

(** A column: at least one character, none of them white space. *)
Fixpoint noWhiteSpace (s : string) : bool :=
  match s with
  | EmptyString => true
  | String c r => negb (isWhiteSpace c) && noWhiteSpace r
  end.

Definition isToken (w : string) : bool :=
  match w with
  | EmptyString => false
  | _ => noWhiteSpace w
  end.

(** The decimal numeral of a natural number. *)
Definition decimal (n : nat) : string := NilZero.string_of_uint (Nat.to_uint n).

(** A line of the process table as [ps] prints it: the two ids and the
    words of the command, separated by single spaces. *)
Definition formatLine (ppid pid : nat) (words : list string) : string :=
  String.concat " " (decimal ppid :: decimal pid :: words).

End Table.

(* ================================================================== *)
(** ** Vocabulary of the statements *)
(* ================================================================== *)

Module Vocabulary.
Import JS Eff Ps Run Kill Rx Proc Table.

(** [r] is listed as a child of the process [processId]. *)
Definition isChildOf (processId : Z) (r : ProcessInfo) : bool :=
  match parentPid r with
  | Num z => Z.eqb z processId
  | NaN | Inf _ => false
  end.

(** [process.kill(pid, 'SIGTERM')] returns normally for the record [r]. *)
Definition canSignal (env : Env) (r : ProcessInfo) : bool :=
  match Ps.pid r with
  | Num z => match processKill env z "SIGTERM" with None => true | Some _ => false end
  | NaN | Inf _ => false
  end.

Definition psArgs : list string := ["-A"; "-o"; "ppid,pid,comm"].

Definition wmicArgs : list string :=
  ["PROCESS"; "GET"; "ParentProcessId,ProcessId,Name"].

Definition taskkill (pid : Z) : string :=
  ("taskkill /pid " ++ showZ pid ++ " /T /F")%string.

(** A computation keeps the kill flag of [h] once it is set. *)
Definition keeps {A : Type} (h : Handle) (m : M A) : Prop :=
  forall w, wasKilled (objects w h) = true ->
            wasKilled (objects (snd (m w)) h) = true.

(** An exit notification as the message [observeProcessExitMessage]
    makes of it. *)
Definition toExit (ev : nat * (option Z * option string)) : nat * ProcessExitMessage :=
  (fst ev, {| exitCode := fst (snd ev); signal := snd (snd ev) |}).

(** The first exit notification whose signal is not SIGUSR1. *)
Fixpoint firstExit (evs : list (nat * (option Z * option string)))
  : option (nat * ProcessExitMessage) :=
  match evs with
  | [] => None
  | ev :: rest =>
      if notSIGUSR1 (snd (toExit ev)) then Some (toExit ev) else firstExit rest
  end.

(** The text of a sequence of chunks or lines. *)
Fixpoint text (l : list (nat * string)) : string :=
  match l with
  | [] => EmptyString
  | x :: r => (snd x ++ text r)%string
  end.

(** The text of a list of lines. *)
Fixpoint flat (l : list string) : string :=
  match l with
  | [] => EmptyString
  | a :: r => (a ++ flat r)%string
  end.

(** A subscription that has not failed. *)
Definition clean {A : Type} (tr : Trace A) : Prop :=
  match ending tr with
  | Some (_, Errored _) => False
  | _ => True
  end.

(** The sub-expressions [exit], [close] and the gated byte streams of
    [getOutputStream], for a subscription made at time 0. *)
Definition exitReplay (p : Process) (k : bool) : Observable ProcessExitMessage :=
  publishReplay (observeProcessExit (fun _ => p) k) 0.

Definition closeSignal (p : Process) (k : bool) : Observable ProcessExitMessage :=
  delay closeDelay (exitReplay p k).

Definition gated (p : Process) (k : bool) (raw : RawStream) : Observable string :=
  takeUntil (observeStream raw) (closeSignal p k).

(** The records an operand of the final merge contributes. *)
Definition tagged {A B : Type} (f : A -> B) (l : list (nat * A)) : list (nat * B) :=
  map (fun x => (fst x, f (snd x))) l.

(** The lines of stdout and of stderr that pass the gate. *)
Definition outLines (p : Process) (k : bool) : list (nat * string) :=
  items (splitStream (gated p k (stdout p)) 0).

Definition errLines (p : Process) (k : bool) : list (nat * string) :=
  items (splitStream (gated p k (stderr p)) 0).

(** The merge that [getOutputStream] hands to [takeWhileInclusive]. *)
Definition outputSource (p : Process) (k : bool) : Observable ProcessMessage :=
  merge
    (concat
       (merge (map_ MStdout (splitStream (gated p k (stdout p))))
              (map_ MStderr (splitStream (gated p k (stderr p)))))
       (map_ MExit (exitReplay p k)))
    (map_ MError (fromEvent (errorEvents p))).

End Vocabulary.

(* ================================================================== *)
(** ** Sample hosts, worlds and processes *)
(* ================================================================== *)

Module Samples.
Import JS Eff Ps Run Kill Rx Proc Table Vocabulary.

(** A process table: process 50 with the children 51 and 52, and a
    grandchild 60 below 51. *)
Definition sampleTable : string :=
  ("PPID PID COMMAND" ++ newline ++ "1 50 a" ++ newline ++ "50 51 b" ++ newline
     ++ "50 52 c" ++ newline ++ "51 60 d")%string.

(** The table of the specification's example: parent ids 1, 50, 50 and
    ids 50, 51, 52. *)
Definition specTable : string :=
  ("PPID PID COMMAND" ++ newline ++ "1 50 init" ++ newline ++ "50 51 node"
     ++ newline ++ "50 52 node")%string.

Definition posix (table : string) : Env :=
  {| platform := "linux";
     exec := fun _ => None;
     execFile := fun _ _ => {| err := None; stdoutBuf := table; stderrBuf := EmptyString |};
     processKill := fun _ _ => None;
     handleKill := fun _ => Delivered |}.


(** A Windows host on which [taskkill] succeeds. *)
Definition windowsOk : Env :=
  {| platform := "win32";
     exec := fun _ => None;
     execFile := fun _ _ => {| err := None; stdoutBuf := EmptyString; stderrBuf := EmptyString |};
     processKill := fun _ _ => None;
     handleKill := fun _ => Delivered |}.

(** A Windows host on which [taskkill] fails. *)
Definition windowsFailing : Env :=
  {| platform := "win32";
     exec := fun _ => Some "ERROR: The process could not be terminated.";
     execFile := fun _ _ => {| err := None; stdoutBuf := EmptyString; stderrBuf := EmptyString |};
     processKill := fun _ _ => None;
     handleKill := fun _ => Delivered |}.

Definition running (pid : Z) : ChildProcess :=
  mkChildProcess pid None false false.

(** A world whose child-process objects all stand for the running
    process 50, with nothing done yet. *)
Definition world50 : World :=
  {| objects := fun _ => running 50; effects := [] |}.

Definition lf (s : string) : string := (s ++ newline)%string.

(** A process that writes, exits with code 0 at time 10, and whose stdout
    delivers more within and after the grace period. *)
Definition exiting : Process :=
  mkProcess (running 42) []
    [(5, (None, Some "SIGUSR1")); (10, (Some 0%Z, None)); (20, (Some 1%Z, None))]
    {| chunks := [(3, "ab"); (7, lf "c"); (50, lf "late"); (111, "lost")];
       closed := None |}
    {| chunks := [(4, lf "x")]; closed := Some 6 |}.

(** A process that exits at time 10 and whose stdout and stderr both stay
    open: each delivers one chunk before the exit, one within the 100
    milliseconds after it, and one later. *)
Definition lingering : Process :=
  mkProcess (running 42) [] [(10, (Some 0%Z, None))]
    {| chunks := [(3, lf "out"); (50, lf "out-late"); (111, lf "out-lost")];
       closed := None |}
    {| chunks := [(4, lf "err"); (60, lf "err-late"); (120, lf "err-lost")];
       closed := None |}.

(** A process whose only exit notification carries SIGUSR1. *)
Definition interrupted : Process :=
  mkProcess (running 42) [] [(5, (None, Some "SIGUSR1"))]
    {| chunks := [(3, lf "a")]; closed := None |}
    {| chunks := []; closed := None |}.

(** A process that fails to start. *)
Definition failing : Process :=
  mkProcess (running 42) [(8, Os "ENOENT")] []
    {| chunks := []; closed := None |}
    {| chunks := []; closed := None |}.

(** A process handed over after it has exited. *)
Definition stale : Process :=
  mkProcess (mkChildProcess 42 (Some 0%Z) false false) [] []
    {| chunks := []; closed := None |}
    {| chunks := []; closed := None |}.

(** The world after two calls of the kill operation on the handle 0. *)
Definition killedTwice : World :=
  snd (killProcess (posix sampleTable) 0 false
         (snd (killProcess (posix sampleTable) 0 false world50))).

End Samples.

(* ================================================================== *)
(** ** Vocabulary of the further statements *)
(* ================================================================== *)

Module Frame.
Import JS Eff Ps Run Kill Vocabulary.

(** What a computation leaves alone when it works on the handle [h]:
    the objects of the other handles, the process id and the exit code of
    [h], a [killed] flag that is set, and the effects already performed. *)
Definition respects {A : Type} (h : Handle) (m : M A) : Prop :=
  forall w,
    let w' := snd (m w) in
    (forall h', h' <> h -> objects w' h' = objects w h')
    /\ Eff.pid (objects w' h) = Eff.pid (objects w h)
    /\ exitCodeOf (objects w' h) = exitCodeOf (objects w h)
    /\ (killed (objects w h) = true -> killed (objects w' h) = true)
    /\ exists done, effects w' = effects w ++ done.

(** The command that lists the processes, as [psTree] chooses it. *)
Definition listingCommand (env : Env) : string * list string :=
  if startsWithWin (platform env) then ("wmic.exe", wmicArgs) else ("ps", psArgs).

(** The listing command ran and exited with code 0. *)
Definition listingOk (env : Env) : bool :=
  let r := execFile env (fst (listingCommand env)) (snd (listingCommand env)) in
  match err r with
  | None => true
  | Some e => match code e with IntCode 0%Z => true | _ => false end
  end.


Definition signalOf (child : ProcessInfo) : Effect :=
  ProcessKill (Ps.pid child) "SIGTERM".

Definition isHandleKill (e : Effect) : bool :=
  match e with
  | HandleKill _ => true
  | _ => false
  end.

Definition isProcessKill (e : Effect) : bool :=
  match e with
  | ProcessKill _ _ => true
  | _ => false
  end.

End Frame.

Module Streams.
Import JS Eff Rx Proc Vocabulary.

(** The text carried by the stderr records of a sequence. *)
Fixpoint stderrText (l : list (nat * ProcessMessage)) : string :=
  match l with
  | [] => EmptyString
  | (_, MStderr d) :: r => (d ++ stderrText r)%string
  | _ :: r => stderrText r
  end.

(** The stdout and stderr records that pass the cut-off, merged. *)
Definition outputLines (p : Process) (k : bool) : list (nat * ProcessMessage) :=
  mergeItems (tagged MStdout (outLines p k)) (tagged MStderr (errLines p k)).

(** The time at which a gated byte stream ends when the process exits at
    time [u]: when the stream closes, or at the close signal. *)
Definition gateEnd (u : nat) (raw : RawStream) : nat :=
  match closed raw with
  | Some c => if (c <=? u + closeDelay)%nat then c else u + closeDelay
  | None => u + closeDelay
  end.

(** The time at which the exit message is delivered. *)
Definition exitDelivery (u : nat) (p : Process) : nat :=
  Nat.max u (Nat.max (gateEnd u (stdout p)) (gateEnd u (stderr p))).

(** The longest prefix of the records stamped no later than [t]. *)
Fixpoint leading {A : Type} (t : nat) (l : list (nat * A)) : list (nat * A) :=
  match l with
  | [] => []
  | x :: r => if (fst x <=? t)%nat then x :: leading t r else []
  end.

(** The records come in the order of their stamps, as the events of one
    emitter do. *)
Fixpoint inOrder {A : Type} (l : list (nat * A)) : bool :=
  match l with
  | [] => true
  | x :: r =>
      match r with
      | [] => true
      | y :: _ => (fst x <=? fst y)%nat && inOrder r
      end
  end.


(** All the records are stamped no later than [t]. *)
Definition allBy {A : Type} (t : nat) (l : list (nat * A)) : bool :=
  forallb (fun x => (fst x <=? t)%nat) l.

Definition selStdout (m : ProcessMessage) : option string :=
  match m with
  | MStdout d => Some d
  | _ => None
  end.

Definition selStderr (m : ProcessMessage) : option string :=
  match m with
  | MStderr d => Some d
  | _ => None
  end.

(** The text of the records that [sel] selects. *)
Fixpoint textOf (sel : ProcessMessage -> option string)
    (l : list (nat * ProcessMessage)) : string :=
  match l with
  | [] => EmptyString
  | x :: r =>
      match sel (snd x) with
      | Some d => (d ++ textOf sel r)%string
      | None => textOf sel r
      end
  end.

(** What a subscriber of [getOutputStream] sees, by cases on the first
    exit that counts and on the first error event. *)
Definition outputTrace (p : Process) (k : bool) : Trace ProcessMessage :=
  let L := outputLines p k in
  match firstExit (exitEvents p), errorEvents p with
  | None, [] => mkTrace L None
  | Some x, [] =>
      mkTrace (L ++ [(exitDelivery (fst x) p, MExit (snd x))])
              (Some (exitDelivery (fst x) p, Completed))
  | None, y :: _ =>
      mkTrace (leading (fst y) L ++ [(fst y, MError (snd y))])
              (Some (fst y, Completed))
  | Some x, y :: _ =>
      if allBy (fst y) L && (exitDelivery (fst x) p <=? fst y)%nat
      then mkTrace (L ++ [(exitDelivery (fst x) p, MExit (snd x))])
                   (Some (exitDelivery (fst x) p, Completed))
      else mkTrace (leading (fst y) L ++ [(fst y, MError (snd y))])
                   (Some (fst y, Completed))
  end.

End Streams.

(* ================================================================== *)
(** ** Running a command and accumulating its output *)
(* ================================================================== *)

Module Command.
Import JS Eff Rx Proc.

(** The options object handed to [spawn], as a list of properties. *)
Definition Options : Type := list (string * string).

Definition quoteMark : string := String (ascii_of_nat 34) EmptyString.

(** [err.code] of an error object. *)
Definition codeOf (e : Exn) : option string :=
  match e with
  | Os c => Some c
  | _ => None
  end.

(** A value inside a template literal: an absent one prints as
    [undefined]. *)
Definition showOption (x : option string) : string :=
  match x with
  | Some s => s
  | None => "undefined"
  end.

(** [ProcessSystemError] *)
Record ProcessSystemError : Type := mkSystemError {
  sysMessage : string;
  sysCommand : string;
  sysArgs : list string;
  sysOptions : Options;
  sysCode : option string;
  originalError : Exn
}.

(** [ProcessExitError] *)
Record ProcessExitError : Type := mkExitError {
  exitErrMessage : string;
  exitCommand : string;
  exitArgs : list string;
  exitOptions : Options;
  exitMessage : ProcessExitMessage;
  exitErrCode : option Z;
  exitStdout : string;
  exitStderr : string
}.

(** What the [map] of [runCommand] throws, or an error of the stream it
    maps. *)
Inductive RunFailure : Type :=
| SystemFailure (e : ProcessSystemError)
| ExitFailure (e : ProcessExitError)
| OtherFailure (e : Exn).

(** [exitEventToMessage]: the text for an exit event, or the failed
    [invariant]. *)
Definition exitEventToMessage (event : ProcessExitMessage) : string + Exn :=
  match exitCode event with
  | Some c => inl ("exit code " ++ showZ c)%string
  | None =>
      match signal event with
      | Some s => inl ("signal " ++ s)%string
      | None => inr (AssertionError "false == true")
      end
  end.

(** [new ProcessSystemError(opts)] *)
Definition newProcessSystemError (command : string) (args : list string)
    (options : Options) (code : option string) (originalError : Exn)
  : ProcessSystemError :=
  {| sysMessage := (quoteMark ++ command ++ quoteMark ++ " failed with code "
                    ++ showOption code)%string;
     sysCommand := command;
     sysArgs := args;
     sysOptions := options;
     sysCode := code;
     originalError := originalError |}.

(** [new ProcessExitError(opts)]: the constructor throws when
    [exitEventToMessage] does. *)
Definition newProcessExitError (command : string) (args : list string)
    (options : Options) (exitMessage : ProcessExitMessage) (stdout stderr : string)
  : ProcessExitError + Exn :=
  match exitEventToMessage exitMessage with
  | inl text =>
      inl {| exitErrMessage := (quoteMark ++ command ++ quoteMark ++ " failed with "
                                ++ text ++ String LF (String LF stderr))%string;
             exitCommand := command;
             exitArgs := args;
             exitOptions := options;
             exitMessage := exitMessage;
             exitErrCode := exitCode exitMessage;
             exitStdout := stdout;
             exitStderr := stderr |}
  | inr e => inr e
  end.

(** How a subscription ends when errors of type [E] may be thrown. *)
Inductive EndingOf (E : Type) : Type :=
| Done
| Failed (e : E).
Arguments Done {E}.
Arguments Failed {E} e.

Record TraceOf (E A : Type) : Type := mkTraceOf {
  values : list (nat * A);
  finish : option (nat * EndingOf E)
}.
Arguments mkTraceOf {E A} values finish.
Arguments values {E A} t.
Arguments finish {E A} t.

(** [o.reduce(f, seed)]: the accumulated value, delivered when [o]
    completes. *)
Definition reduce_ {A B : Type} (f : B -> A -> B) (seed : B) (o : Observable A)
  : Observable B :=
  fun t =>
    let tr := o t in
    match ending tr with
    | Some (te, Completed) =>
        mkTrace [(te, fold_left f (map snd (items tr)) seed)] (Some (te, Completed))
    | Some (te, Errored e) => mkTrace [] (Some (te, Errored e))
    | None => mkTrace [] None
    end.

(** The values mapped by [f] up to the first one for which [f] throws. *)
Fixpoint mapUntilThrow {A B E : Type} (f : A -> B + E) (l : list (nat * A))
  : list (nat * B) * option (nat * E) :=
  match l with
  | [] => ([], None)
  | x :: r =>
      match f (snd x) with
      | inl b => let (vs, thrown) := mapUntilThrow f r in ((fst x, b) :: vs, thrown)
      | inr e => ([], Some (fst x, e))
      end
  end.

(** [o.map(f)] for an [f] that may throw: the subscription fails at the
    first value for which it does. *)
Definition mapOrThrow {A B E : Type} (f : A -> B + E) (lift : Exn -> E)
    (o : Observable A) : nat -> TraceOf E B :=
  fun t =>
    let tr := o t in
    match mapUntilThrow f (items tr) with
    | (vs, Some (u, e)) => mkTraceOf vs (Some (u, Failed e))
    | (vs, None) =>
        mkTraceOf vs
          (match ending tr with
           | Some (te, Completed) => Some (te, Done)
           | Some (te, Errored e) => Some (te, Failed (lift e))
           | None => None
           end)
    end.

(** The accumulator of [runCommand]. *)
Record Acc : Type := mkAcc {
  accError : option Exn;
  accStdout : string;
  accStderr : string;
  accExitMessage : option ProcessExitMessage
}.

Definition seed : Acc :=
  {| accError := None; accStdout := EmptyString; accStderr := EmptyString;
     accExitMessage := None |}.

(** The reducer of [runCommand]. *)
Definition step (acc : Acc) (event : ProcessMessage) : Acc :=
  match event with
  | MStdout data =>
      {| accError := accError acc; accStdout := (accStdout acc ++ data)%string;
         accStderr := accStderr acc; accExitMessage := accExitMessage acc |}
  | MStderr data =>
      {| accError := accError acc; accStdout := accStdout acc;
         accStderr := (accStderr acc ++ data)%string;
         accExitMessage := accExitMessage acc |}
  | MError error =>
      {| accError := Some error; accStdout := accStdout acc;
         accStderr := accStderr acc; accExitMessage := accExitMessage acc |}
  | MExit m =>
      {| accError := accError acc; accStdout := accStdout acc;
         accStderr := accStderr acc; accExitMessage := Some m |}
  end.

(** The function mapped over the accumulated value. *)
Definition conclude (command : string) (args : list string) (options : Options)
    (acc : Acc) : string + RunFailure :=
  match accError acc with
  | Some error =>
      inr (SystemFailure (newProcessSystemError command args options (codeOf error) error))
  | None =>
      match accExitMessage acc with
      | Some m =>
          match exitCode m with
          | Some 0%Z => inl (accStdout acc)
          | _ =>
              match newProcessExitError command args options m
                      (accStdout acc) (accStderr acc) with
              | inl e => inr (ExitFailure e)
              | inr e => inr (OtherFailure e)
              end
          end
      | None => inl (accStdout acc)
      end
  end.

(** [runCommand(command, args, options, killTreeOnComplete)];
    [spawned] stands for [() => safeSpawn(command, args, options)]. *)
Definition runCommand (spawned : unit -> Process) (command : string)
    (args : list string) (options : Options) (killTreeOnComplete : bool)
  : nat -> TraceOf RunFailure string :=
  mapOrThrow (conclude command args options) OtherFailure
    (reduce_ step seed (observeProcess spawned killTreeOnComplete)).

End Command.

(* ================================================================== *)
(** ** Observing a command run under [script] *)
(* ================================================================== *)

Module Script.
Import JS.

(** What the child process does, in the order of its callbacks: a chunk
    on stdout, a chunk on stderr, or an exit with its code (absent when a
    signal ended the process). *)
Inductive ChildEvent : Type :=
| StdoutData (data : string)
| StderrData (data : string)
| Exited (exitCode : option Z).

(** The values of the observable: [{stdout}] or [{stderr}]. *)
Inductive ScriptMessage : Type :=
| ScriptStdout (text : string)
| ScriptStderr (text : string).

Inductive Notification : Type :=
| Next (m : ScriptMessage)
| Error (stderr : string)
| Complete.

(** The variables of one subscription of
    [scriptSafeSpawnAndObserveOutput]: the local [stderr], whether
    [childProcess] still holds the process, whether the observer has been
    sent an error or a completion (it takes nothing afterwards), and the
    notifications sent so far, oldest first. *)
Record Subscription : Type := mkSubscription {
  stderr : string;
  childProcess : bool;
  stopped : bool;
  sent : list Notification
}.

Definition subscribed : Subscription :=
  {| stderr := EmptyString; childProcess := true; stopped := false; sent := [] |}.

(** [observer.next(m)] *)
Definition next (m : ScriptMessage) (s : Subscription) : Subscription :=
  if stopped s then s
  else {| stderr := stderr s; childProcess := childProcess s; stopped := false;
          sent := sent s ++ [Next m] |}.

(** [observer.error(e)] and [observer.complete()] *)
Definition stop (n : Notification) (s : Subscription) : Subscription :=
  if stopped s then s
  else {| stderr := stderr s; childProcess := childProcess s; stopped := true;
          sent := sent s ++ [n] |}.

(** The three listeners.  The teardown function, which kills the process
    while [childProcess] holds it, is not part of this model. *)
Definition handle (s : Subscription) (ev : ChildEvent) : Subscription :=
  match ev with
  | StdoutData data => next (ScriptStdout data) s
  | StderrData data =>
      next (ScriptStderr data)
        {| stderr := (stderr s ++ data)%string; childProcess := childProcess s;
           stopped := stopped s; sent := sent s |}
  | Exited exitCode =>
      let s' :=
        match exitCode with
        | Some 0%Z => stop Complete s
        | _ => stop (Error (stderr s)) s
        end in
      {| stderr := stderr s'; childProcess := false; stopped := stopped s';
         sent := sent s' |}
  end.

Definition observe (events : list ChildEvent) : Subscription :=
  fold_left handle events subscribed.

Definition isExit (ev : ChildEvent) : bool :=
  match ev with
  | Exited _ => true
  | _ => false
  end.

(** The notification a chunk gives. *)
Definition forwarded (ev : ChildEvent) : list Notification :=
  match ev with
  | StdoutData data => [Next (ScriptStdout data)]
  | StderrData data => [Next (ScriptStderr data)]
  | Exited _ => []
  end.

(** The text written to stderr. *)
Fixpoint stderrOf (events : list ChildEvent) : string :=
  match events with
  | [] => EmptyString
  | StderrData data :: r => (data ++ stderrOf r)%string
  | _ :: r => stderrOf r
  end.

End Script.

(* ================================================================== *)
(** ** The original environment *)
(* ================================================================== *)

Module Environment.
Import JS.

(** An object whose properties are strings, in the order of insertion
    (the model does not move integer-like names to the front, as the
    source language does; the statements read properties by name). *)
Definition Obj : Type := list (string * string).

(** [o[k] = v] *)
Fixpoint setProp (k v : string) (o : Obj) : Obj :=
  match o with
  | [] => [(k, v)]
  | (k', v') :: r =>
      if String.eqb k' k then (k', v) :: r else (k', v') :: setProp k v r
  end.

(** [o[k]] *)
Fixpoint getProp (o : Obj) (k : string) : option string :=
  match o with
  | [] => None
  | (k', v') :: r => if String.eqb k' k then Some v' else getProp r k
  end.

Definition NUL : ascii := "000"%char.
Definition EQUALS : ascii := "="%char.

(** [s.split(sep)] for a separator of one character. *)
Fixpoint splitOn (sep : ascii) (s : string) : list string :=
  match s with
  | EmptyString => [EmptyString]
  | String c r =>
      if Ascii.eqb c sep then EmptyString :: splitOn sep r
      else consHead c (splitOn sep r)
  end.

(** [s.indexOf(c)], [None] for -1. *)
Fixpoint indexOf (c : ascii) (s : string) : option nat :=
  match s with
  | EmptyString => None
  | String d r =>
      if Ascii.eqb d c then Some 0
      else match indexOf c r with
           | Some i => Some (S i)
           | None => None
           end
  end.

(** [s.substring(0, n)] *)
Fixpoint strTake (n : nat) (s : string) : string :=
  match n, s with
  | S n', String c r => String c (strTake n' r)
  | _, _ => EmptyString
  end.

(** [s.substring(n)] *)
Fixpoint strDrop (n : nat) (s : string) : string :=
  match n, s with
  | S n', String _ r => strDrop n' r
  | _, _ => s
  end.

(** [o[k] = v] on an object created by [{}], for a string [v]: the
    name [__proto__] is the accessor of the prototype, which ignores a
    string. *)
Definition assign (k v : string) (o : Obj) : Obj :=
  if String.eqb k "__proto__" then o else setProp k v o.

(** The body of the loop over [envString.split('\0')]. *)
Definition addVar (o : Obj) (envVar : string) : Obj :=
  match indexOf EQUALS envVar with
  | Some equalIndex =>
      assign (strTake equalIndex envVar) (strDrop (equalIndex + 1) envVar) o
  | None => o
  end.

Definition parseEnvString (envString : string) : Obj :=
  fold_left addVar (splitOn NUL envString) [].

(** The module variable [cachedOriginalEnvironment]: unset, an object of
    its own, or the object [process.env] itself. *)
Inductive Cache : Type :=
| Unset
| Own (o : Obj)
| ProcessEnv.

Record State : Type := mkState {
  cachedOriginalEnvironment : Cache;
  processEnv : Obj                     (* process.env *)
}.

(** The contents of the object the cache refers to. *)
Definition deref (c : Cache) (st : State) : Obj :=
  match c with
  | Own o => o
  | _ => processEnv st
  end.

(** [getOriginalEnvironment()]; [decode] stands for
    [new Buffer(s, 'base64').toString()].  The result is the object
    returned, read when the function returns. *)
Definition getOriginalEnvironment (decode : string -> string) (st : State)
  : Obj * State :=
  match cachedOriginalEnvironment st with
  | Unset =>
      let c :=
        match getProp (processEnv st) "NUCLIDE_ORIGINAL_ENV" with
        | Some raw =>
            if negb (String.eqb (trim raw) EmptyString)
            then Own (parseEnvString (decode raw))
            else ProcessEnv
        | None => ProcessEnv
        end in
      (deref c st, {| cachedOriginalEnvironment := c; processEnv := processEnv st |})
  | c => (deref c st, st)
  end.

(** The output of [env -0]: every variable as [name=value] followed by a
    NUL. *)
Fixpoint env0 (vars : list (string * string)) : string :=
  match vars with
  | [] => EmptyString
  | (k, v) :: r => (k ++ String EQUALS (v ++ String NUL (env0 r)))%string
  end.

(** The value of the last binding of [k]. *)
Fixpoint lastBinding (vars : list (string * string)) (k : string) : option string :=
  match vars with
  | [] => None
  | (k', v) :: r =>
      match lastBinding r k with
      | Some v' => Some v'
      | None => if String.eqb k' k then Some v else None
      end
  end.

Fixpoint lacks (c : ascii) (s : string) : bool :=
  match s with
  | EmptyString => true
  | String d r => negb (Ascii.eqb d c) && lacks c r
  end.

(** A variable as [env] prints it: no [=] in the name, no NUL
    anywhere. *)
Definition wellFormed (kv : string * string) : bool :=
  lacks EQUALS (fst kv) && lacks NUL (fst kv) && lacks NUL (snd kv)
  && negb (String.eqb (fst kv) "__proto__").

End Environment.

(* ================================================================== *)
(** ** Properties of the process table parser *)
(* ================================================================== *)

Module TableFacts.
Import JS Ps Table.

(** Induction on strings two characters at a time, as [splitLines]
    recurses. *)
Lemma string_ind2 (P : string -> Prop) :
  P EmptyString ->
  (forall c, P (String c EmptyString)) ->
  (forall c1 c2 s, P s -> P (String c2 s) -> P (String c1 (String c2 s))) ->
  forall s, P s.
Proof.
  intros H0 H1 H2 s.
  assert (H : P s /\ forall c, P (String c s)).
  { induction s as [|c s [IHa IHb]].
    - split; [exact H0 | exact H1].
    - split; [apply IHb | intros c'; apply H2; [exact IHa | apply IHb]]. }
  exact (proj1 H).
Qed.

Lemma splitLines_nonempty s : splitLines s <> [].
Proof.
  destruct s as [|c r]; simpl; [discriminate|].
  destruct (Ascii.eqb c LF); [discriminate|].
  destruct r as [|c2 r2].
  - simpl. discriminate.
  - destruct (Ascii.eqb c CR && Ascii.eqb c2 LF); [discriminate|].
    unfold consHead. destruct (splitLines (String c2 r2)); discriminate.
Qed.

Lemma consHead_length c l : l <> [] -> List.length (consHead c l) = List.length l.
Proof. destruct l; [congruence | reflexivity]. Qed.

Lemma consHead_app c l l' : l <> [] -> consHead c (l ++ l') = consHead c l ++ l'.
Proof. destruct l; [congruence | reflexivity]. Qed.

Lemma consHead_nonempty c l : consHead c l <> [].
Proof. destruct l; discriminate. Qed.

(** One piece more than there are line feeds. *)
Lemma splitLines_length s : List.length (splitLines s) = S (countLF s).
Proof.
  induction s as [|c|c1 c2 s IH1 IH2] using string_ind2.
  - reflexivity.
  - simpl. destruct (Ascii.eqb c LF); reflexivity.
  - change (splitLines (String c1 (String c2 s))) with
      (if Ascii.eqb c1 LF then EmptyString :: splitLines (String c2 s)
       else if Ascii.eqb c1 CR && Ascii.eqb c2 LF
            then EmptyString :: splitLines s
            else consHead c1 (splitLines (String c2 s))).
    change (countLF (String c1 (String c2 s))) with
      ((if Ascii.eqb c1 LF then 1 else 0) + countLF (String c2 s)).
    destruct (Ascii.eqb c1 LF) eqn:E1.
    + cbn [List.length]. rewrite IH2. reflexivity.
    + destruct (Ascii.eqb c1 CR && Ascii.eqb c2 LF) eqn:E2.
      * apply andb_prop in E2 as [_ E2].
        cbn [List.length]. rewrite IH1. cbn [countLF]. rewrite E2. reflexivity.
      * rewrite consHead_length by apply splitLines_nonempty.
        rewrite IH2. reflexivity.
Qed.

(** A text that ends with a line feed ends with an empty piece. *)
Lemma splitLines_trailing_LF s :
  exists front, front <> [] /\ splitLines (s ++ newline)%string = front ++ [EmptyString].
Proof.
  induction s as [|c|c1 c2 s IH1 IH2] using string_ind2.
  - exists [EmptyString]. split; [discriminate | reflexivity].
  - simpl. destruct (Ascii.eqb c LF) eqn:E1.
    + exists [EmptyString; EmptyString]. split; [discriminate | reflexivity].
    + rewrite andb_true_r. destruct (Ascii.eqb c CR).
      * exists [EmptyString]. split; [discriminate | reflexivity].
      * exists [String c EmptyString]. split; [discriminate | reflexivity].
  - change (splitLines (String c1 (String c2 s) ++ newline)%string) with
      (if Ascii.eqb c1 LF then EmptyString :: splitLines (String c2 s ++ newline)%string
       else if Ascii.eqb c1 CR && Ascii.eqb c2 LF
            then EmptyString :: splitLines (s ++ newline)%string
            else consHead c1 (splitLines (String c2 s ++ newline)%string)).
    destruct IH1 as [f1 [N1 E1]], IH2 as [f2 [N2 E2]].
    destruct (Ascii.eqb c1 LF).
    + exists (EmptyString :: f2). split; [discriminate|]. rewrite E2. reflexivity.
    + destruct (Ascii.eqb c1 CR && Ascii.eqb c2 LF).
      * exists (EmptyString :: f1). split; [discriminate|]. rewrite E1. reflexivity.
      * exists (consHead c1 f2). split; [apply consHead_nonempty|].
        rewrite E2. apply consHead_app. exact N2.
Qed.

(** The header, whatever it holds, is one piece of its own. *)
Lemma splitLines_header header body :
  countLF header = 0 ->
  exists h, splitLines (header ++ String LF body)%string = h :: splitLines body.
Proof.
  induction header as [|c r IH]; intros Hc.
  - exists EmptyString. reflexivity.
  - simpl in Hc. destruct (Ascii.eqb c LF) eqn:E1; [discriminate|].
    simpl in Hc. specialize (IH Hc). destruct IH as [h Eh].
    change (String c r ++ String LF body)%string with (String c (r ++ String LF body)%string).
    destruct r as [|c2 r2].
    + simpl. rewrite E1. rewrite ?andb_true_r.
      destruct (Ascii.eqb c CR).
      * exists EmptyString. reflexivity.
      * exists (String c EmptyString). reflexivity.
    + change (String c2 r2 ++ String LF body)%string
        with (String c2 (r2 ++ String LF body)%string) in *.
      simpl in Hc. destruct (Ascii.eqb c2 LF) eqn:E2; [discriminate|].
      cbn [splitLines]. rewrite E1, E2, andb_false_r.
      cbn [splitLines] in Eh. rewrite E2 in Eh. rewrite Eh.
      exists (String c h). reflexivity.
Qed.

Lemma tokens_trimStart s : tokens (trimStart s) = tokens s.
Proof.
  induction s as [|c r IH]; [reflexivity|].
  simpl trimStart. destruct (isWhiteSpace c) eqn:E.
  - rewrite IH. simpl. rewrite E. reflexivity.
  - reflexivity.
Qed.

Lemma trimEnd_head c r d r' : trimEnd (String c r) = String d r' -> d = c.
Proof.
  simpl. destruct (trimEnd r); [destruct (isWhiteSpace c)|]; congruence.
Qed.

Lemma trimEnd_cons c r :
  trimEnd (String c r) =
    match trimEnd r with
    | EmptyString => if isWhiteSpace c then EmptyString else String c EmptyString
    | String d r' => String c (String d r')
    end.
Proof. reflexivity. Qed.

Lemma trimEnd_idem s : trimEnd (trimEnd s) = trimEnd s.
Proof.
  induction s as [|c r IH]; [reflexivity|].
  rewrite trimEnd_cons. destruct (trimEnd r) as [|d r'] eqn:E.
  - destruct (isWhiteSpace c) eqn:W; simpl; [reflexivity | rewrite W; reflexivity].
  - rewrite trimEnd_cons, IH. reflexivity.
Qed.

Lemma tokens_cons c r :
  tokens (String c r) =
    if isWhiteSpace c then tokens r
    else match r with
         | EmptyString => [String c EmptyString]
         | String c2 _ =>
             if isWhiteSpace c2 then String c EmptyString :: tokens r
             else consHead c (tokens r)
         end.
Proof. reflexivity. Qed.

Lemma tokens_trimEnd s : tokens (trimEnd s) = tokens s.
Proof.
  induction s as [|c r IH]; [reflexivity|].
  rewrite trimEnd_cons. destruct (trimEnd r) as [|d r'] eqn:E.
  - simpl in IH. rewrite (tokens_cons c r). destruct (isWhiteSpace c) eqn:W.
    + rewrite <- IH. reflexivity.
    + rewrite tokens_cons, W. destruct r as [|c2 r2]; [reflexivity|].
      rewrite <- IH. destruct (isWhiteSpace c2); reflexivity.
  - destruct r as [|c2 r2]; [discriminate|].
    pose proof (trimEnd_head _ _ _ _ E) as ->.
    rewrite (tokens_cons c (String c2 r')), (tokens_cons c (String c2 r2)).
    rewrite IH. reflexivity.
Qed.

Lemma splitWsFrom_cons b c r :
  splitWsFrom b (String c r) =
    if isWhiteSpace c
    then (if b then splitWsFrom true r else EmptyString :: splitWsFrom true r)
    else consHead c (splitWsFrom false r).
Proof. reflexivity. Qed.

(** On a line without trailing white space, splitting on runs of white
    space gives the columns, after an empty piece when the line starts
    with white space. *)
Lemma splitWsFrom_trimmed s :
  trimEnd s = s ->
  splitWsFrom true s =
    match s with EmptyString => [EmptyString] | _ => tokens s end
  /\ splitWsFrom false s =
    match s with
    | EmptyString => [EmptyString]
    | String c _ => if isWhiteSpace c then EmptyString :: tokens s else tokens s
    end.
Proof.
  induction s as [|c r IH]; intros Ht; [split; reflexivity|].
  cbn [trimEnd] in Ht.
  destruct (trimEnd r) as [|d r'] eqn:E.
  - destruct (isWhiteSpace c) eqn:W; [discriminate|].
    injection Ht as <-. simpl. rewrite W. split; reflexivity.
  - injection Ht as Hr. specialize (IH Hr). destruct IH as [IHt IHf].
    subst r. rewrite (splitWsFrom_cons true c), (splitWsFrom_cons false c), (tokens_cons c).
    destruct (isWhiteSpace c) eqn:W.
    + rewrite IHt. split; reflexivity.
    + rewrite IHf. destruct (isWhiteSpace d); split; reflexivity.
Qed.

Lemma trimStart_head s :
  match trimStart s with
  | EmptyString => True
  | String c _ => isWhiteSpace c = false
  end.
Proof.
  induction s as [|c r IH]; simpl; [exact I|].
  destruct (isWhiteSpace c) eqn:W; [exact IH | exact W].
Qed.

Lemma trim_head s :
  match trim s with
  | EmptyString => True
  | String c _ => isWhiteSpace c = false
  end.
Proof.
  unfold trim. pose proof (trimStart_head s) as H.
  destruct (trimStart s) as [|c r]; [exact I|].
  destruct (trimEnd (String c r)) as [|d r'] eqn:E; [exact I|].
  apply trimEnd_head in E. subst d. exact H.
Qed.

Lemma tokens_trim s : tokens (trim s) = tokens s.
Proof. unfold trim. rewrite tokens_trimEnd. apply tokens_trimStart. Qed.

(** The columns the code computes are the columns of the specification,
    except on a blank line, where the code has one empty column. *)
Lemma splitWs_trim line :
  splitWs (trim line) =
    match tokens line with
    | [] => [EmptyString]
    | cols => cols
    end.
Proof.
  unfold splitWs.
  pose proof (splitWsFrom_trimmed (trim line)) as H.
  unfold trim at 1 in H. rewrite trimEnd_idem in H.
  destruct (H eq_refl) as [_ Hf]. fold (trim line) in Hf. rewrite Hf.
  pose proof (trim_head line) as Hh. pose proof (tokens_trim line) as Ht.
  destruct (trim line) as [|c r] eqn:E.
  - simpl in Ht. rewrite <- Ht. reflexivity.
  - rewrite Hh. rewrite Ht.
    destruct (tokens line) eqn:T; [|reflexivity].
    exfalso. cbn [tokens] in Ht. rewrite Hh in Ht.
    destruct r as [|c2 r2]; [discriminate|].
    destruct (isWhiteSpace c2); [discriminate|].
    revert Ht. apply consHead_nonempty.
Qed.

Lemma parsePsLine_recordOfLine line : parsePsLine line = recordOfLine line.
Proof.
  unfold parsePsLine, recordOfLine, index, slice, join.
  rewrite splitWs_trim. destruct (tokens line); reflexivity.
Qed.

Lemma tokens_blank line : isBlank line = true -> tokens line = [].
Proof.
  induction line as [|c r IH]; [reflexivity|].
  simpl. intros H. apply andb_prop in H as [W B]. rewrite W. auto.
Qed.

Lemma isToken_cons c r :
  isToken (String c r) = true ->
  isWhiteSpace c = false /\ (r = EmptyString \/ isToken r = true).
Proof.
  cbn [isToken noWhiteSpace]. intros H. apply andb_prop in H as [Hc Hr].
  apply negb_true_iff in Hc. split; [exact Hc|].
  destruct r; [left; reflexivity | right; exact Hr].
Qed.

Lemma tokens_token w : isToken w = true -> tokens w = [w].
Proof.
  induction w as [|c r IH]; [discriminate|].
  intros H. apply isToken_cons in H as [Hc [-> | Hr]].
  - rewrite tokens_cons, Hc. reflexivity.
  - specialize (IH Hr). rewrite tokens_cons, Hc.
    destruct r as [|c2 r2]; [discriminate|].
    apply isToken_cons in Hr as [Hc2 _]. rewrite Hc2, IH. reflexivity.
Qed.

Lemma tokens_token_space w s :
  isToken w = true -> tokens (w ++ String " " s) = w :: tokens s.
Proof.
  induction w as [|c r IH]; [discriminate|].
  intros H. apply isToken_cons in H as [Hc [-> | Hr]].
  - cbn [append]. rewrite tokens_cons, Hc. reflexivity.
  - specialize (IH Hr). cbn [append]. rewrite tokens_cons, Hc.
    destruct r as [|c2 r2]; [discriminate|].
    apply isToken_cons in Hr as [Hc2 _].
    cbn [append] in *. rewrite Hc2, IH. reflexivity.
Qed.

(** Columns joined by single spaces are found again. *)
Lemma tokens_concat ws :
  forallb isToken ws = true -> tokens (String.concat " " ws) = ws.
Proof.
  induction ws as [|w r IH]; [reflexivity|].
  cbn [forallb]. intros H. apply andb_prop in H as [Hw Hr].
  destruct r as [|w' r'].
  - cbn [String.concat]. apply tokens_token, Hw.
  - change (String.concat " " (w :: w' :: r'))
      with (w ++ String " " (String.concat " " (w' :: r')))%string.
    rewrite (tokens_token_space _ _ Hw), (IH Hr). reflexivity.
Qed.

Lemma digit_char c v :
  digitValue c = Some v ->
  isWhiteSpace c = false
  /\ forall r, parseInt (Some (String c r))
               = match digitsPrefix None (String c r) with
                 | Some n => ofInteger 1 n
                 | None => NaN
                 end.
Proof.
  destruct c as [[|] [|] [|] [|] [|] [|] [|] [|]]; cbn; intros H;
    try discriminate H; split; reflexivity.
Qed.

Lemma digitsPrefix_uint d acc :
  digitsPrefix (Some (Z.of_nat acc)) (NilEmpty.string_of_uint d)
  = Some (Z.of_nat (Nat.of_uint_acc d acc)).
Proof.
  revert acc. induction d as [|d IH|d IH|d IH|d IH|d IH|d IH|d IH|d IH|d IH|d IH];
    intros acc; [reflexivity|..];
    cbn [NilEmpty.string_of_uint digitsPrefix Nat.of_uint_acc];
    rewrite Nat.tail_mul_spec;
    match goal with
    | |- context [digitValue ?c] =>
        let v := eval vm_compute in (digitValue c) in
        change (digitValue c) with v
    end; cbv iota;
    rewrite <- IH; do 2 f_equal; lia.
Qed.

Lemma noWhiteSpace_uint d : noWhiteSpace (NilEmpty.string_of_uint d) = true.
Proof.
  induction d; [reflexivity|..]; cbn [NilEmpty.string_of_uint noWhiteSpace];
    rewrite IHd; reflexivity.
Qed.

Lemma isToken_decimal n : isToken (decimal n) = true.
Proof.
  unfold decimal, NilZero.string_of_uint.
  destruct (Nat.to_uint n) as [|d|d|d|d|d|d|d|d|d|d]; [reflexivity|..];
    cbn [NilEmpty.string_of_uint isToken noWhiteSpace];
    rewrite noWhiteSpace_uint; reflexivity.
Qed.

(** Below 2^53 the nearest double is the integer itself. *)
Lemma ofInteger_safe m : (m < maxSafe)%Z -> ofInteger 1 m = Num m.
Proof.
  intros H. unfold ofInteger, toDouble.
  apply Z.ltb_lt in H. rewrite H. f_equal. apply Z.mul_1_l.
Qed.

(** [parseInt] reads a decimal numeral as the double nearest to the
    number it denotes. *)
Lemma parseInt_decimal n :
  parseInt (Some (decimal n)) = ofInteger 1 (Z.of_nat n).
Proof.
  unfold decimal, NilZero.string_of_uint.
  rewrite <- (DecimalNat.Unsigned.of_to n) at 2. unfold Nat.of_uint.
  destruct (Nat.to_uint n) as [|d|d|d|d|d|d|d|d|d|d]; [reflexivity|..];
    cbn [NilEmpty.string_of_uint];
    match goal with
    | |- parseInt (Some (String ?c ?r)) = _ =>
        let v := eval vm_compute in (digitValue c) in
        match v with
        | Some ?x => rewrite (proj2 (digit_char c x eq_refl) r)
        end
    end;
    cbn [digitsPrefix Nat.of_uint_acc];
    match goal with
    | |- context [digitValue ?c] =>
        let v := eval vm_compute in (digitValue c) in
        change (digitValue c) with v
    end; cbv iota;
    match goal with
    | |- context [digitsPrefix (Some ?a) _] =>
        let k := eval vm_compute in (Z.to_nat a) in
        change a with (Z.of_nat k)
    end;
    rewrite digitsPrefix_uint, Nat.tail_mul_spec;
    f_equal; f_equal; f_equal; lia.
Qed.

(** A line printed from two ids below 2^53 and the words of a command
    parses back to them. *)
Lemma parsePsLine_formatLine ppid pid words :
  (Z.of_nat ppid < maxSafe)%Z ->
  (Z.of_nat pid < maxSafe)%Z ->
  forallb isToken words = true ->
  parsePsLine (formatLine ppid pid words)
  = {| command := String.concat " " words;
       parentPid := Num (Z.of_nat ppid);
       pid := Num (Z.of_nat pid) |}.
Proof.
  intros Hpp Hp Hw. rewrite parsePsLine_recordOfLine. unfold recordOfLine, formatLine.
  rewrite tokens_concat.
  - cbn [nth_error skipn]. rewrite !parseInt_decimal.
    rewrite (ofInteger_safe _ Hpp), (ofInteger_safe _ Hp). reflexivity.
  - cbn [forallb]. rewrite !isToken_decimal. exact Hw.
Qed.

(** A text without line feed is one line. *)
Lemma splitLines_single s : countLF s = 0 -> splitLines s = [s].
Proof.
  induction s as [|c r IH]; [reflexivity|].
  cbn [countLF]. destruct (Ascii.eqb c LF) eqn:E1; [discriminate|].
  cbn [Nat.add]. intros Hr. specialize (IH Hr).
  cbn [splitLines]. rewrite E1.
  destruct r as [|c2 r2]; [reflexivity|].
  cbn [countLF] in Hr. destruct (Ascii.eqb c2 LF) eqn:E2; [discriminate|].
  rewrite andb_false_r, IH. reflexivity.
Qed.

Lemma countLF_app a b : countLF (a ++ b) = countLF a + countLF b.
Proof.
  induction a as [|c r IH]; [reflexivity|].
  cbn [append countLF]. rewrite IH. lia.
Qed.

Lemma countLF_noWhiteSpace s : noWhiteSpace s = true -> countLF s = 0.
Proof.
  induction s as [|c r IH]; [reflexivity|].
  cbn [noWhiteSpace countLF]. intros H. apply andb_prop in H as [Hc Hr].
  rewrite (IH Hr). destruct (Ascii.eqb c LF) eqn:E; [|reflexivity].
  apply Ascii.eqb_eq in E. subst c. discriminate Hc.
Qed.

Lemma countLF_concat ws :
  forallb isToken ws = true -> countLF (String.concat " " ws) = 0.
Proof.
  induction ws as [|w r IH]; [reflexivity|].
  cbn [forallb]. intros H. apply andb_prop in H as [Hw Hr].
  assert (Hn : countLF w = 0).
  { apply countLF_noWhiteSpace. destruct w; [discriminate | exact Hw]. }
  destruct r as [|w' r'].
  - exact Hn.
  - change (String.concat " " (w :: w' :: r'))
      with (w ++ String " " (String.concat " " (w' :: r')))%string.
    rewrite countLF_app, Hn. cbn [countLF]. rewrite (IH Hr). reflexivity.
Qed.

Lemma countLF_formatLine ppid pid words :
  forallb isToken words = true -> countLF (formatLine ppid pid words) = 0.
Proof.
  intros Hw. apply countLF_concat. cbn [forallb].
  rewrite !isToken_decimal. exact Hw.
Qed.

(** C8: [parsePsOutput] drops the header line and turns every later line
    into a record: the line is trimmed and split on runs of white space,
    the first column is parsed as [parentPid], the second as [pid], and the
    remaining columns are joined by single spaces as [command]; a header
    followed by one line printed from two ids below 2^53 and the words of a
    command gives the single record of these ids and that command.  The
    header [PPID PID COMMAND] followed by [1 100 my command here] gives
    the single record with parent id 1, id 100 and command
    [my command here].  The ids are doubles, as [parseInt] returns them:
    the numeral of 2^53 + 1 is read as 2^53. *)
Theorem parsePsOutput_columns :
  (forall header body,
      countLF header = 0 ->
      parsePsOutput (header ++ newline ++ body)%string
      = map recordOfLine (splitLines body))
  /\ (forall header ppid pid words,
        countLF header = 0 ->
        (Z.of_nat ppid < maxSafe)%Z ->
        (Z.of_nat pid < maxSafe)%Z ->
        forallb isToken words = true ->
        parsePsOutput (header ++ newline ++ formatLine ppid pid words)%string
        = [ {| command := String.concat " " words;
               parentPid := Num (Z.of_nat ppid);
               pid := Num (Z.of_nat pid) |} ])
  /\ parsePsOutput ("PPID PID COMMAND" ++ newline ++ "1 100 my command here")%string
     = [ {| command := "my command here"; parentPid := Num 1; pid := Num 100 |} ]
  /\ parsePsOutput ("PPID PID COMMAND" ++ newline ++ "9007199254740993 100 sh")%string
     = [ {| command := "sh"; parentPid := Num 9007199254740992; pid := Num 100 |} ].
Proof.
  assert (Hdrop : forall header body,
             countLF header = 0 ->
             parsePsOutput (header ++ newline ++ body)%string
             = map parsePsLine (splitLines body)).
  { intros header body Hh.
    unfold parsePsOutput, slice, newline.
    change (String LF EmptyString ++ body)%string with (String LF body).
    destruct (splitLines_header header body Hh) as [h ->].
    reflexivity. }
  split; [|split; [|split]].
  - intros header body Hh. rewrite (Hdrop header body Hh).
    apply map_ext. apply parsePsLine_recordOfLine.
  - intros header ppid pid words Hh Hpp Hp Hw. rewrite (Hdrop _ _ Hh).
    rewrite (splitLines_single _ (countLF_formatLine ppid pid words Hw)).
    cbn [map]. rewrite (parsePsLine_formatLine ppid pid words Hpp Hp Hw). reflexivity.
  - vm_compute. reflexivity.
  - vm_compute. reflexivity.
Qed.

Lemma parsePsOutput_columns_witness :
  parsePsOutput ("PPID  PID COMM" ++ newline ++ "  7   8  a   b ")%string
  = map recordOfLine (splitLines "  7   8  a   b ")
  /\ parsePsOutput ("PPID  PID COMM" ++ newline ++ formatLine 7 8 ["a"; "b"])%string
     = [ {| command := "a b"; parentPid := Num 7; pid := Num 8 |} ].
Proof.
  split.
  - exact (proj1 parsePsOutput_columns "PPID  PID COMM" "  7   8  a   b " eq_refl).
  - exact (proj1 (proj2 parsePsOutput_columns) "PPID  PID COMM" 7 8 ["a"; "b"]
             eq_refl eq_refl eq_refl eq_refl).
Defined.

(** C10: [parsePsOutput] gives one record for every line after the
    header, blank lines included: the number of records is the number of
    lines minus one (the number of line feeds), a blank line gives the
    record whose [parentPid] and [pid] are not-a-number and whose command
    is empty, and so does the empty line that ends an input closed by a
    line feed. *)
Theorem parsePsOutput_one_record_per_line :
  (forall s, List.length (parsePsOutput s) = List.length (splitLines s) - 1
             /\ List.length (splitLines s) = countLF s + 1)
  /\ (forall line, isBlank line = true -> parsePsLine line = blankRecord)
  /\ (forall s, exists records,
        parsePsOutput (s ++ newline)%string = records ++ [blankRecord]).
Proof.
  split; [|split].
  - intros s. unfold parsePsOutput, slice.
    rewrite length_map, length_skipn, splitLines_length. lia.
  - intros line Hb. rewrite parsePsLine_recordOfLine.
    unfold recordOfLine. rewrite (tokens_blank line Hb). reflexivity.
  - intros s. unfold parsePsOutput, slice.
    destruct (splitLines_trailing_LF s) as [front [Hne ->]].
    destruct front as [|h front]; [congruence|].
    simpl skipn. rewrite map_app. exists (map parsePsLine front).
    reflexivity.
Qed.

Lemma parsePsOutput_one_record_per_line_witness :
  parsePsLine "   " = blankRecord.
Proof.
  apply (proj1 (proj2 parsePsOutput_one_record_per_line) "   ").
  reflexivity.
Defined.

End TableFacts.

(* ================================================================== *)
(** ** Properties of the process listing and of the kill operation *)
(* ================================================================== *)

Module KillFacts.
Import JS Eff Ps Run Kill Table Vocabulary Samples.

Lemma strictEq_isChildOf processId r :
  strictEq (parentPid r) (Num processId) = isChildOf processId r.
Proof. unfold isChildOf. destruct (parentPid r); reflexivity. Qed.

Lemma getChildren_of_psTree env processId w processes w' :
  psTree env w = (Returned processes, w') ->
  getChildrenOfProcess env (Num processId) w
  = (Returned (filter (isChildOf processId) processes), w').
Proof.
  intros H. unfold getChildrenOfProcess, bind. rewrite H. unfold ret.
  rewrite (filter_ext _ _ (strictEq_isChildOf processId)). reflexivity.
Qed.

(** On a platform other than Windows, when [ps] exits with code 0, the
    process table is its parsed output. *)
Lemma psTree_posix env w :
  startsWithWin (platform env) = false ->
  err (execFile env "ps" psArgs) = None ->
  psTree env w
  = (Returned (parsePsOutput (stdoutBuf (execFile env "ps" psArgs))),
     emit (ExecFile "ps" psArgs) w).
Proof.
  intros Hp He. unfold psTree. rewrite Hp.
  unfold checkOutput, asyncExecute, bind. fold psArgs. rewrite He.
  reflexivity.
Qed.

(** On Windows, when [wmic.exe] exits with code 0, the process table is
    its parsed output. *)
Lemma psTree_windows env w :
  startsWithWin (platform env) = true ->
  err (execFile env "wmic.exe" wmicArgs) = None ->
  psTree env w
  = (Returned (parsePsOutput (stdoutBuf (execFile env "wmic.exe" wmicArgs))),
     emit (ExecFile "wmic.exe" wmicArgs) w).
Proof.
  intros Hp He. unfold psTree. rewrite Hp.
  unfold checkOutput, asyncExecute, bind. fold wmicArgs. rewrite He.
  reflexivity.
Qed.

(** C9: [getChildrenOfProcess(pid)] returns exactly the records of the
    parsed process table whose [parentPid] equals the numeric [pid], in
    the order of the table; a record whose [parentPid] is not-a-number is
    returned for no numeric [pid].  For the rows with parent ids 1, 50, 50
    and ids 50, 51, 52, the children of 50 are the records with ids 51 and
    52. *)
Theorem getChildrenOfProcess_filters_by_parent :
  (forall env processId w processes w',
      psTree env w = (Returned processes, w') ->
      getChildrenOfProcess env (Num processId) w
      = (Returned (filter (isChildOf processId) processes), w'))
  /\ (forall env processId w,
      startsWithWin (platform env) = false ->
      err (execFile env "ps" psArgs) = None ->
      let table := parsePsOutput (stdoutBuf (execFile env "ps" psArgs)) in
      fst (getChildrenOfProcess env (Num processId) w)
      = Returned (filter (isChildOf processId) table)
      /\ forall r, In r (filter (isChildOf processId) table)
                   <-> In r table /\ parentPid r = Num processId)
  /\ (forall processId r, parentPid r = NaN -> isChildOf processId r = false)
  /\ map Ps.pid
       (filter (isChildOf 50) (parsePsOutput specTable)) = [Num 51; Num 52]
  /\ fst (getChildrenOfProcess (posix specTable) (Num 50) world50)
     = Returned [ {| command := "node"; parentPid := Num 50; pid := Num 51 |};
                  {| command := "node"; parentPid := Num 50; pid := Num 52 |} ].
Proof.
  split; [|split; [|split; [|split]]].
  - apply getChildren_of_psTree.
  - intros env processId w Hp He table. split.
    + rewrite (getChildren_of_psTree _ _ _ _ _ (psTree_posix env w Hp He)).
      reflexivity.
    + intros r. rewrite filter_In. unfold isChildOf.
      destruct (parentPid r) as [|z|b].
      * split; [intros [_ H]; discriminate | intros [_ H]; discriminate].
      * rewrite Z.eqb_eq. split; intros [H1 H2]; (split; [exact H1|]); congruence.
      * split; [intros [_ H]; discriminate | intros [_ H]; discriminate].
  - intros processId r Hn. unfold isChildOf. rewrite Hn. reflexivity.
  - vm_compute. reflexivity.
  - vm_compute. reflexivity.
Qed.

Lemma getChildrenOfProcess_filters_by_parent_witness :
  fst (getChildrenOfProcess (posix sampleTable) (Num 50) world50)
  = Returned (filter (isChildOf 50) (parsePsOutput sampleTable)).
Proof.
  exact (proj1 (proj1 (proj2 getChildrenOfProcess_filters_by_parent)
                  (posix sampleTable) 50%Z world50 eq_refl eq_refl)).
Defined.





End KillFacts.

(* ================================================================== *)
(** ** The kill flag, and the Windows tree kill *)
(* ================================================================== *)

Module FlagFacts.
Import JS Eff Ps Run Kill Table Vocabulary Samples.

(** C1: in tree mode on Windows the kill operation issues the one
    command [taskkill /pid <pid> /T /F]; evaluated on a host where the
    command succeeds, the promise is rejected with [null] and a failure is
    logged, and on a host where the command fails, the promise is resolved
    and nothing is logged: the two outcomes are exchanged. *)
Theorem killProcess_windows_tree_outcomes :
  fst (_killProcess windowsOk 0 true world50) = Thrown Null
  /\ effects (snd (killProcess windowsOk 0 true world50))
     = [ConsoleLog "Ending process stream. Killing process 50";
        Exec "taskkill /pid 50 /T /F";
        ConsoleError "Killing process 50 failed" Null]
  /\ fst (_killProcess windowsFailing 0 true world50) = Returned tt
  /\ effects (snd (killProcess windowsFailing 0 true world50))
     = [ConsoleLog "Ending process stream. Killing process 50";
        Exec "taskkill /pid 50 /T /F"].
Proof. vm_compute. repeat split. Qed.

(** The promise of [killWindowsProcessTree] on any host. *)
Lemma killWindowsProcessTree_settles env pid w :
  killWindowsProcessTree env pid w
  = (match exec env (taskkill pid) with
     | None => Thrown Null
     | Some _ => Returned tt
     end, emit (Exec (taskkill pid)) w).
Proof.
  unfold killWindowsProcessTree. fold (taskkill pid).
  destruct (exec env (taskkill pid)); reflexivity.
Qed.

Lemma keeps_ret {A : Type} h (a : A) : keeps h (ret a).
Proof. intros w H. exact H. Qed.

Lemma keeps_throw {A : Type} h e : keeps h (@throw A e).
Proof. intros w H. exact H. Qed.

Lemma keeps_bind {A B : Type} h (m : M A) (k : A -> M B) :
  keeps h m -> (forall a, keeps h (k a)) -> keeps h (bind m k).
Proof.
  intros Hm Hk w H. unfold bind. specialize (Hm w H).
  destruct (m w) as [[a|e] w']; cbn [snd] in *; [apply Hk; exact Hm | exact Hm].
Qed.

Lemma keeps_thenDo {A : Type} h (m : M A) f g :
  keeps h m -> (forall a, keeps h (f a)) -> (forall e, keeps h (g e)) ->
  keeps h (thenDo m f g).
Proof.
  intros Hm Hf Hg w H. unfold thenDo. specialize (Hm w H).
  destruct (m w) as [[a|e] w']; cbn [snd] in *; [apply Hf | apply Hg]; exact Hm.
Qed.

Lemma keeps_forOf {A : Type} h (xs : list A) body :
  (forall x, keeps h (body x)) -> keeps h (forOf xs body).
Proof.
  intros Hb. induction xs as [|x rest IH]; cbn [forOf].
  - apply keeps_ret.
  - apply keeps_bind; [apply Hb | intros _; exact IH].
Qed.

Lemma keeps_log h msg : keeps h (log msg).
Proof. intros w H. exact H. Qed.

Lemma keeps_logError h msg e : keeps h (logError msg e).
Proof. intros w H. exact H. Qed.

Lemma keeps_getObject h h' : keeps h (getObject h').
Proof. intros w H. exact H. Qed.

Lemma keeps_sysKill h env p s : keeps h (sysKill env p s).
Proof.
  intros w H. unfold sysKill.
  destruct p as [|z|b]; [exact H| |exact H]. destruct (processKill env z s); exact H.
Qed.

Lemma keeps_childKill h env h' : keeps h (childKill env h').
Proof.
  intros w H. unfold childKill.
  destruct (handleKill env _); cbn [snd update emit objects]; try exact H.
  destruct (Nat.eqb h h'); exact H.
Qed.

Lemma keeps_asyncExecute h env c a : keeps h (asyncExecute env c a).
Proof.
  intros w H. unfold asyncExecute.
  destruct (err (execFile env c a)) as [e|]; [destruct (code e)|]; exact H.
Qed.

Lemma keeps_checkOutput h env c a : keeps h (checkOutput env c a).
Proof.
  apply keeps_bind; [apply keeps_asyncExecute|].
  intros r. destruct (exitCode r) as [[| |]|];
    first [apply keeps_ret | apply keeps_throw].
Qed.

Lemma keeps_getChildrenOfProcess h env n : keeps h (getChildrenOfProcess env n).
Proof.
  apply keeps_bind; [|intros; apply keeps_ret].
  unfold psTree. apply keeps_bind; [|intros; apply keeps_ret].
  destruct (startsWithWin (platform env)); apply keeps_checkOutput.
Qed.

Lemma keeps_killWindowsProcessTree h env pid : keeps h (killWindowsProcessTree env pid).
Proof.
  intros w H. rewrite killWindowsProcessTree_settles. exact H.
Qed.

Lemma keeps_killUnixProcessTree h env h' : keeps h (killUnixProcessTree env h').
Proof.
  unfold killUnixProcessTree.
  apply keeps_bind; [apply keeps_getObject | intros o].
  apply keeps_bind; [apply keeps_getChildrenOfProcess | intros children].
  apply keeps_bind; [apply keeps_forOf; intros; apply keeps_sysKill | intros _].
  apply keeps_bind; [apply keeps_childKill | intros; apply keeps_ret].
Qed.

(** [_killProcess] sets the flag first, and nothing resets it. *)
Lemma _killProcess_marks env h killTree w :
  wasKilled (objects (snd (_killProcess env h killTree w)) h) = true.
Proof.
  unfold _killProcess, bind at 1. unfold setWasKilled at 1.
  set (w1 := update h _ w).
  assert (H1 : wasKilled (objects w1 h) = true).
  { unfold w1, update. cbn [objects]. rewrite Nat.eqb_refl. reflexivity. }
  revert H1. generalize w1.
  change (keeps h (if negb killTree
                   then bind (childKill env h) (fun _ => ret tt)
                   else bind (getObject h) (fun o =>
                          if startsWithWin (platform env)
                          then killWindowsProcessTree env (Eff.pid o)
                          else killUnixProcessTree env h))).
  destruct killTree; cbn [negb].
  - apply keeps_bind; [apply keeps_getObject | intros o].
    destruct (startsWithWin (platform env));
      [apply keeps_killWindowsProcessTree | apply keeps_killUnixProcessTree].
  - apply keeps_bind; [apply keeps_childKill | intros; apply keeps_ret].
Qed.

Lemma killProcess_returns env h killTree w :
  fst (killProcess env h killTree w) = Returned tt.
Proof.
  unfold killProcess, bind, getObject, log, thenDo.
  destruct (_killProcess env h killTree _) as [[a|e] w']; reflexivity.
Qed.

Lemma killProcess_marks env h killTree w :
  wasKilled (objects (snd (killProcess env h killTree w)) h) = true.
Proof.
  unfold killProcess, bind at 1. unfold getObject at 1.
  unfold bind at 1. unfold log at 1. unfold thenDo.
  set (w1 := emit _ w).
  pose proof (_killProcess_marks env h killTree w1) as Hm.
  destruct (_killProcess env h killTree w1) as [[a|e] w2]; cbn [snd] in *.
  - exact Hm.
  - exact Hm.
Qed.

Lemma handleKills_app h l l' :
  handleKills h (l ++ l') = handleKills h l + handleKills h l'.
Proof. unfold handleKills. rewrite filter_app, length_app. reflexivity. Qed.

(** Without the tree flag, every call calls [kill()] on the handle once. *)
Lemma killProcess_direct_kills env h w :
  handleKills h (effects (snd (killProcess env h false w)))
  = handleKills h (effects w) + 1.
Proof.
  unfold killProcess, bind, getObject, log, thenDo, _killProcess, bind,
    setWasKilled, childKill, ret, logError.
  cbn [negb emit update objects effects snd].
  destruct (handleKill env _); cbn [snd effects emit update];
    rewrite ?handleKills_app; unfold handleKills; cbn [filter List.length];
    rewrite Nat.eqb_refl; cbn [List.length]; lia.
Qed.

(** C2, as the code has it: every call of the kill operation returns
    normally to the caller, a failure of the termination being logged,
    and leaves the handle marked as kill-requested; the termination is
    performed on every call (without the tree flag, each call calls
    [kill()] once more); the mark is consulted by the teardown of the
    process stream only, which requests a kill when the handle is not
    marked and the stream has not finished, and does nothing on a marked
    handle. *)
Theorem killProcess_marks_handle env h killTree w :
  fst (killProcess env h killTree w) = Returned tt
  /\ (forall e,
        let w1 := emit (ConsoleLog ("Ending process stream. Killing process "
                                    ++ showZ (Eff.pid (objects w h)))%string) w in
        let w2 := snd (_killProcess env h killTree w1) in
        fst (_killProcess env h killTree w1) = Thrown e ->
        effects (snd (killProcess env h killTree w))
        = effects w2
          ++ [ConsoleError ("Killing process " ++ showZ (Eff.pid (objects w2 h))
                            ++ " failed")%string e])
  /\ wasKilled (objects (snd (killProcess env h killTree w)) h) = true
  /\ handleKills h (effects (snd (killProcess env h false w)))
     = handleKills h (effects w) + 1
  /\ (forall finished killTreeOnComplete,
        let w' := snd (killProcess env h killTree w) in
        processStreamFinally env h finished killTreeOnComplete w' = (Returned tt, w'))
  /\ (forall finished killTreeOnComplete,
        wasKilled (objects w h) = false ->
        processStreamFinally env h finished killTreeOnComplete w
        = if finished then (Returned tt, w)
          else killProcess env h killTreeOnComplete w).
Proof.
  split; [apply killProcess_returns|].
  split.
  { intros e w1 w2 He. unfold killProcess, bind, getObject, log, thenDo.
    fold w1. unfold w2. destruct (_killProcess env h killTree w1) as [[a|e'] w3].
    - discriminate He.
    - cbn [fst snd] in *. injection He as ->. reflexivity. }
  split; [apply killProcess_marks|].
  split; [apply killProcess_direct_kills|].
  split.
  - intros finished k w'. unfold processStreamFinally, bind, getObject.
    unfold w'. rewrite killProcess_marks. reflexivity.
  - intros finished k Hw. unfold processStreamFinally, bind, getObject.
    rewrite Hw. destruct finished; reflexivity.
Qed.

Lemma killProcess_marks_handle_witness :
  processStreamFinally (posix sampleTable) 0 false true world50
  = killProcess (posix sampleTable) 0 true world50.
Proof.
  exact (proj2 (proj2 (proj2 (proj2 (proj2
           (killProcess_marks_handle (posix sampleTable) 0 false world50)))))
           false true eq_refl).
Defined.

(** C2, as stated, fails: two calls of the kill operation on one handle
    call [kill()] on it twice. *)
Lemma killProcess_twice_kills_twice :
  handleKills 0 (effects killedTwice) = 2
  /\ ~ (handleKills 0 (effects killedTwice) <= 1)
  /\ effects killedTwice
     = [ConsoleLog "Ending process stream. Killing process 50"; HandleKill 0;
        ConsoleLog "Ending process stream. Killing process 50"; HandleKill 0].
Proof.
  vm_compute. split; [reflexivity|]. split; [lia | reflexivity].
Qed.

End FlagFacts.

(* ================================================================== *)
(** ** Properties of the operators on traces *)
(* ================================================================== *)

Module RxFacts.
Import JS Eff Rx Proc Vocabulary Samples.

Lemma since_0 {A : Type} (l : list (nat * A)) : since 0 l = l.
Proof.
  unfold since. induction l as [|x r IH]; [reflexivity|].
  simpl. f_equal. exact IH.
Qed.

Lemma since_In {A : Type} t (l : list (nat * A)) x :
  In x (since t l) -> t <= fst x.
Proof.
  unfold since. intros H. apply filter_In in H as [_ H].
  apply Nat.leb_le. exact H.
Qed.

Lemma upTo_all {A : Type} t (l : list (nat * A)) :
  Forall (fun x => fst x <= t) l -> upTo t l = l.
Proof.
  unfold upTo. induction 1 as [|x r Hx _ IH]; [reflexivity|].
  simpl. apply Nat.leb_le in Hx. rewrite Hx, IH. reflexivity.
Qed.

Lemma upTo_In {A : Type} t (l : list (nat * A)) x :
  In x (upTo t l) <-> In x l /\ fst x <= t.
Proof.
  unfold upTo. rewrite filter_In, Nat.leb_le. reflexivity.
Qed.

Lemma mergeItems_nil_r {A : Type} (l : list (nat * A)) : mergeItems l [] = l.
Proof. destruct l; reflexivity. Qed.

Lemma mergeItems_nil_l {A : Type} (l : list (nat * A)) : mergeItems [] l = l.
Proof. destruct l; reflexivity. Qed.

Lemma mergeItems_cons {A : Type} (x1 x2 : nat * A) r1 r2 :
  mergeItems (x1 :: r1) (x2 :: r2)
  = if (fst x1 <=? fst x2)%nat then x1 :: mergeItems r1 (x2 :: r2)
    else x2 :: mergeItems (x1 :: r1) r2.
Proof. reflexivity. Qed.

(** A property of the values that holds on both operands holds on the
    merge, and a merge holds what its operands hold. *)
Lemma mergeItems_In {A : Type} (l1 l2 : list (nat * A)) x :
  In x (mergeItems l1 l2) <-> In x l1 \/ In x l2.
Proof.
  revert l2. induction l1 as [|x1 r1 IH1]; intros l2.
  - rewrite mergeItems_nil_l. simpl. tauto.
  - induction l2 as [|x2 r2 IH2].
    + rewrite mergeItems_nil_r. simpl. tauto.
    + rewrite mergeItems_cons. destruct (fst x1 <=? fst x2)%nat.
      * simpl. rewrite IH1. simpl. tauto.
      * simpl. rewrite IH2. simpl. tauto.
Qed.

(** [takeThrough] keeps a prefix: everything when no value fails the
    test, else the values up to the first that fails it, included. *)
Lemma takeThrough_shape {A : Type} (p : A -> bool) (l : list (nat * A)) :
  (forallb (fun x => p (snd x)) l = true /\ takeThrough p l = l)
  \/ (exists pre x post,
        l = pre ++ x :: post
        /\ forallb (fun x => p (snd x)) pre = true
        /\ p (snd x) = false
        /\ takeThrough p l = pre ++ [x]).
Proof.
  induction l as [|y r IH].
  - left. split; reflexivity.
  - simpl. destruct (p (snd y)) eqn:E.
    + destruct IH as [[Hall Heq] | [pre [x [post [Hl [Hpre [Hx Heq]]]]]]].
      * left. split; [exact Hall | rewrite Heq; reflexivity].
      * right. exists (y :: pre), x, post. subst r. simpl.
        rewrite E, Hpre, Heq. repeat split; assumption.
    + right. exists [], y, r. repeat split; assumption.
Qed.

Lemma append_nil_r (s : string) : (s ++ EmptyString)%string = s.
Proof. induction s; [reflexivity | simpl; f_equal; assumption]. Qed.

Lemma append_assoc (a b c : string) : (a ++ (b ++ c))%string = ((a ++ b) ++ c)%string.
Proof. induction a; [reflexivity | simpl; f_equal; assumption]. Qed.

(** The lines [cutLines] cuts, with what remains, are the text it was
    given. *)
Lemma cutLines_text cur s :
  (flat (fst (cutLines cur s)) ++ snd (cutLines cur s))%string = (cur ++ s)%string.
Proof.
  revert cur. induction s as [|c r IH]; intros cur.
  - simpl. symmetry. apply append_nil_r.
  - cbn [cutLines]. destruct (Ascii.eqb c LF) eqn:E.
    + apply Ascii.eqb_eq in E. subst c.
      specialize (IH EmptyString).
      destruct (cutLines EmptyString r) as [ls rest]. cbn [fst snd flat] in *.
      rewrite <- !append_assoc. rewrite IH. reflexivity.
    + rewrite IH. rewrite <- append_assoc. reflexivity.
Qed.

Lemma text_app l l' : text (l ++ l') = (text l ++ text l')%string.
Proof.
  induction l as [|x r IH]; [reflexivity|].
  simpl. rewrite IH, append_assoc. reflexivity.
Qed.

Lemma text_stamped t ls : text (map (fun line => (t, line)) ls) = flat ls.
Proof. induction ls as [|a r IH]; [reflexivity | simpl; rewrite IH; reflexivity]. Qed.

(** The lines [splitItems] delivers, with the partial line it holds at
    the end, are the text of the chunks after what was held before. *)
Lemma splitItems_text cur l :
  (text (fst (splitItems cur l)) ++ snd (splitItems cur l))%string
  = (cur ++ text l)%string.
Proof.
  revert cur. induction l as [|x r IH]; intros cur.
  - simpl. symmetry. apply append_nil_r.
  - cbn [splitItems text].
    pose proof (cutLines_text cur (snd x)) as Hc.
    destruct (cutLines cur (snd x)) as [ls cur']. cbn [fst snd] in Hc.
    specialize (IH cur').
    destruct (splitItems cur' r) as [out final]. cbn [fst snd] in *.
    rewrite text_app, text_stamped, <- append_assoc, IH.
    rewrite append_assoc, Hc, <- append_assoc. reflexivity.
Qed.

(** When the source ends, [splitStream] has delivered its whole text,
    and ends as the source does. *)
Lemma splitStream_ended (o : Observable string) t te k :
  ending (o t) = Some (te, k) ->
  text (items (splitStream o t)) = text (items (o t))
  /\ ending (splitStream o t) = Some (te, k).
Proof.
  intros He. unfold splitStream.
  pose proof (splitItems_text EmptyString (items (o t))) as H.
  destruct (splitItems EmptyString (items (o t))) as [out final].
  rewrite He. cbn [items ending fst snd] in *. split; [|reflexivity].
  rewrite text_app. simpl in H. rewrite <- H.
  destruct final; simpl; rewrite ?append_nil_r; reflexivity.
Qed.

End RxFacts.

(* ================================================================== *)
(** ** Properties of the process streams *)
(* ================================================================== *)

Module ProcFacts.
Import JS Eff Rx Proc Vocabulary Samples RxFacts.

Lemma firstExit_head l :
  match filter (fun x => notSIGUSR1 (snd x))
          (map (fun x : nat * (option Z * option string) =>
                  (fst x, {| exitCode := fst (snd x); signal := snd (snd x) |})) l) with
  | x :: _ => Some x
  | [] => None
  end = firstExit l.
Proof.
  induction l as [|ev r IH]; [reflexivity|].
  cbn [map filter firstExit]. unfold toExit at 1 2. cbn [snd fst].
  destruct (notSIGUSR1 _); [reflexivity | exact IH].
Qed.

(** What a subscriber of [observeProcessExitMessage] sees: the first exit
    notification whose signal is not SIGUSR1, then the completion; nothing
    while there is none. *)
Lemma observeProcessExitMessage_trace p t :
  observeProcessExitMessage p t
  = match firstExit (since t (exitEvents p)) with
    | Some x => mkTrace [x] (Some (fst x, Completed))
    | None => mkTrace [] None
    end.
Proof.
  unfold observeProcessExitMessage, take1, filter_, map_, fromEvent.
  cbn [items ending].
  rewrite <- firstExit_head.
  destruct (filter _ _) as [|[u m] r]; reflexivity.
Qed.

Lemma firstExit_In l x :
  firstExit l = Some x ->
  exists ev, In ev l /\ toExit ev = x /\ notSIGUSR1 (snd x) = true.
Proof.
  induction l as [|ev r IH]; [discriminate|].
  cbn [firstExit]. destruct (notSIGUSR1 (snd (toExit ev))) eqn:E.
  - intros H. injection H as <-. exists ev. repeat split; [left; reflexivity | exact E].
  - intros H. destruct (IH H) as [ev' [Hin Hev]]. exists ev'. split; [right; exact Hin | exact Hev].
Qed.

Lemma firstExit_since t l x : firstExit (since t l) = Some x -> t <= fst x.
Proof.
  intros H. apply firstExit_In in H as [ev [Hin [<- _]]].
  apply since_In in Hin. exact Hin.
Qed.

Lemma firstExit_none l :
  firstExit l = None <->
  existsb (fun ev => notSIGUSR1 (snd (toExit ev))) l = false.
Proof.
  induction l as [|ev r IH]; [split; reflexivity|].
  cbn [firstExit existsb]. destruct (notSIGUSR1 (snd (toExit ev))); cbn [orb].
  - split; discriminate.
  - exact IH.
Qed.

Lemma since_head {A : Type} t (l : list (nat * A)) x r :
  since t l = x :: r -> t <= fst x.
Proof. intros H. apply (since_In t l). rewrite H. left. reflexivity. Qed.

(** The errors of [errors.flatMap(Observable.throw)]: no value, and a
    failure no earlier than the subscription. *)
Lemma flatMap_throw_trace {B : Type} t (l : list (nat * Exn)) :
  Forall (fun x => t <= fst x) l ->
  let tr := fold_right (fun x acc => mergeT (@throw_ B (snd x) (fst x)) acc)
                       (mkTrace [] None) l in
  items tr = []
  /\ (ending tr = None \/ exists u e, ending tr = Some (u, Errored e) /\ t <= u).
Proof.
  induction 1 as [|x r Hx _ IH]; cbn [fold_right].
  - split; [reflexivity | left; reflexivity].
  - cbn zeta in IH. destruct IH as [Hi He].
    set (acc := fold_right _ _ r) in *.
    unfold mergeT, throw_. cbn [items ending]. rewrite Hi. cbn [mergeItems].
    destruct He as [He | [u [e [He Hu]]]]; rewrite He.
    + cbn [items ending upTo filter]. split; [reflexivity|].
      right. exists (fst x), (snd x). split; [reflexivity | exact Hx].
    + destruct (fst x <=? u)%nat; cbn [items ending upTo filter];
        (split; [reflexivity|]); right.
      * exists (fst x), (snd x). split; [reflexivity | exact Hx].
      * exists u, e. split; [reflexivity | exact Hu].
Qed.

Lemma since_Forall {A : Type} t (l : list (nat * A)) :
  Forall (fun x => t <= fst x) (since t l).
Proof. apply Forall_forall. intros x. apply since_In. Qed.

(** Whatever stops [takeUntil] no earlier than the values of the source
    leaves them all. *)
Lemma takeUntil_items_all {A B : Type} (o : Observable A) (n : Observable B) t :
  (forall tn k, firstSignal (n t) = Some (tn, k) ->
                Forall (fun x => fst x <= tn) (items (o t))) ->
  items (takeUntil o n t) = items (o t).
Proof.
  intros H. unfold takeUntil.
  destruct (firstSignal (n t)) as [[tn k]|]; [|reflexivity].
  specialize (H tn k eq_refl).
  destruct (ending (o t)) as [[te k']|].
  - destruct (te <=? tn)%nat; [reflexivity|]. cbn [items]. apply upTo_all, H.
  - cbn [items]. apply upTo_all, H.
Qed.

(** A fresh process is delivered to the subscriber as soon as it
    subscribes. *)
Lemma processStream_items createProcess throwOnError k t :
  isFresh (createProcess tt) = true ->
  items (_createProcessStream createProcess throwOnError k t)
  = [(t, createProcess tt)].
Proof.
  intros Hf. unfold _createProcessStream, defer. rewrite Hf. cbn [negb].
  rewrite takeUntil_items_all.
  - rewrite takeUntil_items_all; [reflexivity|].
    intros tn kk Hs. constructor; [|constructor]. cbn [fst].
    destruct throwOnError.
    + unfold flatMap, fromEvent in Hs. cbn [items ending] in Hs.
      destruct (flatMap_throw_trace (B := Exn) t _ (since_Forall t (errorEvents (createProcess tt))))
        as [Hi He].
      unfold firstSignal in Hs. rewrite Hi in Hs.
      destruct He as [He | [u [e [He Hu]]]]; rewrite He in Hs; [discriminate|].
      injection Hs as <- _. exact Hu.
    + unfold firstSignal, fromEvent in Hs. cbn [items ending] in Hs.
      destruct (since t (errorEvents (createProcess tt))) as [|[u e] r] eqn:E;
        [discriminate|].
      injection Hs as <- _. apply (since_head _ _ _ _ E).
  - intros tn kk Hs.
    rewrite takeUntil_items_all.
    + constructor; [|constructor]. cbn [fst].
      rewrite observeProcessExitMessage_trace in Hs.
      destruct (firstExit _) as [[u m]|] eqn:E; [|discriminate].
      unfold firstSignal in Hs. cbn [items] in Hs. injection Hs as <- _.
      apply (firstExit_since _ _ _ E).
    + intros tn' kk' Hs'. constructor; [|constructor]. cbn [fst].
      destruct throwOnError.
      * unfold flatMap, fromEvent in Hs'. cbn [items ending] in Hs'.
        destruct (flatMap_throw_trace (B := Exn) t _ (since_Forall t (errorEvents (createProcess tt))))
          as [Hi He].
        unfold firstSignal in Hs'. rewrite Hi in Hs'.
        destruct He as [He | [u [e [He Hu]]]]; rewrite He in Hs'; [discriminate|].
        injection Hs' as <- _. exact Hu.
      * unfold firstSignal, fromEvent in Hs'. cbn [items ending] in Hs'.
        destruct (since t (errorEvents (createProcess tt))) as [|[u e] r] eqn:E;
          [discriminate|].
        injection Hs' as <- _. apply (since_head _ _ _ _ E).
Qed.

(** C6: when it is subscribed, the process stream checks that the handle
    it has just obtained has neither exited (its exit code is unset) nor
    been killed; if either holds the subscription fails at once with the
    assertion error and delivers nothing, and otherwise the handle is
    delivered. *)
Theorem createProcessStream_checks_handle createProcess throwOnError killTree t :
  let process := createProcess tt in
  (isFresh process = true
   <-> exitCodeOf (self process) = None /\ killed (self process) = false)
  /\ (isFresh process = false ->
      _createProcessStream createProcess throwOnError killTree t
      = mkTrace [] (Some (t, Errored alreadyExited)))
  /\ (isFresh process = true ->
      items (_createProcessStream createProcess throwOnError killTree t)
      = [(t, process)]).
Proof.
  intros process. split; [|split].
  - unfold isFresh. fold process.
    destruct (exitCodeOf (self process)), (killed (self process)); cbn;
      split; try discriminate; try (intros [? ?]; discriminate); auto.
  - intros Hf. unfold _createProcessStream, defer. fold process.
    rewrite Hf. reflexivity.
  - apply processStream_items.
Qed.

Lemma createProcessStream_checks_handle_witness :
  _createProcessStream (fun _ => stale) true false 0
  = mkTrace [] (Some (0, Errored alreadyExited)).
Proof.
  exact (proj1 (proj2 (createProcessStream_checks_handle (fun _ => stale) true false 0))
           eq_refl).
Defined.

Lemma firstExit_app_skip pre rest :
  forallb (fun ev => negb (notSIGUSR1 (snd (toExit ev)))) pre = true ->
  firstExit (pre ++ rest) = firstExit rest.
Proof.
  induction pre as [|ev r IH]; [reflexivity|].
  cbn [forallb app firstExit]. intros H. apply andb_prop in H as [H1 H2].
  apply negb_true_iff in H1. rewrite H1. apply IH, H2.
Qed.

(** C5: an exit notification whose signal is SIGUSR1 produces no exit
    message and the observer keeps waiting; the first exit notification
    with another signal, or with none, produces the one exit message, after
    which the observer completes. *)
Theorem observeProcessExitMessage_skips_SIGUSR1 p :
  (forall pre u code sig post,
      exitEvents p = pre ++ (u, (code, sig)) :: post ->
      forallb (fun ev => match snd (snd ev) with
                         | Some s => String.eqb s "SIGUSR1"
                         | None => false
                         end) pre = true ->
      sig <> Some "SIGUSR1" ->
      observeProcessExitMessage p 0
      = mkTrace [(u, {| exitCode := code; signal := sig |})] (Some (u, Completed)))
  /\ (forallb (fun ev => match snd (snd ev) with
                         | Some s => String.eqb s "SIGUSR1"
                         | None => false
                         end) (exitEvents p) = true ->
      observeProcessExitMessage p 0 = mkTrace [] None).
Proof.
  assert (Hskip : forall l,
             forallb (fun ev : nat * (option Z * option string) =>
                        match snd (snd ev) with
                        | Some s => String.eqb s "SIGUSR1"
                        | None => false
                        end) l = true ->
             forallb (fun ev => negb (notSIGUSR1 (snd (toExit ev)))) l = true).
  { intros l H. rewrite forallb_forall in *. intros ev Hin. specialize (H ev Hin).
    unfold notSIGUSR1, toExit. cbn [snd signal].
    destruct (snd (snd ev)); [|discriminate]. rewrite H. reflexivity. }
  split.
  - intros pre u code sig post He Hpre Hsig.
    rewrite observeProcessExitMessage_trace, since_0, He.
    rewrite (firstExit_app_skip _ _ (Hskip _ Hpre)).
    cbn [firstExit]. unfold toExit, notSIGUSR1. cbn [fst snd signal].
    destruct sig as [s|]; [|reflexivity].
    destruct (String.eqb s "SIGUSR1") eqn:E; [|reflexivity].
    apply String.eqb_eq in E. subst s. congruence.
  - intros Hall. rewrite observeProcessExitMessage_trace, since_0.
    rewrite <- (app_nil_r (exitEvents p)).
    rewrite (firstExit_app_skip _ _ (Hskip _ Hall)). reflexivity.
Qed.

Lemma observeProcessExitMessage_skips_SIGUSR1_witness :
  observeProcessExitMessage exiting 0
  = mkTrace [(10, {| exitCode := Some 0%Z; signal := None |})] (Some (10, Completed)).
Proof.
  refine (proj1 (observeProcessExitMessage_skips_SIGUSR1 exiting)
            [(5, (None, Some "SIGUSR1"))] 10 (Some 0%Z) None [(20, (Some 1%Z, None))]
            eq_refl eq_refl _).
  discriminate.
Defined.

End ProcFacts.

(* ================================================================== *)
(** ** Properties of the output multiplexer *)
(* ================================================================== *)

Module MuxFacts.
Import JS Eff Rx Proc Vocabulary Samples RxFacts ProcFacts.

Lemma takeUntil_ending {A B : Type} (o : Observable A) (n : Observable B) t :
  match firstSignal (n t) with
  | None => ending (takeUntil o n t) = ending (o t)
  | Some (tn, k) =>
      (exists te k', ending (o t) = Some (te, k') /\ te <= tn
                     /\ ending (takeUntil o n t) = Some (te, k'))
      \/ ending (takeUntil o n t) = Some (tn, k)
  end.
Proof.
  unfold takeUntil. destruct (firstSignal (n t)) as [[tn k]|]; [|reflexivity].
  destruct (ending (o t)) as [[te k']|] eqn:E.
  - destruct (te <=? tn)%nat eqn:L.
    + left. exists te, k'. apply Nat.leb_le in L. repeat split; assumption.
    + right. reflexivity.
  - right. reflexivity.
Qed.

(** Without [throwOnError], the stream of a fresh process does not fail;
    it has completed by the time of the first exit that counts. *)
Lemma processStream_ending createProcess k t :
  isFresh (createProcess tt) = true ->
  let e := ending (_createProcessStream createProcess false k t) in
  match firstExit (since t (exitEvents (createProcess tt))) with
  | Some x => exists te, e = Some (te, Completed) /\ te <= fst x
  | None => e = None \/ exists te, e = Some (te, Completed)
  end.
Proof.
  intros Hf. unfold _createProcessStream, defer. rewrite Hf. cbn [negb].
  set (p := createProcess tt).
  set (inner := takeUntil (merge (of_ p) never) (fromEvent (errorEvents p))).
  assert (Hin : ending (inner t) = None \/ exists te, ending (inner t) = Some (te, Completed)).
  { pose proof (takeUntil_ending (merge (of_ p) never) (fromEvent (errorEvents p)) t) as H.
    fold inner in H.
    unfold firstSignal, fromEvent in H. cbn [items ending] in H.
    destruct (since t (errorEvents p)) as [|[tn e0] r].
    - left. rewrite H. reflexivity.
    - destruct H as [[te [k' [H1 _]]] | H]; [discriminate H1|].
      right. exists tn. exact H. }
  pose proof (takeUntil_ending inner (observeProcessExitMessage p) t) as H.
  rewrite observeProcessExitMessage_trace in H.
  cbn zeta.
  destruct (firstExit (since t (exitEvents p))) as [[u m]|].
  - unfold firstSignal in H. cbn [items] in H. cbn [fst].
    destruct H as [[te [k' [H1 [H2 H3]]]] | H].
    + exists te. split; [|exact H2]. rewrite H3.
      destruct Hin as [Hn | [te' Hs]]; rewrite H1 in *; [discriminate|].
      injection Hs as -> ->. reflexivity.
    + exists u. split; [exact H | apply Nat.le_refl].
  - unfold firstSignal in H. cbn [items ending] in H. rewrite H. exact Hin.
Qed.

(** For a fresh process, [observeProcessExit] shows what
    [observeProcessExitMessage] shows. *)
Lemma observeProcessExit_fresh createProcess k t :
  isFresh (createProcess tt) = true ->
  observeProcessExit createProcess k t
  = observeProcessExitMessage (createProcess tt) t.
Proof.
  intros Hf. unfold observeProcessExit, flatMap.
  rewrite (processStream_items createProcess false k t Hf).
  cbn [fold_right fst snd].
  pose proof (processStream_ending createProcess k t Hf) as He. cbn zeta in He.
  rewrite observeProcessExitMessage_trace.
  destruct (firstExit _) as [[u m]|].
  - destruct He as [te [-> Hle]]. cbn [fst] in Hle.
    unfold mergeT. cbn [items ending fst]. rewrite Nat.max_l by exact Hle.
    reflexivity.
  - destruct He as [-> | [te ->]]; reflexivity.
Qed.

(** What a subscriber of the replayed exit sees when it subscribes at
    time [t]. *)
Lemma exitReplay_trace p k t :
  isFresh p = true ->
  exitReplay p k t
  = match firstExit (exitEvents p) with
    | Some x => mkTrace [(Nat.max (fst x) t, snd x)]
                        (Some (Nat.max (fst x) t, Completed))
    | None => mkTrace [] None
    end.
Proof.
  intros Hf. unfold exitReplay, publishReplay.
  rewrite (observeProcessExit_fresh (fun _ => p) k 0 Hf).
  rewrite observeProcessExitMessage_trace, since_0.
  destruct (firstExit (exitEvents p)) as [[u m]|]; reflexivity.
Qed.

Lemma exitTagged_trace p k t :
  isFresh p = true ->
  map_ MExit (exitReplay p k) t
  = match firstExit (exitEvents p) with
    | Some x => mkTrace [(Nat.max (fst x) t, MExit (snd x))]
                        (Some (Nat.max (fst x) t, Completed))
    | None => mkTrace [] None
    end.
Proof.
  intros Hf. unfold map_. rewrite (exitReplay_trace p k t Hf).
  destruct (firstExit (exitEvents p)) as [[u m]|]; reflexivity.
Qed.

Lemma closeSignal_trace p k :
  isFresh p = true ->
  closeSignal p k 0
  = match firstExit (exitEvents p) with
    | Some x => mkTrace [(fst x + closeDelay, snd x)]
                        (Some (fst x + closeDelay, Completed))
    | None => mkTrace [] None
    end.
Proof.
  intros Hf. unfold closeSignal, delay. rewrite (exitReplay_trace p k 0 Hf).
  destruct (firstExit (exitEvents p)) as [[u m]|]; cbn [items ending map fst snd].
  - rewrite Nat.max_0_r. reflexivity.
  - reflexivity.
Qed.

(** The gated byte stream of a fresh process: cut at the close signal
    when the process exits before the stream closes. *)
Lemma gated_trace p k raw :
  isFresh p = true ->
  gated p k raw 0
  = match firstExit (exitEvents p) with
    | Some x =>
        match closed raw with
        | Some c =>
            if (c <=? fst x + closeDelay)%nat
            then mkTrace (chunks raw) (Some (c, Completed))
            else mkTrace (upTo (fst x + closeDelay) (chunks raw))
                         (Some (fst x + closeDelay, Completed))
        | None => mkTrace (upTo (fst x + closeDelay) (chunks raw))
                          (Some (fst x + closeDelay, Completed))
        end
    | None => mkTrace (chunks raw) (option_map (fun c => (c, Completed)) (closed raw))
    end.
Proof.
  intros Hf. unfold gated, takeUntil. rewrite (closeSignal_trace p k Hf).
  unfold observeStream. rewrite since_0.
  destruct (firstExit (exitEvents p)) as [[u m]|]; unfold firstSignal;
    cbn [items ending fst snd].
  - destruct (closed raw) as [c|]; cbn [option_map]; [|reflexivity].
    rewrite Nat.max_0_r. destruct (c <=? u + closeDelay)%nat; reflexivity.
  - destruct (closed raw) as [c|]; cbn [option_map]; [|reflexivity].
    rewrite Nat.max_0_r. reflexivity.
Qed.

Lemma getOutputStream_source p k :
  getOutputStream p k 0 = takeWhileInclusive (outputSource p k) notTerminal 0.
Proof. reflexivity. Qed.

Lemma splitStream_ending (o : Observable string) t :
  ending (splitStream o t) = ending (o t).
Proof.
  unfold splitStream. destruct (splitItems EmptyString (items (o t))) as [out final].
  destruct (ending (o t)) as [[te k]|]; reflexivity.
Qed.

Lemma gated_clean p k raw : isFresh p = true -> clean (gated p k raw 0).
Proof.
  intros Hf. unfold clean. rewrite (gated_trace p k raw Hf).
  destruct (firstExit (exitEvents p)) as [[u m]|].
  - destruct (closed raw) as [c|]; [destruct (c <=? _)%nat|]; exact I.
  - destruct (closed raw) as [c|]; exact I.
Qed.

(** After an exit that counts, the gated stream has an end. *)
Lemma gated_ends p k raw x :
  isFresh p = true -> firstExit (exitEvents p) = Some x ->
  exists T, ending (gated p k raw 0) = Some (T, Completed).
Proof.
  intros Hf Hx. rewrite (gated_trace p k raw Hf), Hx.
  destruct (closed raw) as [c|]; [destruct (c <=? _)%nat|]; eexists; reflexivity.
Qed.

Lemma mergeT_clean {A : Type} (a b : Trace A) :
  clean a -> clean b ->
  items (mergeT a b) = mergeItems (items a) (items b)
  /\ ending (mergeT a b)
     = match ending a, ending b with
       | Some (ta, _), Some (tb, _) => Some (Nat.max ta tb, Completed)
       | _, _ => None
       end.
Proof.
  unfold clean, mergeT.
  destruct (ending a) as [[ta [|ea]]|], (ending b) as [[tb [|eb]]|];
    intros Ha Hb; try contradiction; split; reflexivity.
Qed.

(** What the final merge holds: the lines of stdout and stderr, then the
    exit message if an exit counts, merged with the error events. *)
Lemma outputSource_items p k :
  isFresh p = true ->
  exists exitPart,
    items (outputSource p k 0)
    = mergeItems
        (mergeItems (tagged MStdout (outLines p k)) (tagged MStderr (errLines p k))
           ++ exitPart)
        (tagged MError (errorEvents p))
    /\ match firstExit (exitEvents p) with
       | Some x => exists T, exitPart = [(T, MExit (snd x))]
       | None => exitPart = []
       end.
Proof.
  intros Hf.
  set (O := map_ MStdout (splitStream (gated p k (stdout p)))).
  set (E := map_ MStderr (splitStream (gated p k (stderr p)))).
  assert (HO : ending (O 0) = ending (gated p k (stdout p) 0)).
  { unfold O, map_. cbn [ending]. apply splitStream_ending. }
  assert (HE : ending (E 0) = ending (gated p k (stderr p) 0)).
  { unfold E, map_. cbn [ending]. apply splitStream_ending. }
  assert (CO : clean (O 0)).
  { unfold clean. rewrite HO. apply (gated_clean p k _ Hf). }
  assert (CE : clean (E 0)).
  { unfold clean. rewrite HE. apply (gated_clean p k _ Hf). }
  destruct (mergeT_clean (O 0) (E 0) CO CE) as [Hmi Hme].
  assert (Hconcat :
    exists exitPart e,
      items (concat (merge O E) (map_ MExit (exitReplay p k)) 0)
      = mergeItems (items (O 0)) (items (E 0)) ++ exitPart
      /\ ending (concat (merge O E) (map_ MExit (exitReplay p k)) 0) = e
      /\ match e with Some (_, Errored _) => False | _ => True end
      /\ match firstExit (exitEvents p) with
         | Some x => exists T, exitPart = [(T, MExit (snd x))]
         | None => exitPart = []
         end).
  { unfold concat, merge. fold (O 0) (E 0).
    destruct (firstExit (exitEvents p)) as [[u m]|] eqn:Hx.
    - destruct (gated_ends p k (stdout p) _ Hf Hx) as [T1 H1].
      destruct (gated_ends p k (stderr p) _ Hf Hx) as [T2 H2].
      rewrite Hme, HO, HE, H1, H2.
      rewrite (exitTagged_trace p k _ Hf), Hx.
      cbn [items ending fst snd]. rewrite Hmi.
      eexists. eexists. split; [reflexivity|]. split; [reflexivity|].
      split; [exact I|]. eexists. reflexivity.
    - destruct (ending (mergeT (O 0) (E 0))) as [[te [|e]]|] eqn:Em.
      + rewrite (exitTagged_trace p k _ Hf), Hx.
        cbn [items ending]. rewrite Hmi.
        exists [], None. repeat split.
      + exfalso. rewrite Hme in Em.
        destruct (ending (O 0)) as [[? ?]|], (ending (E 0)) as [[? ?]|]; discriminate.
      + rewrite Em, Hmi. exists [], None. rewrite app_nil_r. repeat split. }
  destruct Hconcat as [exitPart [e [Hi [He [Hc Hx]]]]].
  exists exitPart. split; [|exact Hx].
  unfold outputSource. fold O E. unfold merge at 1.
  set (C := concat (merge O E) (map_ MExit (exitReplay p k))) in *.
  assert (CC : clean (C 0)). { unfold clean. rewrite He. exact Hc. }
  assert (CR : clean (map_ MError (fromEvent (errorEvents p)) 0)) by exact I.
  destruct (mergeT_clean _ _ CC CR) as [Hsi _].
  rewrite Hsi, Hi. unfold map_, fromEvent. cbn [items]. rewrite since_0.
  reflexivity.
Qed.

End MuxFacts.

(* ================================================================== *)
(** ** The terminal event and the grace period *)
(* ================================================================== *)

Module OutputFacts.
Import JS Eff Rx Proc Vocabulary Samples RxFacts ProcFacts MuxFacts.

Lemma terminals_app l l' : terminals (l ++ l') = terminals l + terminals l'.
Proof. unfold terminals. rewrite filter_app, length_app. reflexivity. Qed.

Lemma terminals_none l :
  forallb (fun x => notTerminal (snd x)) l = true -> terminals l = 0.
Proof.
  unfold terminals, isTerminal. induction l as [|x r IH]; [reflexivity|].
  cbn [forallb filter]. intros H. apply andb_prop in H as [Hx Hr].
  rewrite Hx. cbn [negb]. apply IH, Hr.
Qed.

(** In a sequence that ends with its only terminal event, a terminal
    event has nothing after it. *)
Lemma terminal_is_last (pre' : list (nat * ProcessMessage)) x' pre x post :
  forallb (fun y => notTerminal (snd y)) pre' = true ->
  pre' ++ [x'] = pre ++ x :: post ->
  isTerminal (snd x) = true ->
  post = [].
Proof.
  revert pre. induction pre' as [|y r IH]; intros pre Hall Heq Hx.
  - destruct pre as [|y0 pre0]; cbn [app] in Heq.
    + injection Heq as _ Hp. symmetry. exact Hp.
    + injection Heq as _ Hp. destruct pre0; discriminate Hp.
  - cbn [forallb] in Hall. apply andb_prop in Hall as [Hy Hr].
    destruct pre as [|y0 pre0]; cbn [app] in Heq.
    + injection Heq as Hxy _. subst y. unfold isTerminal in Hx.
      rewrite Hy in Hx. discriminate.
    + injection Heq as _ Hp. apply (IH pre0 Hr Hp Hx).
Qed.

(** What passes [takeWhileInclusive] holds at most one terminal event,
    and nothing after it. *)
Lemma takeThrough_terminal l :
  let out := takeThrough notTerminal l in
  terminals out <= 1
  /\ (forall pre x post,
        out = pre ++ x :: post -> isTerminal (snd x) = true -> post = [])
  /\ (terminals out = 1 <-> exists x, In x l /\ isTerminal (snd x) = true).
Proof.
  cbn zeta.
  destruct (takeThrough_shape notTerminal l)
    as [[Hall Heq] | [pre' [x' [post' [Hl [Hpre [Hx' Heq]]]]]]]; rewrite Heq.
  - rewrite (terminals_none l Hall). split; [lia|]. split.
    + intros pre x post Hl Hx. exfalso.
      assert (Hin : In x l) by (rewrite Hl; apply in_elt).
      pose proof (proj1 (forallb_forall _ _) Hall x Hin) as Hn.
      unfold isTerminal in Hx. rewrite Hn in Hx. discriminate.
    + split; [discriminate|]. intros [x [Hin Hx]]. exfalso.
      pose proof (proj1 (forallb_forall _ _) Hall x Hin) as Hn.
      unfold isTerminal in Hx. rewrite Hn in Hx. discriminate.
  - assert (Hone : terminals (pre' ++ [x']) = 1).
    { rewrite terminals_app, (terminals_none pre' Hpre).
      unfold terminals, isTerminal. cbn [filter]. rewrite Hx'. reflexivity. }
    rewrite Hone. split; [lia|]. split.
    + intros pre x post. apply terminal_is_last. exact Hpre.
    + split; [|reflexivity]. intros _. exists x'. split.
      * rewrite Hl. apply in_elt.
      * unfold isTerminal. rewrite Hx'. reflexivity.
Qed.

Lemma tagged_In {A B : Type} (f : A -> B) l y :
  In y (tagged f l) <-> exists x, In x l /\ y = (fst x, f (snd x)).
Proof.
  unfold tagged. rewrite in_map_iff. split; intros [x [H1 H2]]; exists x; auto.
Qed.

(** The final merge holds a terminal event exactly when an error event
    was dispatched or an exit counts. *)
Lemma outputSource_terminal p k :
  isFresh p = true ->
  (exists x, In x (items (outputSource p k 0)) /\ isTerminal (snd x) = true)
  <-> errorEvents p <> []
      \/ existsb (fun ev => notSIGUSR1 (snd (toExit ev))) (exitEvents p) = true.
Proof.
  intros Hf. destruct (outputSource_items p k Hf) as [exitPart [Hi Hx]].
  rewrite Hi. split.
  - intros [x [Hin Ht]].
    apply mergeItems_In in Hin as [Hin | Hin].
    + apply in_app_or in Hin as [Hin | Hin].
      * exfalso. apply mergeItems_In in Hin as [Hin | Hin];
          apply tagged_In in Hin as [y [_ ->]]; discriminate Ht.
      * right. destruct (firstExit (exitEvents p)) eqn:E.
        -- destruct (existsb _ (exitEvents p)) eqn:Ex; [reflexivity|].
           apply firstExit_none in Ex. congruence.
        -- subst exitPart. contradiction.
    + left. apply tagged_In in Hin as [y [Hy _]]. intros Hn. rewrite Hn in Hy.
      contradiction.
  - intros [Hne | Hex].
    + destruct (errorEvents p) as [|y r]; [congruence|].
      exists (fst y, MError (snd y)). split; [|reflexivity].
      apply mergeItems_In. right. left. reflexivity.
    + destruct (firstExit (exitEvents p)) as [x|] eqn:E.
      * destruct Hx as [T ->]. exists (T, MExit (snd x)). split; [|reflexivity].
        apply mergeItems_In. left. apply in_or_app. right. left. reflexivity.
      * apply firstExit_none in E. congruence.
Qed.

(** C3, as the code has it: whatever the process dispatches, the
    merged sequence holds at most one terminal event (error or exit), and
    a terminal event is its last element, nothing following it; for a
    fresh handle it holds exactly one as soon as the process dispatches an
    error event or an exit notification whose signal is not SIGUSR1, and
    none otherwise. *)
Theorem getOutputStream_terminal_last p k :
  let out := items (getOutputStream p k 0) in
  terminals out <= 1
  /\ (forall pre x post,
        out = pre ++ x :: post -> isTerminal (snd x) = true -> post = [])
  /\ (isFresh p = true ->
      (terminals out = 1
       <-> errorEvents p <> []
           \/ existsb (fun ev => notSIGUSR1 (snd (toExit ev))) (exitEvents p) = true)).
Proof.
  cbn zeta. rewrite getOutputStream_source. unfold takeWhileInclusive.
  cbn [items].
  destruct (takeThrough_terminal (items (outputSource p k 0))) as [H1 [H2 H3]].
  split; [exact H1|]. split; [exact H2|].
  intros Hf. rewrite H3. apply outputSource_terminal. exact Hf.
Qed.

Lemma getOutputStream_terminal_last_witness :
  terminals (items (getOutputStream exiting false 0)) = 1.
Proof.
  apply (proj2 (proj2 (getOutputStream_terminal_last exiting false)) eq_refl).
  right. reflexivity.
Defined.

(** C3, as stated, fails: a process whose only exit notification carries
    SIGUSR1 gives a merged sequence without any terminal event. *)
Lemma getOutputStream_no_terminal :
  items (getOutputStream interrupted false 0) = [(3, MStdout (lf "a"))]
  /\ terminals (items (getOutputStream interrupted false 0)) = 0
  /\ ~ (terminals (items (getOutputStream interrupted false 0)) = 1).
Proof.
  vm_compute. split; [reflexivity|]. split; [reflexivity | discriminate].
Qed.

Lemma notTerminal_merged l l' :
  forallb (fun x => notTerminal (snd x))
    (mergeItems (tagged MStdout l) (tagged MStderr l')) = true.
Proof.
  apply forallb_forall. intros x Hin.
  apply mergeItems_In in Hin as [Hin | Hin];
    apply tagged_In in Hin as [y [_ ->]]; reflexivity.
Qed.

(** The sample process that exits at time 10: the chunk delivered at 50
    is inside the grace period, the one delivered at 111 is not. *)
Example getOutputStream_exiting :
  getOutputStream exiting false 0
  = mkTrace [(4, MStderr (lf "x")); (7, MStdout (lf "abc")); (50, MStdout (lf "late"));
             (110, MExit {| exitCode := Some 0%Z; signal := None |})]
            (Some (110, Completed)).
Proof. vm_compute. reflexivity. Qed.

(** A process that fails to start: the error event ends the sequence. *)
Example getOutputStream_failing :
  getOutputStream failing false 0
  = mkTrace [(8, MError (Os "ENOENT"))] (Some (8, Completed)).
Proof. vm_compute. reflexivity. Qed.

End OutputFacts.

(* ================================================================== *)
(** ** Running commands: results and failures *)
(* ================================================================== *)

Module RunFacts.
Import JS Eff Ps Run Kill Table Vocabulary Samples Frame.

Lemma asyncExecute_contract_aux env command args w :
  exists r,
    asyncExecute env command args w = (Returned r, emit (ExecFile command args) w)
    /\ stdout r = stdoutBuf (execFile env command args).
Proof.
  unfold asyncExecute.
  destruct (err (execFile env command args)) as [e|]; [destruct (code e)|];
    eexists; split; reflexivity.
Qed.


Lemma checkOutput_cases env command args w :
  exists r,
    asyncExecute env command args w = (Returned r, emit (ExecFile command args) w)
    /\ checkOutput env command args w
       = (match exitCode r with
          | Some 0%Z => Returned r
          | _ => Thrown (CheckOutputError command r)
          end, emit (ExecFile command args) w).
Proof.
  destruct (asyncExecute_contract_aux env command args w) as [r [Hr _]].
  exists r. split; [exact Hr|].
  unfold checkOutput, bind. rewrite Hr.
  destruct (exitCode r) as [[| |]|]; reflexivity.
Qed.


Lemma psTree_listing env w :
  psTree env w
  = (let r := fst (checkOutput env (fst (listingCommand env)) (snd (listingCommand env)) w) in
     match r with
     | Returned a => Returned (parsePsOutput (stdout a))
     | Thrown e => Thrown e
     end,
     emit (ExecFile (fst (listingCommand env)) (snd (listingCommand env))) w).
Proof.
  unfold psTree, listingCommand, bind, wmicArgs, psArgs.
  destruct (startsWithWin (platform env)); cbn [fst snd].
  - destruct (checkOutput_cases env "wmic.exe"
                ["PROCESS"; "GET"; "ParentProcessId,ProcessId,Name"] w) as [r [_ ->]].
    cbn [fst]. destruct (exitCode r) as [[| |]|]; reflexivity.
  - destruct (checkOutput_cases env "ps" ["-A"; "-o"; "ppid,pid,comm"] w) as [r [_ ->]].
    cbn [fst]. destruct (exitCode r) as [[| |]|]; reflexivity.
Qed.

Lemma listingOk_exitCode env w r :
  asyncExecute env (fst (listingCommand env)) (snd (listingCommand env)) w
  = (Returned r, emit (ExecFile (fst (listingCommand env)) (snd (listingCommand env))) w) ->
  (listingOk env = true <-> exitCode r = Some 0%Z).
Proof.
  unfold asyncExecute, listingOk. cbn zeta.
  destruct (err (execFile env _ _)) as [e|].
  - destruct (code e) as [z|]; intros H; injection H as <-; cbn [exitCode].
    + destruct z; split; intros H; try reflexivity; try discriminate H.
    + split; discriminate.
  - intros H; injection H as <-. split; reflexivity.
Qed.

Lemma getChildren_listing_fails env processId w :
  listingOk env = false ->
  exists r,
    getChildrenOfProcess env processId w
    = (Thrown (CheckOutputError (fst (listingCommand env)) r),
       emit (ExecFile (fst (listingCommand env)) (snd (listingCommand env))) w)
    /\ exitCode r <> Some 0%Z.
Proof.
  intros Hbad. unfold getChildrenOfProcess, bind. rewrite psTree_listing.
  destruct (checkOutput_cases env (fst (listingCommand env)) (snd (listingCommand env)) w)
    as [r [Hr ->]].
  pose proof (listingOk_exitCode env w r Hr) as Hiff. cbn [fst].
  exists r.
  destruct (exitCode r) as [[| |]|] eqn:E; cbn zeta;
    try (split; [reflexivity | discriminate]).
  exfalso. rewrite (proj2 Hiff eq_refl) in Hbad. discriminate.
Qed.

(** X3: when the listing command does not exit with code 0 ([ps], or
    [wmic.exe] on Windows, also when it cannot be started),
    [getChildrenOfProcess] rejects with the error of [checkOutput], having
    run that one command, and lists nothing. *)
Theorem getChildrenOfProcess_rejects env processId w :
  listingOk env = false ->
  exists r,
    getChildrenOfProcess env processId w
    = (Thrown (CheckOutputError (fst (listingCommand env)) r),
       emit (ExecFile (fst (listingCommand env)) (snd (listingCommand env))) w)
    /\ exitCode r <> Some 0%Z.
Proof. apply getChildren_listing_fails. Qed.

Lemma getChildrenOfProcess_rejects_witness :
  exists r,
    getChildrenOfProcess
      (mkEnv "linux" (fun _ => None)
         (fun _ _ => mkExecFileResult (Some (mkExecFileError (IntCode 1) None "failed")) "" "")
         (fun _ _ => None) (fun _ => Delivered)) (Num 50) world50
    = (Thrown (CheckOutputError "ps" r), emit (ExecFile "ps" psArgs) world50)
    /\ exitCode r <> Some 0%Z.
Proof.
  exact (getChildrenOfProcess_rejects
           (mkEnv "linux" (fun _ => None)
              (fun _ _ => mkExecFileResult (Some (mkExecFileError (IntCode 1) None "failed")) "" "")
              (fun _ _ => None) (fun _ => Delivered)) (Num 50) world50 eq_refl).
Defined.

Lemma psTree_ok env w :
  listingOk env = true ->
  psTree env w
  = (Returned
       (parsePsOutput
          (stdoutBuf (execFile env (fst (listingCommand env)) (snd (listingCommand env))))),
     emit (ExecFile (fst (listingCommand env)) (snd (listingCommand env))) w).
Proof.
  intros Hok. rewrite psTree_listing.
  destruct (checkOutput_cases env (fst (listingCommand env)) (snd (listingCommand env)) w)
    as [r [Hr ->]].
  pose proof (proj1 (listingOk_exitCode env w r Hr) Hok) as E.
  destruct (asyncExecute_contract_aux env (fst (listingCommand env)) (snd (listingCommand env)) w)
    as [r' [Hr' Hout]].
  rewrite Hr in Hr'. injection Hr' as <-.
  rewrite E. cbn [fst]. cbn zeta. rewrite Hout. reflexivity.
Qed.

(** X4: on any platform, when the listing command exits with code 0,
    [getChildrenOfProcess] resolves to the records of its parsed output
    whose parent id is strictly equal to the id asked for; asked for
    not-a-number, it resolves to the empty list.  On Windows the command is
    [wmic.exe PROCESS GET ParentProcessId,ProcessId,Name]. *)
Theorem getChildrenOfProcess_any_platform env w :
  listingOk env = true ->
  let table :=
    parsePsOutput
      (stdoutBuf (execFile env (fst (listingCommand env)) (snd (listingCommand env)))) in
  (forall processId,
      fst (getChildrenOfProcess env (Num processId) w)
      = Returned (filter (isChildOf processId) table))
  /\ fst (getChildrenOfProcess env NaN w) = Returned []
  /\ (startsWithWin (platform env) = true ->
      snd (getChildrenOfProcess env NaN w) = emit (ExecFile "wmic.exe" wmicArgs) w).
Proof.
  intros Hok table.
  pose proof (psTree_ok env w Hok) as Hps. fold table in Hps.
  split; [|split].
  - intros processId.
    rewrite (KillFacts.getChildren_of_psTree _ _ _ _ _ Hps). reflexivity.
  - unfold getChildrenOfProcess, bind. rewrite Hps. unfold ret. cbn [fst].
    f_equal. clear Hps. clearbody table. induction table as [|x r IH]; [reflexivity|].
    cbn [filter]. replace (strictEq (parentPid x) NaN) with false; [exact IH|].
    destruct (parentPid x); reflexivity.
  - intros Hwin. unfold getChildrenOfProcess, bind. rewrite Hps. cbn [snd].
    unfold listingCommand. rewrite Hwin. reflexivity.
Qed.

Lemma getChildrenOfProcess_any_platform_witness :
  fst (getChildrenOfProcess (posix sampleTable) NaN world50) = Returned [].
Proof.
  exact (proj1 (proj2 (getChildrenOfProcess_any_platform (posix sampleTable) world50 eq_refl))).
Defined.

End RunFacts.

(* ================================================================== *)
(** ** The kill operation: what it leaves alone, and how it fails *)
(* ================================================================== *)

Module KillMoreFacts.
Import JS Eff Ps Run Kill Table Vocabulary Samples Frame.

Lemma respects_ret {A : Type} h (a : A) : respects h (ret a).
Proof.
  intros w. cbn. repeat split; auto. exists []. rewrite app_nil_r. reflexivity.
Qed.

Lemma respects_throw {A : Type} h e : respects h (@throw A e).
Proof.
  intros w. cbn. repeat split; auto. exists []. rewrite app_nil_r. reflexivity.
Qed.

Lemma respects_step {A : Type} h (m : M A) (k : World -> World) :
  (forall w, snd (m w) = k w) ->
  (forall w, objects (k w) = objects w) ->
  (forall w, exists done, effects (k w) = effects w ++ done) ->
  respects h m.
Proof.
  intros Hm Ho He w. cbn zeta. rewrite Hm, Ho. repeat split; auto.
Qed.

Lemma respects_then h (w w1 w2 : World) :
  ((forall h', h' <> h -> objects w1 h' = objects w h')
   /\ Eff.pid (objects w1 h) = Eff.pid (objects w h)
   /\ exitCodeOf (objects w1 h) = exitCodeOf (objects w h)
   /\ (killed (objects w h) = true -> killed (objects w1 h) = true)
   /\ exists done, effects w1 = effects w ++ done) ->
  ((forall h', h' <> h -> objects w2 h' = objects w1 h')
   /\ Eff.pid (objects w2 h) = Eff.pid (objects w1 h)
   /\ exitCodeOf (objects w2 h) = exitCodeOf (objects w1 h)
   /\ (killed (objects w1 h) = true -> killed (objects w2 h) = true)
   /\ exists done, effects w2 = effects w1 ++ done) ->
  (forall h', h' <> h -> objects w2 h' = objects w h')
  /\ Eff.pid (objects w2 h) = Eff.pid (objects w h)
  /\ exitCodeOf (objects w2 h) = exitCodeOf (objects w h)
  /\ (killed (objects w h) = true -> killed (objects w2 h) = true)
  /\ exists done, effects w2 = effects w ++ done.
Proof.
  intros [A1 [B1 [C1 [D1 [d1 E1]]]]] [A2 [B2 [C2 [D2 [d2 E2]]]]].
  split; [intros h' Hh; rewrite (A2 h' Hh); apply A1, Hh|].
  split; [congruence|]. split; [congruence|]. split; [auto|].
  exists (d1 ++ d2). rewrite E2, E1, app_assoc. reflexivity.
Qed.

Lemma respects_bind {A B : Type} h (m : M A) (k : A -> M B) :
  respects h m -> (forall a, respects h (k a)) -> respects h (bind m k).
Proof.
  intros Hm Hk w. cbn zeta. unfold bind. specialize (Hm w). cbn zeta in Hm.
  destruct (m w) as [[a|e] w1]; cbn [snd] in *; [|exact Hm].
  apply (respects_then h w w1); [exact Hm | apply (Hk a w1)].
Qed.

Lemma respects_thenDo {A : Type} h (m : M A) f g :
  respects h m -> (forall a, respects h (f a)) -> (forall e, respects h (g e)) ->
  respects h (thenDo m f g).
Proof.
  intros Hm Hf Hg w. cbn zeta. unfold thenDo. specialize (Hm w). cbn zeta in Hm.
  destruct (m w) as [[a|e] w1]; cbn [snd] in *;
    apply (respects_then h w w1); try exact Hm; [apply (Hf a w1) | apply (Hg e w1)].
Qed.

Lemma respects_forOf {A : Type} h (xs : list A) body :
  (forall x, respects h (body x)) -> respects h (forOf xs body).
Proof.
  intros Hb. induction xs as [|x rest IH]; cbn [forOf].
  - apply respects_ret.
  - apply respects_bind; [apply Hb | intros _; exact IH].
Qed.

Lemma respects_emit {A : Type} h (m : M A) e :
  (forall w, snd (m w) = emit e w) -> respects h m.
Proof.
  intros Hm. apply (respects_step h m (emit e) Hm); intros w.
  - reflexivity.
  - exists [e]. reflexivity.
Qed.

Lemma respects_log h msg : respects h (log msg).
Proof. apply (respects_emit h _ (ConsoleLog msg)). reflexivity. Qed.

Lemma respects_logError h msg e : respects h (logError msg e).
Proof. apply (respects_emit h _ (ConsoleError msg e)). reflexivity. Qed.

Lemma respects_getObject h h' : respects h (getObject h').
Proof.
  intros w. cbn. repeat split; auto. exists []. rewrite app_nil_r. reflexivity.
Qed.

Lemma respects_sysKill h env p s : respects h (sysKill env p s).
Proof.
  apply (respects_emit h _ (ProcessKill p s)). intros w. unfold sysKill.
  destruct p as [|z|b]; [reflexivity| |reflexivity]. destruct (processKill env z s); reflexivity.
Qed.

Lemma respects_asyncExecute h env c a : respects h (asyncExecute env c a).
Proof.
  apply (respects_emit h _ (ExecFile c a)). intros w. unfold asyncExecute.
  destruct (err (execFile env c a)) as [e|]; [destruct (code e)|]; reflexivity.
Qed.

Lemma respects_checkOutput h env c a : respects h (checkOutput env c a).
Proof.
  apply respects_bind; [apply respects_asyncExecute|].
  intros r. destruct (exitCode r) as [[| |]|];
    first [apply respects_ret | apply respects_throw].
Qed.

Lemma respects_getChildrenOfProcess h env n : respects h (getChildrenOfProcess env n).
Proof.
  apply respects_bind; [|intros; apply respects_ret].
  unfold psTree. apply respects_bind; [|intros; apply respects_ret].
  destruct (startsWithWin (platform env)); apply respects_checkOutput.
Qed.

Lemma respects_killWindowsProcessTree h env pid :
  respects h (killWindowsProcessTree env pid).
Proof.
  apply (respects_emit h _ (Exec (taskkill pid))). intros w.
  rewrite FlagFacts.killWindowsProcessTree_settles. reflexivity.
Qed.

Lemma respects_childKill h env : respects h (childKill env h).
Proof.
  intros w. cbn zeta. unfold childKill.
  destruct (handleKill env _); cbn [snd update emit objects effects].
  - split.
    { intros h' Hh. apply Nat.eqb_neq in Hh. rewrite Hh. reflexivity. }
    rewrite Nat.eqb_refl. cbn. repeat split. exists [HandleKill h]. reflexivity.
  - repeat split; auto. exists [HandleKill h]. reflexivity.
  - repeat split; auto. exists [HandleKill h]. reflexivity.
Qed.

Lemma respects_setWasKilled h : respects h (setWasKilled h).
Proof.
  intros w. cbn zeta. unfold setWasKilled. cbn [snd update objects effects].
  split.
  { intros h' Hh. apply Nat.eqb_neq in Hh. rewrite Hh. reflexivity. }
  rewrite Nat.eqb_refl. cbn. repeat split; auto.
  exists []. rewrite app_nil_r. reflexivity.
Qed.

Lemma respects_killProcess h env killTree : respects h (killProcess env h killTree).
Proof.
  unfold killProcess.
  apply respects_bind; [apply respects_getObject | intros o].
  apply respects_bind; [apply respects_log | intros _].
  apply respects_thenDo.
  - unfold _killProcess. apply respects_bind; [apply respects_setWasKilled | intros _].
    destruct killTree; cbn [negb].
    + apply respects_bind; [apply respects_getObject | intros o'].
      destruct (startsWithWin (platform env)).
      * apply respects_killWindowsProcessTree.
      * unfold killUnixProcessTree.
        apply respects_bind; [apply respects_getObject | intros o''].
        apply respects_bind; [apply respects_getChildrenOfProcess | intros children].
        apply respects_bind; [apply respects_forOf; intros; apply respects_sysKill | intros _].
        apply respects_bind; [apply respects_childKill | intros; apply respects_ret].
    + apply respects_bind; [apply respects_childKill | intros; apply respects_ret].
  - intros; apply respects_ret.
  - intros e. apply respects_bind; [apply respects_getObject | intros; apply respects_logError].
Qed.

(** X5: in every mode and on every platform, the kill operation touches
    no child-process object but the one it is given, keeps the process id
    and the exit code of that one, never clears its [killed] flag, and only
    adds to the effects performed before. *)
Theorem killProcess_frame env h killTree w :
  let w' := snd (killProcess env h killTree w) in
  (forall h', h' <> h -> objects w' h' = objects w h')
  /\ Eff.pid (objects w' h) = Eff.pid (objects w h)
  /\ exitCodeOf (objects w' h) = exitCodeOf (objects w h)
  /\ (killed (objects w h) = true -> killed (objects w' h) = true)
  /\ exists done, effects w' = effects w ++ done.
Proof. exact (respects_killProcess h env killTree w). Qed.

Lemma killProcess_frame_witness :
  objects (snd (killProcess (posix sampleTable) 0 true world50)) 1 = objects world50 1.
Proof.
  apply (proj1 (killProcess_frame (posix sampleTable) 0 true world50)).
  discriminate.
Defined.

(** X6: without the tree flag the kill operation logs the request,
    calls [kill()] on the handle once, and does nothing else but log the
    error when [kill()] throws: it neither lists the processes nor calls
    [process.kill]. *)
Theorem killProcess_direct env h w :
  let w' := snd (killProcess env h false w) in
  let target := Eff.pid (objects w h) in
  (exists tail,
      effects w'
      = effects w
        ++ [ConsoleLog ("Ending process stream. Killing process " ++ showZ target)%string;
            HandleKill h]
        ++ tail
      /\ forallb isConsoleError tail = true
      /\ (tail = [] <-> forall e, handleKill env target <> Threw e))
  /\ forallb (fun e => negb (isProcessKill e)) (effects w')
     = forallb (fun e => negb (isProcessKill e)) (effects w).
Proof.
  cbn zeta.
  unfold killProcess, bind, getObject, log, thenDo, _killProcess, bind,
    setWasKilled, childKill, ret, logError.
  cbn [negb emit update objects effects snd Eff.pid].
  rewrite Nat.eqb_refl. cbn [Eff.pid].
  destruct (handleKill env (Eff.pid (objects w h))) as [| |e] eqn:Ek;
    cbn [snd effects emit update objects]; rewrite ?Nat.eqb_refl; cbn [killed].
  - split; [|rewrite !forallb_app; cbn; rewrite !andb_true_r; reflexivity].
    exists []. rewrite <- !app_assoc. cbn [app].
    repeat split; try reflexivity; intros; discriminate.
  - split; [|rewrite !forallb_app; cbn; rewrite !andb_true_r; reflexivity].
    exists []. rewrite <- !app_assoc. cbn [app].
    repeat split; try reflexivity; intros; discriminate.
  - split; [|rewrite !forallb_app; cbn; rewrite !andb_true_r; reflexivity].
    eexists [_]. rewrite <- !app_assoc. cbn [app].
    split; [reflexivity|]. split; [reflexivity|].
    split; [discriminate|]. intros H. exfalso. apply (H e). reflexivity.
Qed.

End KillMoreFacts.

(* ================================================================== *)
(** ** The tree kill: failures of the listing and of a signal *)
(* ================================================================== *)

Module TreeKillFacts.
Import JS Eff Ps Run Kill Table Vocabulary Samples Frame.

Lemma killProcess_unfold env h killTree w :
  let w1 := emit (ConsoleLog ("Ending process stream. Killing process "
                              ++ showZ (Eff.pid (objects w h)))%string) w in
  killProcess env h killTree w
  = (Returned tt,
     match _killProcess env h killTree w1 with
     | (Returned _, w2) => w2
     | (Thrown e, w2) =>
         emit (ConsoleError ("Killing process " ++ showZ (Eff.pid (objects w2 h))
                             ++ " failed")%string e) w2
     end).
Proof.
  cbn zeta. unfold killProcess, bind, getObject, log, thenDo.
  destruct (_killProcess env h killTree _) as [[a|e] w2]; reflexivity.
Qed.

Lemma _killProcess_tree_unfold env h w :
  let w1 := update h (fun o => {| Eff.pid := Eff.pid o; exitCodeOf := exitCodeOf o;
                                  killed := killed o; wasKilled := true |}) w in
  _killProcess env h true w
  = if startsWithWin (platform env)
    then killWindowsProcessTree env (Eff.pid (objects w h)) w1
    else killUnixProcessTree env h w1.
Proof.
  cbn zeta. unfold _killProcess, bind, setWasKilled, getObject. cbn [negb].
  cbn [update objects]. rewrite Nat.eqb_refl. cbn [Eff.pid].
  destruct (startsWithWin (platform env)); reflexivity.
Qed.

Lemma killUnixProcessTree_unfold env h w :
  killUnixProcessTree env h w
  = match getChildrenOfProcess env (Num (Eff.pid (objects w h))) w with
    | (Returned children, w1) =>
        match forOf children (fun child => sysKill env (Ps.pid child) "SIGTERM") w1 with
        | (Returned _, w2) =>
            match childKill env h w2 with
            | (Returned _, w3) => (Returned tt, w3)
            | (Thrown e, w3) => (Thrown e, w3)
            end
        | (Thrown e, w2) => (Thrown e, w2)
        end
    | (Thrown e, w1) => (Thrown e, w1)
    end.
Proof.
  unfold killUnixProcessTree, bind, getObject, ret.
  destruct (getChildrenOfProcess env _ w) as [[children|e] w1]; [|reflexivity].
  destruct (forOf children _ w1) as [[[]|e] w2]; [|reflexivity].
  destruct (childKill env h w2) as [[b|e] w3]; reflexivity.
Qed.

Lemma tree_kill_posix env h w :
  startsWithWin (platform env) = false ->
  exists w1,
    _killProcess env h true
      (emit (ConsoleLog ("Ending process stream. Killing process "
                         ++ showZ (Eff.pid (objects w h)))%string) w)
    = killUnixProcessTree env h w1
    /\ Eff.pid (objects w1 h) = Eff.pid (objects w h)
    /\ killed (objects w1 h) = killed (objects w h)
    /\ effects w1
       = effects w ++ [ConsoleLog ("Ending process stream. Killing process "
                                   ++ showZ (Eff.pid (objects w h)))%string].
Proof.
  intros Hp. rewrite _killProcess_tree_unfold. cbn zeta. rewrite Hp.
  eexists. split; [reflexivity|].
  cbn [update objects emit effects]. rewrite Nat.eqb_refl. repeat split.
Qed.

(** X7: in tree mode on a platform other than Windows, when the process
    listing fails, the kill operation signals nothing at all, not even
    the target: it logs the request, runs [ps], and logs the failure. *)
Theorem killProcess_tree_listing_fails env h w :
  startsWithWin (platform env) = false ->
  listingOk env = false ->
  let target := Eff.pid (objects w h) in
  exists r,
    effects (snd (killProcess env h true w))
    = effects w
      ++ [ConsoleLog ("Ending process stream. Killing process " ++ showZ target)%string;
          ExecFile "ps" psArgs;
          ConsoleError ("Killing process " ++ showZ target ++ " failed")%string
                       (CheckOutputError "ps" r)]
    /\ exitCode r <> Some 0%Z
    /\ handleKills h (effects (snd (killProcess env h true w))) = handleKills h (effects w)
    /\ killed (objects (snd (killProcess env h true w)) h) = killed (objects w h).
Proof.
  intros Hp Hbad target.
  rewrite killProcess_unfold. cbn zeta. cbn [snd].
  destruct (tree_kill_posix env h w Hp) as [w1 [-> [Hpid [Hk He]]]].
  rewrite killUnixProcessTree_unfold.
  destruct (RunFacts.getChildren_listing_fails env (Num (Eff.pid (objects w1 h))) w1 Hbad)
    as [r [Hr Hne]].
  rewrite Hr. unfold listingCommand. rewrite Hp. cbn [fst snd].
  exists r. cbn [emit effects objects]. rewrite Hpid, Hk, He. fold target.
  split; [rewrite <- !app_assoc; reflexivity|].
  split; [exact Hne|]. split; [|reflexivity].
  rewrite <- !app_assoc. rewrite FlagFacts.handleKills_app.
  unfold handleKills at 2. cbn. lia.
Qed.

Lemma killProcess_tree_listing_fails_witness :
  handleKills 0
    (effects (snd (killProcess
       (mkEnv "linux" (fun _ => None)
          (fun _ _ => mkExecFileResult (Some (mkExecFileError OtherCode (Some "ENOENT") "spawn ps ENOENT")) "" "")
          (fun _ _ => None) (fun _ => Delivered)) 0 true world50)))
  = handleKills 0 (effects world50).
Proof.
  destruct (killProcess_tree_listing_fails
       (mkEnv "linux" (fun _ => None)
          (fun _ _ => mkExecFileResult (Some (mkExecFileError OtherCode (Some "ENOENT") "spawn ps ENOENT")) "" "")
          (fun _ _ => None) (fun _ => Delivered)) 0 world50 eq_refl eq_refl)
    as [r [_ [_ [H _]]]].
  exact H.
Defined.

(** Signalling stops at the first child for which [process.kill]
    throws. *)
Lemma forOf_signals_abort env pre c post w :
  forallb (canSignal env) pre = true ->
  canSignal env c = false ->
  exists e,
    forOf (pre ++ c :: post) (fun child => sysKill env (Ps.pid child) "SIGTERM") w
    = (Thrown e,
       {| objects := objects w;
          effects := effects w ++ map signalOf (pre ++ [c]) |}).
Proof.
  revert w. induction pre as [|x rest IH]; intros w Hall Hc.
  - cbn [app forOf map]. unfold bind, sysKill. unfold canSignal in Hc.
    unfold signalOf.
    destruct (Ps.pid c) as [|z|b].
    + eexists. reflexivity.
    + destruct (processKill env z "SIGTERM") as [e|]; [|discriminate].
      exists e. reflexivity.
    + eexists. reflexivity.
  - cbn [forallb] in Hall. apply andb_prop in Hall as [Hx Hrest].
    cbn [app forOf map]. unfold bind at 1. unfold sysKill at 1.
    unfold canSignal in Hx. unfold signalOf at 1.
    destruct (Ps.pid x) as [|z|b]; [discriminate| |discriminate].
    destruct (processKill env z "SIGTERM"); [discriminate|].
    destruct (IH (emit (ProcessKill (Num z) "SIGTERM") w) Hrest Hc) as [e He].
    exists e. rewrite He. cbn [emit objects effects].
    rewrite <- app_assoc. reflexivity.
Qed.

(** X8: in tree mode on a platform other than Windows, when
    [process.kill] throws for a child, the children listed before it and
    that child are the only processes signalled: the children after it
    and the target itself are left alone, and the failure is logged. *)
Theorem killProcess_tree_child_fails env h w pre c post :
  startsWithWin (platform env) = false ->
  listingOk env = true ->
  let target := Eff.pid (objects w h) in
  filter (isChildOf target) (parsePsOutput (stdoutBuf (execFile env "ps" psArgs)))
  = pre ++ c :: post ->
  forallb (canSignal env) pre = true ->
  canSignal env c = false ->
  exists e,
    effects (snd (killProcess env h true w))
    = effects w
      ++ [ConsoleLog ("Ending process stream. Killing process " ++ showZ target)%string;
          ExecFile "ps" psArgs]
      ++ map signalOf (pre ++ [c])
      ++ [ConsoleError ("Killing process " ++ showZ target ++ " failed")%string e]
    /\ handleKills h (effects (snd (killProcess env h true w))) = handleKills h (effects w).
Proof.
  intros Hp Hok target Hch Hpre Hc.
  rewrite killProcess_unfold. cbn zeta. cbn [snd].
  destruct (tree_kill_posix env h w Hp) as [w1 [-> [Hpid [Hk Hw1]]]].
  rewrite killUnixProcessTree_unfold.
  rewrite (KillFacts.getChildren_of_psTree env _ w1 _ _ (RunFacts.psTree_ok env w1 Hok)).
  unfold listingCommand. rewrite Hp. cbn [fst snd].
  rewrite Hpid. fold target. rewrite Hch.
  match goal with
  | |- context [forOf _ _ ?w0] =>
      destruct (forOf_signals_abort env pre c post w0 Hpre Hc) as [e He]
  end.
  rewrite He. exists e. cbn [emit effects objects].
  rewrite Hpid, Hw1. fold target.
  split; [rewrite <- !app_assoc; reflexivity|].
  rewrite <- !app_assoc. rewrite !FlagFacts.handleKills_app.
  assert (Hs : forall l, handleKills h (map signalOf l) = 0).
  { intros l. induction l as [|y r IH]; [reflexivity | exact IH]. }
  rewrite Hs. unfold handleKills. cbn. lia.
Qed.

Lemma killProcess_tree_child_fails_witness :
  exists e,
    effects (snd (killProcess
       (mkEnv "linux" (fun _ => None)
          (fun _ _ => mkExecFileResult None sampleTable "")
          (fun z _ => if Z.eqb z 51 then Some (Os "ESRCH") else None)
          (fun _ => Delivered)) 0 true world50))
    = [ConsoleLog "Ending process stream. Killing process 50";
       ExecFile "ps" psArgs; ProcessKill (Num 51) "SIGTERM";
       ConsoleError "Killing process 50 failed" e].
Proof.
  destruct (killProcess_tree_child_fails
       (mkEnv "linux" (fun _ => None)
          (fun _ _ => mkExecFileResult None sampleTable "")
          (fun z _ => if Z.eqb z 51 then Some (Os "ESRCH") else None)
          (fun _ => Delivered)) 0 world50
       [] (mkProcessInfo "b" (Num 50) (Num 51)) [mkProcessInfo "c" (Num 50) (Num 52)]
       eq_refl eq_refl eq_refl eq_refl eq_refl) as [e [He _]].
  exists e. exact He.
Defined.

(** X9: in tree mode on Windows the kill operation logs the request and
    runs the one command [taskkill /pid <pid> /T /F] for the id of the
    handle; it neither lists processes nor calls [kill()] or
    [process.kill], and the [killed] flag of the handle stays as it was.
    The callback of [exec] rejects when the error is null: the failure
    [Killing process <pid> failed] is logged, with null as its error,
    exactly when [taskkill] reports no error, and nothing more is logged
    when [taskkill] reports one. *)
Theorem killProcess_windows_tree_effects env h w :
  startsWithWin (platform env) = true ->
  let target := Eff.pid (objects w h) in
  let w' := snd (killProcess env h true w) in
  let cmd := ("taskkill /pid " ++ showZ target ++ " /T /F")%string in
  effects w'
  = effects w
    ++ [ConsoleLog ("Ending process stream. Killing process " ++ showZ target)%string;
        Exec cmd]
    ++ match exec env cmd with
       | None => [ConsoleError ("Killing process " ++ showZ target ++ " failed")%string Null]
       | Some _ => []
       end
  /\ handleKills h (effects w') = handleKills h (effects w)
  /\ forallb (fun e => negb (isProcessKill e)) (effects w')
     = forallb (fun e => negb (isProcessKill e)) (effects w)
  /\ killed (objects w' h) = killed (objects w h).
Proof.
  intros Hp target w' cmd. unfold w', cmd.
  rewrite killProcess_unfold. cbn zeta. cbn [snd].
  rewrite _killProcess_tree_unfold. cbn zeta. rewrite Hp.
  rewrite FlagFacts.killWindowsProcessTree_settles.
  cbn [emit update objects effects]. fold target. unfold taskkill.
  destruct (exec env _) as [e|]; cbn [emit update objects effects];
    rewrite ?Nat.eqb_refl; cbn [killed Eff.pid]; fold target.
  - split; [rewrite <- !app_assoc; reflexivity|].
    split; [|split; [|reflexivity]].
    + rewrite <- !app_assoc, FlagFacts.handleKills_app. unfold handleKills at 2. cbn. lia.
    + rewrite !forallb_app. cbn. rewrite !andb_true_r. reflexivity.
  - split; [rewrite <- !app_assoc; reflexivity|].
    split; [|split; [|reflexivity]].
    + rewrite <- !app_assoc, FlagFacts.handleKills_app. unfold handleKills at 2. cbn. lia.
    + rewrite !forallb_app. cbn. rewrite !andb_true_r. reflexivity.
Qed.

Lemma killProcess_windows_tree_effects_witness :
  effects (snd (killProcess windowsOk 0 true world50))
  = [ConsoleLog "Ending process stream. Killing process 50";
     Exec "taskkill /pid 50 /T /F";
     ConsoleError "Killing process 50 failed" Null]
  /\ effects (snd (killProcess windowsFailing 0 true world50))
     = [ConsoleLog "Ending process stream. Killing process 50";
        Exec "taskkill /pid 50 /T /F"].
Proof.
  split.
  - exact (proj1 (killProcess_windows_tree_effects windowsOk 0 world50 eq_refl)).
  - exact (proj1 (killProcess_windows_tree_effects windowsFailing 0 world50 eq_refl)).
Defined.

End TreeKillFacts.

(* ================================================================== *)
(** ** The process stream and the observers built on it *)
(* ================================================================== *)

Module StreamFacts.
Import JS Eff Rx Proc Vocabulary Samples Streams RxFacts ProcFacts MuxFacts.

Lemma firstSignal_fromEvent {A : Type} (l : list (nat * A)) :
  firstSignal (fromEvent l 0)
  = match l with
    | x :: _ => Some (fst x, Completed)
    | [] => None
    end.
Proof.
  unfold firstSignal, fromEvent. cbn [items ending]. rewrite since_0.
  destruct l as [|[t a] r]; reflexivity.
Qed.

Lemma fresh_stream_unfold createProcess throwOnError k :
  isFresh (createProcess tt) = true ->
  _createProcessStream createProcess throwOnError k
  = takeUntil
      (takeUntil (merge (of_ (createProcess tt)) never)
         (if throwOnError then flatMap (fromEvent (errorEvents (createProcess tt))) throw_
          else fromEvent (errorEvents (createProcess tt))))
      (observeProcessExitMessage (createProcess tt)).
Proof.
  intros Hf. unfold _createProcessStream, defer. rewrite Hf. reflexivity.
Qed.

Lemma firstSignal_exit p :
  firstSignal (observeProcessExitMessage p 0)
  = match firstExit (exitEvents p) with
    | Some x => Some (fst x, Completed)
    | None => None
    end.
Proof.
  rewrite observeProcessExitMessage_trace, since_0.
  destruct (firstExit (exitEvents p)) as [[u m]|]; reflexivity.
Qed.

Lemma process_only (p : Process) : merge (of_ p) never 0 = mkTrace [(0, p)] None.
Proof. reflexivity. Qed.

(** The end of the stream of a fresh process, without [throwOnError]. *)
Lemma quiet_stream_ending createProcess k :
  isFresh (createProcess tt) = true ->
  ending (_createProcessStream createProcess false k 0)
  = match errorEvents (createProcess tt), firstExit (exitEvents (createProcess tt)) with
    | [], None => None
    | x :: _, None => Some (fst x, Completed)
    | [], Some y => Some (fst y, Completed)
    | x :: _, Some y => Some (Nat.min (fst x) (fst y), Completed)
    end.
Proof.
  intros Hf. rewrite (fresh_stream_unfold _ _ _ Hf).
  set (p := createProcess tt).
  unfold takeUntil. rewrite firstSignal_exit, firstSignal_fromEvent, process_only.
  cbn [items ending].
  destruct (errorEvents p) as [|[te e] r], (firstExit (exitEvents p)) as [[u m]|];
    cbn [items ending fst]; try reflexivity.
  destruct (te <=? u)%nat eqn:L; cbn [ending].
  - apply Nat.leb_le in L. rewrite Nat.min_l by exact L. reflexivity.
  - apply Nat.leb_gt in L. rewrite Nat.min_r by lia. reflexivity.
Qed.

(** X10: the stream of a fresh process delivers the process when it is
    subscribed and, without [throwOnError], never fails: it stays open
    while the process neither exits nor dispatches an error, and completes
    at the first error event or at the first exit whose signal is not
    SIGUSR1, whichever comes first. *)
Theorem processStream_completes createProcess k :
  isFresh (createProcess tt) = true ->
  _createProcessStream createProcess false k 0
  = mkTrace [(0, createProcess tt)]
      (match errorEvents (createProcess tt), firstExit (exitEvents (createProcess tt)) with
       | [], None => None
       | x :: _, None => Some (fst x, Completed)
       | [], Some y => Some (fst y, Completed)
       | x :: _, Some y => Some (Nat.min (fst x) (fst y), Completed)
       end).
Proof.
  intros Hf.
  pose proof (processStream_items createProcess false k 0 Hf) as Hi.
  pose proof (quiet_stream_ending createProcess k Hf) as He.
  destruct (_createProcessStream createProcess false k 0) as [i e].
  cbn [items ending] in *. subst i. rewrite He. reflexivity.
Qed.

Lemma processStream_completes_witness :
  _createProcessStream (fun _ => exiting) false true 0
  = mkTrace [(0, exiting)] (Some (10, Completed)).
Proof.
  exact (processStream_completes (fun _ => exiting) true eq_refl).
Defined.

(** The failure that [errors.flatMap(Observable.throw)] signals: the
    first error event, when no later one carries an earlier time. *)
Lemma flatMap_throw_first {B : Type} te (e : Exn) (rest : list (nat * Exn)) :
  Forall (fun x => te <= fst x) rest ->
  flatMap (fromEvent ((te, e) :: rest)) (@throw_ B) 0
  = mkTrace [] (Some (te, Errored e)).
Proof.
  intros Hs. unfold flatMap, fromEvent. cbn [items ending]. rewrite since_0.
  cbn [fold_right fst snd].
  destruct (flatMap_throw_trace (B := B) te rest Hs) as [Hi He].
  cbn zeta in Hi, He.
  set (acc := fold_right _ _ rest) in *.
  unfold mergeT, throw_. cbn [items ending]. rewrite Hi. cbn [mergeItems].
  destruct He as [-> | [u [e' [-> Hu]]]]; [reflexivity|].
  apply Nat.leb_le in Hu. rewrite Hu. reflexivity.
Qed.

Lemma flatMap_throw_late {B : Type} b (l : list (nat * Exn)) :
  Forall (fun x => b <= fst x) l ->
  firstSignal (flatMap (fromEvent l) (@throw_ B) 0) = None
  \/ exists t' e', firstSignal (flatMap (fromEvent l) (@throw_ B) 0) = Some (t', Errored e')
                   /\ b <= t'.
Proof.
  intros Hs. unfold flatMap, fromEvent. cbn [items ending]. rewrite since_0.
  destruct (flatMap_throw_trace (B := B) b l Hs) as [Hi He]. cbn zeta in Hi, He.
  unfold firstSignal. rewrite Hi.
  destruct He as [-> | [t' [e' [-> Ht']]]]; [left; reflexivity|].
  right. exists t', e'. split; [reflexivity | exact Ht'].
Qed.

(** X11: with [throwOnError], the stream of a fresh process fails with
    the first error event when no exit that counts comes before it, and
    completes at the first exit that counts when every error event comes
    later; in both cases the process has been delivered. *)
Theorem createProcessStream_fails_on_error createProcess k :
  isFresh (createProcess tt) = true ->
  (forall te e rest,
      errorEvents (createProcess tt) = (te, e) :: rest ->
      Forall (fun x => te <= fst x) rest ->
      match firstExit (exitEvents (createProcess tt)) with
      | Some y => te <= fst y
      | None => True
      end ->
      createProcessStream createProcess k 0
      = mkTrace [(0, createProcess tt)] (Some (te, Errored e)))
  /\ (forall y,
        firstExit (exitEvents (createProcess tt)) = Some y ->
        Forall (fun x => fst y < fst x) (errorEvents (createProcess tt)) ->
        createProcessStream createProcess k 0
        = mkTrace [(0, createProcess tt)] (Some (fst y, Completed))).
Proof.
  intros Hf. unfold createProcessStream.
  pose proof (processStream_items createProcess true k 0 Hf) as Hi.
  set (p := createProcess tt) in *.
  assert (Hend : forall e0,
             ending (_createProcessStream createProcess true k 0) = e0 ->
             _createProcessStream createProcess true k 0 = mkTrace [(0, p)] e0).
  { intros e0 He. destruct (_createProcessStream createProcess true k 0) as [i e1].
    cbn [items ending] in *. subst. reflexivity. }
  split.
  - intros te e rest Herr Hs Hex. apply Hend.
    rewrite (fresh_stream_unfold _ _ _ Hf). fold p.
    unfold takeUntil. rewrite firstSignal_exit, Herr, (flatMap_throw_first te e rest Hs).
    unfold firstSignal at 1. cbn [items ending]. rewrite process_only. cbn [items ending].
    destruct (firstExit (exitEvents p)) as [[u m]|]; cbn [fst] in *; [|reflexivity].
    apply Nat.leb_le in Hex. rewrite Hex. reflexivity.
  - intros [u m] Hex Hs. apply Hend.
    rewrite (fresh_stream_unfold _ _ _ Hf). fold p.
    unfold takeUntil. rewrite firstSignal_exit, Hex. cbn [fst].
    destruct (flatMap_throw_late (B := Exn) (S u) (errorEvents p) Hs)
      as [-> | [t' [e' [-> Ht']]]]; rewrite process_only; cbn [items ending].
    + reflexivity.
    + assert (L : (t' <=? u)%nat = false) by (apply Nat.leb_gt; lia).
      rewrite L. reflexivity.
Qed.

Lemma createProcessStream_fails_on_error_witness :
  createProcessStream (fun _ => failing) false 0
  = mkTrace [(0, failing)] (Some (8, Errored (Os "ENOENT"))).
Proof.
  exact (proj1 (createProcessStream_fails_on_error (fun _ => failing) false eq_refl)
           8 (Os "ENOENT") [] eq_refl (Forall_nil _) I).
Defined.

Lemma stale_stream createProcess throwOnError k t :
  isFresh (createProcess tt) = false ->
  _createProcessStream createProcess throwOnError k t
  = mkTrace [] (Some (t, Errored alreadyExited)).
Proof.
  intros Hf. unfold _createProcessStream, defer. rewrite Hf. reflexivity.
Qed.

(** X12: for a fresh process [observeProcessExit] delivers the first exit
    whose signal is not SIGUSR1 and completes, whether or not error events
    are dispatched before it, and delivers nothing while there is none;
    for a process that has exited or been killed it fails at once with the
    assertion error. *)
Theorem observeProcessExit_delivers createProcess k :
  (isFresh (createProcess tt) = true ->
   observeProcessExit createProcess k 0
   = match firstExit (exitEvents (createProcess tt)) with
     | Some x => mkTrace [x] (Some (fst x, Completed))
     | None => mkTrace [] None
     end)
  /\ (isFresh (createProcess tt) = false ->
      observeProcessExit createProcess k 0 = mkTrace [] (Some (0, Errored alreadyExited))).
Proof.
  split; intros Hf.
  - rewrite (observeProcessExit_fresh createProcess k 0 Hf).
    rewrite observeProcessExitMessage_trace, since_0. reflexivity.
  - unfold observeProcessExit, flatMap. rewrite (stale_stream _ _ _ _ Hf). reflexivity.
Qed.

Lemma observeProcessExit_delivers_witness :
  observeProcessExit (fun _ => exiting) false 0
  = mkTrace [(10, {| exitCode := Some 0%Z; signal := None |})] (Some (10, Completed))
  /\ observeProcessExit (fun _ => stale) false 0
     = mkTrace [] (Some (0, Errored alreadyExited)).
Proof.
  split.
  - exact (proj1 (observeProcessExit_delivers (fun _ => exiting) false) eq_refl).
  - exact (proj2 (observeProcessExit_delivers (fun _ => stale) false) eq_refl).
Defined.

End StreamFacts.

(* ================================================================== *)
(** ** What the output multiplexer delivers *)
(* ================================================================== *)

Module DeliveryFacts.
Import JS Eff Rx Proc Vocabulary Samples Streams RxFacts ProcFacts MuxFacts.

Lemma gated_ending_exit p k raw x :
  isFresh p = true -> firstExit (exitEvents p) = Some x ->
  ending (gated p k raw 0) = Some (gateEnd (fst x) raw, Completed).
Proof.
  intros Hf Hx. rewrite (gated_trace p k raw Hf), Hx. unfold gateEnd.
  destruct (closed raw) as [c|]; [destruct (c <=? _)%nat|]; reflexivity.
Qed.

Lemma gated_ending_none p k raw :
  isFresh p = true -> firstExit (exitEvents p) = None ->
  ending (gated p k raw 0) = option_map (fun c => (c, Completed)) (closed raw).
Proof.
  intros Hf Hx. rewrite (gated_trace p k raw Hf), Hx. reflexivity.
Qed.

(** The merge that is handed to [takeWhileInclusive], for a fresh
    process. *)
Lemma outputSource_trace p k :
  isFresh p = true ->
  outputSource p k 0
  = mkTrace
      (mergeItems
         (outputLines p k
            ++ match firstExit (exitEvents p) with
               | Some x => [(exitDelivery (fst x) p, MExit (snd x))]
               | None => []
               end)
         (tagged MError (errorEvents p)))
      None.
Proof.
  intros Hf.
  set (O := map_ MStdout (splitStream (gated p k (stdout p)))).
  set (E := map_ MStderr (splitStream (gated p k (stderr p)))).
  assert (HO : ending (O 0) = ending (gated p k (stdout p) 0)).
  { unfold O, map_. cbn [ending]. apply splitStream_ending. }
  assert (HE : ending (E 0) = ending (gated p k (stderr p) 0)).
  { unfold E, map_. cbn [ending]. apply splitStream_ending. }
  assert (CO : clean (O 0)).
  { unfold clean. rewrite HO. apply (gated_clean p k _ Hf). }
  assert (CE : clean (E 0)).
  { unfold clean. rewrite HE. apply (gated_clean p k _ Hf). }
  destruct (mergeT_clean (O 0) (E 0) CO CE) as [Hmi Hme].
  assert (HL : mergeItems (items (O 0)) (items (E 0)) = outputLines p k) by reflexivity.
  assert (Hconcat :
    exists e,
      concat (merge O E) (map_ MExit (exitReplay p k)) 0
      = mkTrace
          (outputLines p k
             ++ match firstExit (exitEvents p) with
                | Some x => [(exitDelivery (fst x) p, MExit (snd x))]
                | None => []
                end) e
      /\ match e with Some (_, Errored _) => False | _ => True end).
  { unfold concat, merge. fold (O 0) (E 0).
    destruct (firstExit (exitEvents p)) as [[u m]|] eqn:Hx.
    - rewrite Hme, HO, HE.
      rewrite (gated_ending_exit p k _ _ Hf Hx), (gated_ending_exit p k _ _ Hf Hx).
      rewrite (exitTagged_trace p k _ Hf), Hx.
      cbn [items ending fst snd]. rewrite Hmi, HL.
      eexists. split; [reflexivity | exact I].
    - destruct (ending (mergeT (O 0) (E 0))) as [[te [|e]]|] eqn:Em.
      + rewrite (exitTagged_trace p k _ Hf), Hx.
        cbn [items ending]. rewrite Hmi, HL.
        exists None. split; [reflexivity | exact I].
      + exfalso. rewrite Hme in Em.
        destruct (ending (O 0)) as [[? ?]|], (ending (E 0)) as [[? ?]|]; discriminate.
      + exists None. split; [|exact I].
        destruct (mergeT (O 0) (E 0)) as [i e0]. cbn [items ending] in *.
        subst. rewrite app_nil_r. reflexivity. }
  destruct Hconcat as [e [Hc He]].
  unfold outputSource. fold O E. unfold merge at 1. rewrite Hc.
  unfold map_, fromEvent. cbn [items ending]. rewrite since_0.
  unfold mergeT. cbn [items ending].
  destruct e as [[te [|ee]]|]; try contradiction; reflexivity.
Qed.

Lemma leading_all {A : Type} t (l : list (nat * A)) : allBy t l = true -> leading t l = l.
Proof.
  unfold allBy. induction l as [|x r IH]; [reflexivity|].
  cbn [forallb leading]. intros H. apply andb_prop in H as [Hx Hr].
  rewrite Hx, (IH Hr). reflexivity.
Qed.

(** Taking through the first terminal record of a merge whose right
    operand starts with one. *)
Lemma takeThrough_merge {A : Type} (p : A -> bool) (L X : list (nat * A)) y r :
  forallb (fun a => p (snd a)) L = true ->
  p (snd y) = false ->
  takeThrough p (mergeItems (L ++ X) (y :: r))
  = (if allBy (fst y) L then L ++ takeThrough p (mergeItems X (y :: r))
     else leading (fst y) L ++ [y])
  /\ firstFailing p (mergeItems (L ++ X) (y :: r))
     = (if allBy (fst y) L then firstFailing p (mergeItems X (y :: r))
        else Some (fst y)).
Proof.
  intros HL Hy. induction L as [|a L' IH].
  - split; reflexivity.
  - cbn [forallb] in HL. apply andb_prop in HL as [Ha HL'].
    specialize (IH HL'). destruct IH as [IH1 IH2].
    cbn [app]. rewrite mergeItems_cons. unfold allBy in *. cbn [forallb leading].
    destruct (fst a <=? fst y)%nat.
    + cbn [takeThrough firstFailing andb]. rewrite Ha, IH1, IH2.
      destruct (forallb (fun x : nat * A => (fst x <=? fst y)%nat) L'); split; reflexivity.
    + cbn [takeThrough firstFailing andb]. rewrite Hy. split; reflexivity.
Qed.

Lemma outputLines_pass p k :
  forallb (fun a => notTerminal (snd a)) (outputLines p k) = true.
Proof. apply OutputFacts.notTerminal_merged. Qed.

Lemma takeThrough_pass_then {A : Type} (p : A -> bool) l x :
  forallb (fun y => p (snd y)) l = true -> p (snd x) = false ->
  takeThrough p (l ++ [x]) = l ++ [x]
  /\ firstFailing p (l ++ [x]) = Some (fst x).
Proof.
  intros H Hx. induction l as [|y r IH].
  - cbn. rewrite Hx. split; reflexivity.
  - cbn [forallb] in H. apply andb_prop in H as [Hy Hr].
    destruct (IH Hr) as [IH1 IH2].
    cbn [app takeThrough firstFailing]. rewrite Hy, IH1, IH2. split; reflexivity.
Qed.

Lemma takeThrough_pass {A : Type} (p : A -> bool) l :
  forallb (fun y => p (snd y)) l = true ->
  takeThrough p l = l /\ firstFailing p l = None.
Proof.
  intros H. induction l as [|y r IH]; [split; reflexivity|].
  cbn [forallb] in H. apply andb_prop in H as [Hy Hr].
  destruct (IH Hr) as [IH1 IH2].
  cbn [takeThrough firstFailing]. rewrite Hy, IH1, IH2. split; reflexivity.
Qed.

(** What a subscriber of [getOutputStream] sees, for a fresh process. *)
Lemma getOutputStream_outputTrace p k :
  isFresh p = true -> getOutputStream p k 0 = outputTrace p k.
Proof.
  intros Hf. rewrite getOutputStream_source. unfold takeWhileInclusive.
  rewrite (outputSource_trace p k Hf). cbn [items ending]. unfold outputTrace.
  pose proof (outputLines_pass p k) as HL.
  destruct (firstExit (exitEvents p)) as [[u m]|], (errorEvents p) as [|[te e] r];
    cbn [tagged map fst snd].
  - rewrite mergeItems_nil_r.
    destruct (takeThrough_pass_then notTerminal (outputLines p k)
                (exitDelivery u p, MExit m) HL eq_refl) as [-> ->].
    reflexivity.
  - destruct (takeThrough_merge notTerminal (outputLines p k)
                [(exitDelivery u p, MExit m)] (te, MError e)
                (map (fun x => (fst x, MError (snd x))) r) HL eq_refl) as [-> ->].
    cbn [fst]. rewrite mergeItems_cons. cbn [fst].
    destruct (allBy te (outputLines p k)) eqn:Ha; cbn [andb].
    + destruct (exitDelivery u p <=? te)%nat; cbn [takeThrough firstFailing snd fst].
      * reflexivity.
      * rewrite (leading_all _ _ Ha). reflexivity.
    + reflexivity.
  - rewrite app_nil_r, mergeItems_nil_r.
    destruct (takeThrough_pass notTerminal (outputLines p k) HL) as [-> ->].
    reflexivity.
  - destruct (takeThrough_merge notTerminal (outputLines p k) [] (te, MError e)
                (map (fun x => (fst x, MError (snd x))) r) HL eq_refl) as [-> ->].
    cbn [fst]. rewrite mergeItems_nil_l. cbn [takeThrough firstFailing snd fst].
    destruct (allBy te (outputLines p k)) eqn:Ha; [|reflexivity].
    rewrite (leading_all _ _ Ha). reflexivity.
Qed.

Lemma gateEnd_bound u raw : gateEnd u raw <= u + closeDelay.
Proof.
  unfold gateEnd. destruct (closed raw) as [c|]; [|lia].
  destruct (c <=? u + closeDelay)%nat eqn:L; [apply Nat.leb_le in L; exact L | lia].
Qed.

(** X13: for a fresh process whose error events are none, and whose
    first exit that counts is dispatched at time [u], the output ends with
    the exit message, after every line of stdout and stderr that passed
    the cut-off, and completes.  The exit message is delivered no earlier than
    [u] and no later than [u + 100]: at [u] when both byte streams have
    closed by then, at [u + 100] when one of them never closes. *)
Theorem getOutputStream_exit_delivery p k u m :
  isFresh p = true ->
  errorEvents p = [] ->
  firstExit (exitEvents p) = Some (u, m) ->
  let T := exitDelivery u p in
  getOutputStream p k 0
  = mkTrace (outputLines p k ++ [(T, MExit m)]) (Some (T, Completed))
  /\ u <= T <= u + 100
  /\ (forall c1 c2,
        closed (stdout p) = Some c1 -> closed (stderr p) = Some c2 ->
        c1 <= u -> c2 <= u -> T = u)
  /\ (closed (stdout p) = None \/ closed (stderr p) = None -> T = u + 100).
Proof.
  intros Hf He Hx T.
  split.
  { rewrite (getOutputStream_outputTrace p k Hf). unfold outputTrace.
    rewrite Hx, He. reflexivity. }
  pose proof (gateEnd_bound u (stdout p)) as B1.
  pose proof (gateEnd_bound u (stderr p)) as B2.
  change closeDelay with 100 in *.
  split; [unfold T, exitDelivery; lia|]. split.
  - intros c1 c2 H1 H2 L1 L2. unfold T, exitDelivery, gateEnd. rewrite H1, H2.
    change closeDelay with 100.
    assert (E1 : (c1 <=? u + 100)%nat = true) by (apply Nat.leb_le; lia).
    assert (E2 : (c2 <=? u + 100)%nat = true) by (apply Nat.leb_le; lia).
    rewrite E1, E2. lia.
  - assert (G : forall raw, closed raw = None -> gateEnd u raw = u + 100).
    { intros raw H. unfold gateEnd. rewrite H. reflexivity. }
    intros [H | H]; unfold T, exitDelivery; rewrite (G _ H) in *; lia.
Qed.

Lemma getOutputStream_exit_delivery_witness :
  getOutputStream exiting false 0
  = mkTrace (outputLines exiting false
               ++ [(exitDelivery 10 exiting, MExit {| exitCode := Some 0%Z; signal := None |})])
            (Some (exitDelivery 10 exiting, Completed)).
Proof.
  exact (proj1 (getOutputStream_exit_delivery exiting false 10
                  {| exitCode := Some 0%Z; signal := None |} eq_refl eq_refl eq_refl)).
Defined.

(** X14: for a fresh process, when the first error event is dispatched
    at time [te] and no exit message is due by then (no exit counts, or
    its delivery would come later), the output is the lines that precede
    the error in the merge, then the error, and it completes at [te]: the
    exit message, the later lines and the later error events are never
    delivered. *)
Theorem getOutputStream_error_cuts p k te e rest :
  isFresh p = true ->
  errorEvents p = (te, e) :: rest ->
  match firstExit (exitEvents p) with
  | Some x => te < exitDelivery (fst x) p
  | None => True
  end ->
  getOutputStream p k 0
  = mkTrace (leading te (outputLines p k) ++ [(te, MError e)]) (Some (te, Completed)).
Proof.
  intros Hf He Hx. rewrite (getOutputStream_outputTrace p k Hf). unfold outputTrace.
  rewrite He. cbn [fst snd].
  destruct (firstExit (exitEvents p)) as [[u m]|]; [|reflexivity].
  cbn [fst snd] in *.
  assert (L : (exitDelivery u p <=? te)%nat = false) by (apply Nat.leb_gt; exact Hx).
  rewrite L, andb_false_r. reflexivity.
Qed.

Lemma getOutputStream_error_cuts_witness :
  getOutputStream failing false 0
  = mkTrace (leading 8 (outputLines failing false) ++ [(8, MError (Os "ENOENT"))])
            (Some (8, Completed)).
Proof.
  exact (getOutputStream_error_cuts failing false 8 (Os "ENOENT") [] eq_refl eq_refl I).
Defined.

Lemma exitDelivery_ge u p : u <= exitDelivery u p.
Proof. unfold exitDelivery. lia. Qed.

Lemma quiet_ending createProcess k :
  isFresh (createProcess tt) = true ->
  ending (_createProcessStream createProcess false k 0)
  = match errorEvents (createProcess tt), firstExit (exitEvents (createProcess tt)) with
    | [], None => None
    | x :: _, None => Some (fst x, Completed)
    | [], Some y => Some (fst y, Completed)
    | x :: _, Some y => Some (Nat.min (fst x) (fst y), Completed)
    end.
Proof.
  intros Hf. unfold _createProcessStream, defer. rewrite Hf. cbn [negb].
  set (p := createProcess tt).
  unfold takeUntil. rewrite observeProcessExitMessage_trace, since_0.
  unfold firstSignal, fromEvent, merge, of_, never, mergeT.
  cbn [items ending mergeItems]. rewrite since_0.
  destruct (errorEvents p) as [|[te e] r], (firstExit (exitEvents p)) as [[u m]|];
    cbn [items ending fst]; try reflexivity.
  destruct (te <=? u)%nat eqn:L; cbn [ending].
  - apply Nat.leb_le in L. rewrite Nat.min_l by exact L. reflexivity.
  - apply Nat.leb_gt in L. rewrite Nat.min_r by lia. reflexivity.
Qed.

Lemma observeProcess_fresh createProcess k :
  isFresh (createProcess tt) = true ->
  observeProcess createProcess k 0 = getOutputStream (createProcess tt) false 0.
Proof.
  intros Hf.
  unfold observeProcess, flatMap.
  rewrite (processStream_items createProcess false k 0 Hf).
  rewrite (quiet_ending createProcess k Hf).
  cbn [fold_right fst snd].
  set (p := createProcess tt) in *.
  rewrite (getOutputStream_outputTrace p false Hf). unfold outputTrace.
  destruct (errorEvents p) as [|[te e] r], (firstExit (exitEvents p)) as [[u m]|];
    cbn [fst snd]; unfold mergeT; cbn [items ending]; rewrite ?mergeItems_nil_r.
  + rewrite Nat.max_l by apply exitDelivery_ge. reflexivity.
  + reflexivity.
  + destruct (allBy te (outputLines p false) && (exitDelivery u p <=? te)%nat);
      cbn [items ending]; rewrite ?mergeItems_nil_r.
    * pose proof (exitDelivery_ge u p).
      rewrite Nat.max_l by lia. reflexivity.
    * rewrite Nat.max_l by lia. reflexivity.
  + rewrite Nat.max_id. reflexivity.
Qed.

(** X15: for a fresh process [observeProcess] delivers exactly what
    [getOutputStream] delivers for that process and ends when it ends.
    The completion of the process stream does not cut the output: without
    error events the process stream completes at the first exit that
    counts, and the output runs on to the delivery of the exit message,
    which may come later.  For a process that has exited or been killed
    [observeProcess] fails at once with the assertion error. *)
Theorem observeProcess_output createProcess k :
  (isFresh (createProcess tt) = true ->
   observeProcess createProcess k 0 = getOutputStream (createProcess tt) false 0)
  /\ (forall u m,
        isFresh (createProcess tt) = true ->
        errorEvents (createProcess tt) = [] ->
        firstExit (exitEvents (createProcess tt)) = Some (u, m) ->
        ending (_createProcessStream createProcess false k 0) = Some (u, Completed)
        /\ ending (observeProcess createProcess k 0)
           = Some (exitDelivery u (createProcess tt), Completed)
        /\ u <= exitDelivery u (createProcess tt))
  /\ (isFresh (createProcess tt) = false ->
      observeProcess createProcess k 0 = mkTrace [] (Some (0, Errored alreadyExited))).
Proof.
  split; [|split].
  - intros Hf. apply observeProcess_fresh, Hf.
  - intros u m Hf He Hx.
    rewrite (quiet_ending createProcess k Hf), He, Hx.
    rewrite (observeProcess_fresh createProcess k Hf).
    rewrite (getOutputStream_outputTrace _ false Hf). unfold outputTrace.
    rewrite He, Hx. cbn [fst snd ending].
    split; [reflexivity|]. split; [reflexivity | apply exitDelivery_ge].
  - intros Hf. unfold observeProcess, flatMap.
    unfold _createProcessStream, defer. rewrite Hf. reflexivity.
Qed.

Lemma observeProcess_output_witness :
  observeProcess (fun _ => exiting) true 0 = getOutputStream exiting false 0
  /\ ending (_createProcessStream (fun _ => exiting) false true 0) = Some (10, Completed)
  /\ ending (observeProcess (fun _ => exiting) true 0) = Some (110, Completed).
Proof.
  split.
  - exact (proj1 (observeProcess_output (fun _ => exiting) true) eq_refl).
  - split.
    + exact (proj1 (proj1 (proj2 (observeProcess_output (fun _ => exiting) true))
                      10 {| exitCode := Some 0%Z; signal := None |}
                      eq_refl eq_refl eq_refl)).
    + exact (proj1 (proj2 (proj1 (proj2 (observeProcess_output (fun _ => exiting) true))
                      10 {| exitCode := Some 0%Z; signal := None |}
                      eq_refl eq_refl eq_refl))).
Defined.

End DeliveryFacts.

(* ================================================================== *)
(** ** The text of the output, and [runCommand] *)
(* ================================================================== *)

Module CommandFacts.
Import JS Eff Rx Proc Vocabulary Samples Streams Command.
Import RxFacts ProcFacts MuxFacts DeliveryFacts.

Lemma textOf_app sel l l' :
  textOf sel (l ++ l') = (textOf sel l ++ textOf sel l')%string.
Proof.
  induction l as [|x r IH]; [reflexivity|].
  cbn [app textOf]. destruct (sel (snd x)); rewrite IH; [|reflexivity].
  apply append_assoc.
Qed.

Lemma textOf_none sel l :
  (forall x, In x l -> sel (snd x) = None) -> textOf sel l = EmptyString.
Proof.
  induction l as [|x r IH]; [reflexivity|]. intros H.
  cbn [textOf]. rewrite (H x (or_introl eq_refl)). apply IH.
  intros y Hy. apply H. right. exact Hy.
Qed.

(** Merging in records that [sel] does not select leaves the text. *)
Lemma textOf_merge_l sel l l' :
  (forall x, In x l' -> sel (snd x) = None) ->
  textOf sel (mergeItems l l') = textOf sel l.
Proof.
  revert l'. induction l as [|x1 r1 IH1]; intros l' H.
  - rewrite mergeItems_nil_l. apply textOf_none, H.
  - induction l' as [|y r IH2].
    + rewrite mergeItems_nil_r. reflexivity.
    + rewrite mergeItems_cons. destruct (fst x1 <=? fst y)%nat.
      * cbn [textOf]. rewrite (IH1 (y :: r) H). reflexivity.
      * cbn [textOf]. rewrite (H y (or_introl eq_refl)). apply IH2.
        intros z Hz. apply H. right. exact Hz.
Qed.

Lemma textOf_merge_r sel l l' :
  (forall x, In x l -> sel (snd x) = None) ->
  textOf sel (mergeItems l l') = textOf sel l'.
Proof.
  revert l'. induction l as [|x1 r1 IH1]; intros l' H.
  - rewrite mergeItems_nil_l. reflexivity.
  - induction l' as [|y r IH2].
    + rewrite mergeItems_nil_r. apply textOf_none, H.
    + rewrite mergeItems_cons. destruct (fst x1 <=? fst y)%nat.
      * cbn [textOf]. rewrite (H x1 (or_introl eq_refl)). apply IH1.
        intros z Hz. apply H. right. exact Hz.
      * cbn [textOf]. rewrite IH2. reflexivity.
Qed.

Lemma textOf_tagged_stdout l : textOf selStdout (tagged MStdout l) = text l.
Proof.
  induction l as [|x r IH]; [reflexivity|].
  cbn [tagged map textOf text snd selStdout]. fold (tagged MStdout r).
  rewrite IH. reflexivity.
Qed.

Lemma textOf_tagged_stderr l : textOf selStderr (tagged MStderr l) = text l.
Proof.
  induction l as [|x r IH]; [reflexivity|].
  cbn [tagged map textOf text snd selStderr]. fold (tagged MStderr r).
  rewrite IH. reflexivity.
Qed.

Lemma stdoutText_textOf l : stdoutText l = textOf selStdout l.
Proof.
  induction l as [|[t m] r IH]; [reflexivity|].
  cbn [stdoutText textOf snd]. destruct m; cbn [selStdout]; rewrite IH; reflexivity.
Qed.

Lemma stderrText_textOf l : stderrText l = textOf selStderr l.
Proof.
  induction l as [|[t m] r IH]; [reflexivity|].
  cbn [stderrText textOf snd]. destruct m; cbn [selStderr]; rewrite IH; reflexivity.
Qed.

Lemma outputLines_stdout p k : textOf selStdout (outputLines p k) = text (outLines p k).
Proof.
  unfold outputLines. rewrite textOf_merge_l.
  - apply textOf_tagged_stdout.
  - intros x Hx. apply OutputFacts.tagged_In in Hx as [y [_ ->]]. reflexivity.
Qed.

Lemma outputLines_stderr p k : textOf selStderr (outputLines p k) = text (errLines p k).
Proof.
  unfold outputLines. rewrite textOf_merge_r.
  - apply textOf_tagged_stderr.
  - intros x Hx. apply OutputFacts.tagged_In in Hx as [y [_ ->]]. reflexivity.
Qed.

(** The lines [splitStream] has delivered are a prefix of the text of
    its source. *)
Lemma splitStream_prefix (o : Observable string) t :
  exists held, text (items (o t)) = (text (items (splitStream o t)) ++ held)%string.
Proof.
  unfold splitStream.
  pose proof (splitItems_text EmptyString (items (o t))) as H.
  destruct (splitItems EmptyString (items (o t))) as [out final].
  cbn [fst snd] in H. simpl in H.
  destruct (ending (o t)) as [[te k]|]; cbn [items].
  - exists EmptyString. rewrite append_nil_r, text_app, <- H.
    destruct final; cbn [text snd]; rewrite ?append_nil_r; reflexivity.
  - exists final. symmetry. exact H.
Qed.

Lemma leading_prefix {A : Type} t (l : list (nat * A)) :
  exists rest, l = leading t l ++ rest.
Proof.
  induction l as [|x r [rest IH]]; [exists []; reflexivity|].
  cbn [leading]. destruct (fst x <=? t)%nat.
  - exists rest. cbn [app]. rewrite <- IH. reflexivity.
  - exists (x :: r). reflexivity.
Qed.

(** The output of a fresh process is its gated lines, or a prefix of
    them, and at most one terminal record. *)
Lemma output_lines_prefix p k :
  isFresh p = true ->
  exists rest ending_,
    outputLines p k = filter (fun x => notTerminal (snd x)) (items (getOutputStream p k 0)) ++ rest
    /\ items (getOutputStream p k 0)
       = filter (fun x => notTerminal (snd x)) (items (getOutputStream p k 0)) ++ ending_
    /\ forallb (fun x => isTerminal (snd x)) ending_ = true.
Proof.
  intros Hf. rewrite (getOutputStream_outputTrace p k Hf). unfold outputTrace.
  pose proof (outputLines_pass p k) as HL.
  assert (Hfl : forall l : list (nat * ProcessMessage),
             forallb (fun a => notTerminal (snd a)) l = true ->
             filter (fun x => notTerminal (snd x)) l = l).
  { intros l. induction l as [|x r IH]; [reflexivity|].
    cbn [forallb filter]. intros H. apply andb_prop in H as [Hx Hr].
    rewrite Hx, (IH Hr). reflexivity. }
  assert (Hlead : forall t, forallb (fun a : nat * ProcessMessage => notTerminal (snd a))
                              (leading t (outputLines p k)) = true).
  { intros t. apply forallb_forall. intros x Hx.
    destruct (leading_prefix t (outputLines p k)) as [rest Hr].
    apply (proj1 (forallb_forall _ _) HL). rewrite Hr. apply in_or_app. left. exact Hx. }
  assert (Hexit : forall T m,
             exists rest ending_,
               outputLines p k
               = filter (fun x => notTerminal (snd x)) (outputLines p k ++ [(T, MExit m)]) ++ rest
               /\ outputLines p k ++ [(T, MExit m)]
                  = filter (fun x => notTerminal (snd x)) (outputLines p k ++ [(T, MExit m)])
                    ++ ending_
               /\ forallb (fun x => isTerminal (snd x)) ending_ = true).
  { intros T m. exists [], [(T, MExit m)].
    rewrite filter_app, (Hfl _ HL). cbn [filter snd]. rewrite !app_nil_r.
    repeat split. }
  assert (Herr : forall te e,
             exists rest ending_,
               outputLines p k
               = filter (fun x => notTerminal (snd x))
                   (leading te (outputLines p k) ++ [(te, MError e)]) ++ rest
               /\ leading te (outputLines p k) ++ [(te, MError e)]
                  = filter (fun x => notTerminal (snd x))
                      (leading te (outputLines p k) ++ [(te, MError e)]) ++ ending_
               /\ forallb (fun x => isTerminal (snd x)) ending_ = true).
  { intros te e. destruct (leading_prefix te (outputLines p k)) as [rest Hr].
    exists rest, [(te, MError e)].
    rewrite filter_app, (Hfl _ (Hlead te)). cbn [filter snd]. rewrite !app_nil_r.
    repeat split. exact Hr. }
  destruct (firstExit (exitEvents p)) as [[u m]|], (errorEvents p) as [|[te e] r];
    cbn [items fst snd].
  - apply Hexit.
  - destruct (allBy te (outputLines p k) && (exitDelivery u p <=? te)%nat); cbn [items];
      [apply Hexit | apply Herr].
  - exists [], []. rewrite (Hfl _ HL), !app_nil_r. repeat split.
  - apply Herr.
Qed.

Lemma textOf_terminal sel (l : list (nat * ProcessMessage)) :
  (sel = selStdout \/ sel = selStderr) ->
  forallb (fun x => isTerminal (snd x)) l = true -> textOf sel l = EmptyString.
Proof.
  intros Hs H. apply textOf_none. intros x Hx.
  pose proof (proj1 (forallb_forall _ _) H x Hx) as Ht. cbv beta in Ht.
  destruct Hs as [-> | ->]; destruct (snd x); try discriminate Ht; reflexivity.
Qed.

Lemma inOrder_tail {A : Type} (x : nat * A) r : inOrder (x :: r) = true -> inOrder r = true.
Proof.
  destruct r as [|y r']; [reflexivity|].
  cbn [inOrder]. intros H. apply andb_prop in H as [_ H]. exact H.
Qed.

Lemma inOrder_from {A : Type} (x : nat * A) r :
  inOrder (x :: r) = true -> forall y, In y r -> fst x <= fst y.
Proof.
  revert x. induction r as [|z r' IH]; intros x H y Hy; [contradiction|].
  cbn [inOrder] in H. apply andb_prop in H as [Hxz Hr]. apply Nat.leb_le in Hxz.
  destruct Hy as [<- | Hy]; [exact Hxz|].
  specialize (IH z Hr y Hy). lia.
Qed.

(** Of records in the order of their stamps, those stamped no later
    than [t] are the first ones. *)
Lemma upTo_leading {A : Type} t (l : list (nat * A)) :
  inOrder l = true -> upTo t l = leading t l.
Proof.
  induction l as [|x r IH]; intros H; [reflexivity|].
  unfold upTo in *. cbn [filter leading].
  destruct (fst x <=? t)%nat eqn:L.
  - rewrite (IH (inOrder_tail x r H)). reflexivity.
  - apply Nat.leb_gt in L.
    assert (Hall : forall y, In y r -> (fst y <=? t)%nat = false).
    { intros y Hy. apply Nat.leb_gt. pose proof (inOrder_from x r H y Hy). lia. }
    clear -Hall. induction r as [|y r' IHr]; [reflexivity|].
    cbn [filter]. rewrite (Hall y (or_introl eq_refl)). apply IHr.
    intros z Hz. apply Hall. right. exact Hz.
Qed.

(** What passes the cut-off is the beginning of what the stream
    delivers. *)
Lemma gated_prefix p k raw :
  isFresh p = true -> inOrder (chunks raw) = true ->
  exists rest, chunks raw = items (gated p k raw 0) ++ rest.
Proof.
  intros Hf Ho. rewrite (gated_trace p k raw Hf).
  destruct (firstExit (exitEvents p)) as [[u m]|]; cbn [fst].
  - assert (Hcut : exists rest, chunks raw = upTo (u + closeDelay) (chunks raw) ++ rest).
    { rewrite (upTo_leading _ _ Ho). apply leading_prefix. }
    destruct (closed raw) as [c|]; [destruct (c <=? u + closeDelay)%nat|]; cbn [items];
      try exact Hcut.
    exists []. rewrite app_nil_r. reflexivity.
  - exists []. cbn [items]. rewrite app_nil_r. reflexivity.
Qed.

(** X16: for a fresh process whose stdout chunks come in the order of
    their stamps, the text of the stdout records of the output is a
    prefix of the text the process wrote to stdout, and likewise for
    stderr: the multiplexer neither invents nor reorders nor repeats
    output of one stream, it only cuts it. *)
Theorem getOutputStream_text_prefix p k :
  isFresh p = true ->
  (inOrder (chunks (stdout p)) = true ->
   exists rest,
     text (chunks (stdout p))
     = (stdoutText (items (getOutputStream p k 0)) ++ rest)%string)
  /\ (inOrder (chunks (stderr p)) = true ->
      exists rest,
        text (chunks (stderr p))
        = (stderrText (items (getOutputStream p k 0)) ++ rest)%string).
Proof.
  intros Hf.
  destruct (output_lines_prefix p k Hf) as [rest [ending_ [HL [Hout Hend]]]].
  set (out := items (getOutputStream p k 0)) in *.
  set (kept := filter (fun x => notTerminal (snd x)) out) in *.
  assert (Hsel : forall sel, sel = selStdout \/ sel = selStderr ->
                   textOf sel (outputLines p k) = (textOf sel out ++ textOf sel rest)%string).
  { intros sel Hs. rewrite HL, Hout, !textOf_app.
    rewrite (textOf_terminal sel ending_ Hs Hend), append_nil_r. reflexivity. }
  split; intros Ho.
  - destruct (gated_prefix p k (stdout p) Hf Ho) as [later Hl].
    destruct (splitStream_prefix (gated p k (stdout p)) 0) as [held Hh].
    exists ((textOf selStdout rest ++ held) ++ text later)%string.
    rewrite Hl at 1. rewrite text_app, Hh. fold (outLines p k).
    rewrite <- outputLines_stdout.
    rewrite (Hsel selStdout (or_introl eq_refl)), stdoutText_textOf.
    rewrite !append_assoc. reflexivity.
  - destruct (gated_prefix p k (stderr p) Hf Ho) as [later Hl].
    destruct (splitStream_prefix (gated p k (stderr p)) 0) as [held Hh].
    exists ((textOf selStderr rest ++ held) ++ text later)%string.
    rewrite Hl at 1. rewrite text_app, Hh. fold (errLines p k).
    rewrite <- outputLines_stderr.
    rewrite (Hsel selStderr (or_intror eq_refl)), stderrText_textOf.
    rewrite !append_assoc. reflexivity.
Qed.

Lemma getOutputStream_text_prefix_witness :
  (exists rest,
      text (chunks (stdout exiting))
      = (stdoutText (items (getOutputStream exiting false 0)) ++ rest)%string)
  /\ (exists rest,
        text (chunks (stderr exiting))
        = (stderrText (items (getOutputStream exiting false 0)) ++ rest)%string).
Proof.
  split.
  - exact (proj1 (getOutputStream_text_prefix exiting false eq_refl) eq_refl).
  - exact (proj2 (getOutputStream_text_prefix exiting false eq_refl) eq_refl).
Defined.

(** The accumulator after records none of which is terminal. *)
Lemma fold_lines l acc :
  forallb (fun x => notTerminal (snd x)) l = true ->
  fold_left step (map snd l) acc
  = {| accError := accError acc;
       accStdout := (accStdout acc ++ textOf selStdout l)%string;
       accStderr := (accStderr acc ++ textOf selStderr l)%string;
       accExitMessage := accExitMessage acc |}.
Proof.
  revert acc. induction l as [|[t m] r IH]; intros acc H.
  - cbn. rewrite !append_nil_r. destruct acc; reflexivity.
  - cbn [forallb snd] in H. apply andb_prop in H as [Hm Hr].
    cbn [map fold_left snd]. rewrite (IH _ Hr).
    destruct m; try discriminate Hm; cbn [step accError accStdout accStderr accExitMessage
      textOf snd selStdout selStderr]; rewrite <- ?append_assoc; reflexivity.
Qed.

Lemma gated_text_ended p k raw x :
  isFresh p = true -> firstExit (exitEvents p) = Some x ->
  text (items (splitStream (gated p k raw) 0)) = text (items (gated p k raw 0)).
Proof.
  intros Hf Hx.
  apply (splitStream_ended _ 0 _ _ (gated_ending_exit p k raw x Hf Hx)).
Qed.

(** The accumulated value when the output ends with the exit message. *)
Lemma reduce_exit spawned k u m :
  isFresh (spawned tt) = true ->
  errorEvents (spawned tt) = [] ->
  firstExit (exitEvents (spawned tt)) = Some (u, m) ->
  reduce_ step seed (observeProcess spawned k) 0
  = mkTrace
      [(exitDelivery u (spawned tt),
        {| accError := None;
           accStdout := text (items (gated (spawned tt) false (stdout (spawned tt)) 0));
           accStderr := text (items (gated (spawned tt) false (stderr (spawned tt)) 0));
           accExitMessage := Some m |})]
      (Some (exitDelivery u (spawned tt), Completed)).
Proof.
  intros Hf He Hx. unfold reduce_.
  rewrite (observeProcess_fresh spawned k Hf).
  set (p := spawned tt) in *.
  rewrite (getOutputStream_outputTrace p false Hf). unfold outputTrace.
  rewrite Hx, He. cbn [items ending fst snd].
  rewrite map_app, fold_left_app, (fold_lines _ _ (outputLines_pass p false)).
  cbn [map fold_left snd step seed accError accStdout accStderr accExitMessage append].
  rewrite outputLines_stdout, outputLines_stderr.
  unfold outLines, errLines.
  rewrite (gated_text_ended p false _ _ Hf Hx), (gated_text_ended p false _ _ Hf Hx).
  reflexivity.
Qed.

(** X17: when a fresh process dispatches no error event and its first
    exit that counts has exit code 0, [runCommand] delivers one value,
    the text of the stdout chunks that passed the cut-off, when the exit
    message is delivered, and completes. *)
Theorem runCommand_success spawned command args options k u m :
  isFresh (spawned tt) = true ->
  errorEvents (spawned tt) = [] ->
  firstExit (exitEvents (spawned tt)) = Some (u, m) ->
  exitCode m = Some 0%Z ->
  runCommand spawned command args options k 0
  = mkTraceOf
      [(exitDelivery u (spawned tt),
        text (items (gated (spawned tt) false (stdout (spawned tt)) 0)))]
      (Some (exitDelivery u (spawned tt), Done)).
Proof.
  intros Hf He Hx Hc. unfold runCommand, mapOrThrow.
  rewrite (reduce_exit spawned k u m Hf He Hx).
  cbn [items ending mapUntilThrow snd fst]. unfold conclude.
  cbn [accError accExitMessage accStdout]. rewrite Hc. reflexivity.
Qed.

Lemma runCommand_success_witness :
  runCommand (fun _ => exiting) "ls" [] [] false 0
  = mkTraceOf
      [(exitDelivery 10 exiting, text (items (gated exiting false (stdout exiting) 0)))]
      (Some (exitDelivery 10 exiting, Done)).
Proof.
  exact (runCommand_success (fun _ => exiting) "ls" [] [] false 10
           {| exitCode := Some 0%Z; signal := None |} eq_refl eq_refl eq_refl eq_refl).
Defined.

(** X18: when a fresh process dispatches no error event and its first
    exit that counts has an exit code other than 0, or a signal and no
    exit code, [runCommand] delivers no value and fails, when the exit
    message is delivered, with a [ProcessExitError] that holds the
    command, the exit message, its exit code, and the text of the stdout
    and of the stderr chunks that passed the cut-off. *)
Theorem runCommand_exit_error spawned command args options k u m :
  isFresh (spawned tt) = true ->
  errorEvents (spawned tt) = [] ->
  firstExit (exitEvents (spawned tt)) = Some (u, m) ->
  exitCode m <> Some 0%Z ->
  exitCode m <> None \/ signal m <> None ->
  exists e,
    runCommand spawned command args options k 0
    = mkTraceOf [] (Some (exitDelivery u (spawned tt), Failed (ExitFailure e)))
    /\ exitCommand e = command /\ exitArgs e = args /\ exitOptions e = options
    /\ exitMessage e = m /\ exitErrCode e = exitCode m
    /\ exitStdout e = text (items (gated (spawned tt) false (stdout (spawned tt)) 0))
    /\ exitStderr e = text (items (gated (spawned tt) false (stderr (spawned tt)) 0)).
Proof.
  intros Hf He Hx Hc Hm. unfold runCommand, mapOrThrow.
  rewrite (reduce_exit spawned k u m Hf He Hx).
  cbn [items ending mapUntilThrow snd fst]. unfold conclude.
  cbn [accError accExitMessage accStdout accStderr].
  unfold newProcessExitError, exitEventToMessage.
  destruct (exitCode m) as [c|] eqn:Ec.
  - destruct c as [|c|c]; [congruence| |];
      eexists; (split; [reflexivity|]); cbn; rewrite ?Ec; repeat split.
  - destruct (signal m) as [s|] eqn:Es.
    + eexists. split; [reflexivity|]. cbn. rewrite ?Ec. repeat split.
    + exfalso. destruct Hm as [Hm | Hm]; apply Hm; reflexivity.
Qed.

Lemma runCommand_exit_error_witness :
  exists e,
    runCommand
      (fun _ => mkProcess (running 42) [] [(10, (Some 2%Z, None))]
                  (mkRawStream [(3, "out")] None) (mkRawStream [(4, "err")] (Some 6)))
      "ls" ["-l"] [] false 0
    = mkTraceOf [] (Some (110, Failed (ExitFailure e)))
    /\ exitErrCode e = Some 2%Z /\ exitStdout e = "out" /\ exitStderr e = "err".
Proof.
  destruct (runCommand_exit_error
      (fun _ => mkProcess (running 42) [] [(10, (Some 2%Z, None))]
                  (mkRawStream [(3, "out")] None) (mkRawStream [(4, "err")] (Some 6)))
      "ls" ["-l"] [] false 10 {| exitCode := Some 2%Z; signal := None |}
      eq_refl eq_refl eq_refl) as [e [H1 [_ [_ [_ [_ [H2 [H3 H4]]]]]]]].
  - discriminate.
  - left. discriminate.
  - exists e. split; [exact H1|]. split; [exact H2|]. split; [exact H3 | exact H4].
Defined.

(** X19: when the first error event of a fresh process is dispatched
    before an exit message is due, [runCommand] delivers no value and
    fails, at the time of that event, with a [ProcessSystemError] that
    holds the command, the code of the error and the error itself. *)
Theorem runCommand_system_error spawned command args options k te e rest :
  isFresh (spawned tt) = true ->
  errorEvents (spawned tt) = (te, e) :: rest ->
  match firstExit (exitEvents (spawned tt)) with
  | Some x => te < exitDelivery (fst x) (spawned tt)
  | None => True
  end ->
  runCommand spawned command args options k 0
  = mkTraceOf []
      (Some (te, Failed (SystemFailure
                           (newProcessSystemError command args options (codeOf e) e)))).
Proof.
  intros Hf He Hx. unfold runCommand, mapOrThrow, reduce_.
  rewrite (observeProcess_fresh spawned k Hf).
  set (p := spawned tt) in *.
  rewrite (getOutputStream_outputTrace p false Hf). unfold outputTrace.
  rewrite He. cbn [fst snd].
  assert (Hlead : forallb (fun a : nat * ProcessMessage => notTerminal (snd a))
                    (leading te (outputLines p false)) = true).
  { apply forallb_forall. intros x Hin.
    destruct (leading_prefix te (outputLines p false)) as [r Hr].
    apply (proj1 (forallb_forall _ _) (outputLines_pass p false)).
    rewrite Hr. apply in_or_app. left. exact Hin. }
  destruct (firstExit (exitEvents p)) as [[u m]|]; cbn [fst snd] in *.
  - assert (L : (exitDelivery u p <=? te)%nat = false) by (apply Nat.leb_gt; exact Hx).
    rewrite L, andb_false_r. cbn [items ending].
    rewrite map_app, fold_left_app, (fold_lines _ _ Hlead).
    cbn [map fold_left snd step mapUntilThrow fst]. unfold conclude.
    cbn [accError]. reflexivity.
  - cbn [items ending].
    rewrite map_app, fold_left_app, (fold_lines _ _ Hlead).
    cbn [map fold_left snd step mapUntilThrow fst]. unfold conclude.
    cbn [accError]. reflexivity.
Qed.

Lemma runCommand_system_error_witness :
  runCommand (fun _ => failing) "nowhere" [] [] false 0
  = mkTraceOf []
      (Some (8, Failed (SystemFailure
                          (newProcessSystemError "nowhere" [] [] (Some "ENOENT")
                             (Os "ENOENT"))))).
Proof.
  exact (runCommand_system_error (fun _ => failing) "nowhere" [] [] false
           8 (Os "ENOENT") [] eq_refl eq_refl I).
Defined.

(** X20: [runCommand] delivers nothing and does not end while a fresh
    process neither exits nor dispatches an error, whatever it writes;
    for a process that has exited or been killed before the subscription
    it fails at once with the assertion error. *)
Theorem runCommand_pending_or_stale spawned command args options k :
  (isFresh (spawned tt) = true ->
   errorEvents (spawned tt) = [] ->
   firstExit (exitEvents (spawned tt)) = None ->
   runCommand spawned command args options k 0 = mkTraceOf [] None)
  /\ (isFresh (spawned tt) = false ->
      runCommand spawned command args options k 0
      = mkTraceOf [] (Some (0, Failed (OtherFailure alreadyExited)))).
Proof.
  split.
  - intros Hf He Hx. unfold runCommand, mapOrThrow, reduce_.
    rewrite (observeProcess_fresh spawned k Hf).
    rewrite (getOutputStream_outputTrace _ false Hf). unfold outputTrace.
    rewrite Hx, He. reflexivity.
  - intros Hf. unfold runCommand, mapOrThrow, reduce_, observeProcess, flatMap.
    unfold _createProcessStream, defer. rewrite Hf. reflexivity.
Qed.

Lemma runCommand_pending_or_stale_witness :
  runCommand (fun _ => interrupted) "sleep" [] [] false 0 = mkTraceOf [] None.
Proof.
  exact (proj1 (runCommand_pending_or_stale (fun _ => interrupted) "sleep" [] [] false)
           eq_refl eq_refl eq_refl).
Defined.

End CommandFacts.

(* ================================================================== *)
(** ** The grace period of stdout and stderr *)
(* ================================================================== *)

Module GraceFacts.
Import JS Eff Rx Proc Vocabulary Samples Streams.
Import RxFacts ProcFacts MuxFacts DeliveryFacts CommandFacts.





(** The sample process whose streams stay open: what is delivered within
    100 milliseconds of the exit at time 10 is part of the output, on
    stdout and on stderr, what comes later is not. *)
Example getOutputStream_lingering :
  getOutputStream lingering false 0
  = mkTrace [(3, MStdout (lf "out")); (4, MStderr (lf "err"));
             (50, MStdout (lf "out-late")); (60, MStderr (lf "err-late"));
             (110, MExit {| exitCode := Some 0%Z; signal := None |})]
            (Some (110, Completed)).
Proof. vm_compute. reflexivity. Qed.

End GraceFacts.

(* ================================================================== *)
(** ** Properties of the observer of [script] *)
(* ================================================================== *)

Module ScriptFacts.
Import JS Script.

Lemma handle_stopped s ev :
  stopped s = true -> sent (handle s ev) = sent s /\ stopped (handle s ev) = true.
Proof.
  intros H. destruct ev as [d|d|[[| |]|]]; unfold handle, next, stop; cbn [stopped];
    rewrite H; cbn; split; auto.
Qed.

Lemma fold_stopped events s :
  stopped s = true -> sent (fold_left handle events s) = sent s.
Proof.
  revert s. induction events as [|ev r IH]; intros s H; [reflexivity|].
  cbn [fold_left]. destruct (handle_stopped s ev H) as [H1 H2].
  rewrite (IH _ H2). exact H1.
Qed.

Lemma fold_data events s :
  forallb (fun ev => negb (isExit ev)) events = true ->
  stopped s = false ->
  let s' := fold_left handle events s in
  sent s' = sent s ++ flat_map forwarded events
  /\ stderr s' = (stderr s ++ stderrOf events)%string
  /\ stopped s' = false
  /\ childProcess s' = childProcess s.
Proof.
  revert s. induction events as [|ev r IH]; intros s Hall Hs.
  - cbn. rewrite app_nil_r.
    assert (E : (stderr s ++ "")%string = stderr s).
    { induction (stderr s); [reflexivity | cbn; f_equal; assumption]. }
    rewrite E. auto.
  - cbn [forallb] in Hall. apply andb_prop in Hall as [Hev Hr].
    cbn [fold_left]. cbn zeta.
    destruct ev as [d|d|c]; [| |discriminate Hev].
    + assert (Hs' : stopped (handle s (StdoutData d)) = false).
      { unfold handle, next. rewrite Hs. reflexivity. }
      destruct (IH _ Hr Hs') as [A [B [C D]]]. rewrite A, B, C, D.
      unfold handle, next. rewrite Hs. cbn. rewrite <- app_assoc. auto.
    + assert (Hs' : stopped (handle s (StderrData d)) = false).
      { unfold handle, next. cbn [stopped]. rewrite Hs. reflexivity. }
      destruct (IH _ Hr Hs') as [A [B [C D]]]. rewrite A, B, C, D.
      unfold handle, next. cbn [stopped]. rewrite Hs. cbn. rewrite <- app_assoc.
      split; [reflexivity|]. split; [|auto].
      generalize (stderr s). intros a.
      induction a; [reflexivity | cbn; f_equal; assumption].
Qed.

(** X21: the observer of [scriptSafeSpawnAndObserveOutput] is sent every
    chunk of stdout and stderr, in order, until the process exits; at the
    first exit it is sent a completion when the exit code is 0 and
    otherwise (another code, or none) an error that carries all the text
    written to stderr until then; nothing is sent afterwards.  While the
    process has not exited, the chunks are all it is sent. *)
Theorem scriptObserver_notifications :
  (forall before exitCode after,
      forallb (fun ev => negb (isExit ev)) before = true ->
      sent (observe (before ++ Exited exitCode :: after))
      = flat_map forwarded before
        ++ [match exitCode with
            | Some 0%Z => Complete
            | _ => Error (stderrOf before)
            end]
      /\ childProcess (observe (before ++ Exited exitCode :: after)) = false)
  /\ (forall events,
        forallb (fun ev => negb (isExit ev)) events = true ->
        sent (observe events) = flat_map forwarded events
        /\ childProcess (observe events) = true).
Proof.
  split.
  - intros before exitCode after Hb. unfold observe. rewrite fold_left_app.
    destruct (fold_data before subscribed Hb eq_refl) as [A [B [C D]]].
    cbn zeta in A, B, C, D. cbn [sent stderr subscribed app] in A, B.
    set (s := fold_left handle before subscribed) in *.
    cbn [fold_left].
    assert (Hstop : stopped (handle s (Exited exitCode)) = true).
    { unfold handle, stop. rewrite C. destruct exitCode as [[| |]|]; reflexivity. }
    assert (Hsent : sent (handle s (Exited exitCode))
                    = sent s ++ [match exitCode with
                                 | Some 0%Z => Complete
                                 | _ => Error (stderr s)
                                 end]).
    { unfold handle, stop. rewrite C. destruct exitCode as [[| |]|]; reflexivity. }
    split.
    + rewrite (fold_stopped after _ Hstop), Hsent, A, B. reflexivity.
    + assert (Hc : forall evs s0, childProcess s0 = false ->
                     childProcess (fold_left handle evs s0) = false).
      { induction evs as [|ev r IH]; intros s0 H0; [exact H0|].
        cbn [fold_left]. apply IH.
        destruct ev as [d|d|[[| |]|]]; unfold handle, next, stop; cbn [stopped];
          try reflexivity; destruct (stopped s0); exact H0. }
      apply Hc. reflexivity.
  - intros events He. unfold observe.
    destruct (fold_data events subscribed He eq_refl) as [A [_ [_ D]]].
    split; [exact A | exact D].
Qed.

Lemma scriptObserver_notifications_witness :
  sent (observe [StdoutData "a"; StderrData "oops"; Exited (Some 1%Z); StdoutData "late"])
  = [Next (ScriptStdout "a"); Next (ScriptStderr "oops"); Error "oops"].
Proof.
  exact (proj1 (proj1 scriptObserver_notifications
                  [StdoutData "a"; StderrData "oops"] (Some 1%Z) [StdoutData "late"]
                  eq_refl)).
Defined.

End ScriptFacts.

(* ================================================================== *)
(** ** Properties of the original environment *)
(* ================================================================== *)

Module EnvironmentFacts.
Import JS Environment.

Lemma splitOn_entry e rest :
  lacks NUL e = true ->
  splitOn NUL (e ++ String NUL rest) = e :: splitOn NUL rest.
Proof.
  induction e as [|c r IH]; intros H; [reflexivity|].
  cbn [lacks] in H. apply andb_prop in H as [Hc Hr].
  apply negb_true_iff in Hc. cbn [append splitOn]. rewrite Hc, (IH Hr). reflexivity.
Qed.

Lemma lacks_app c a b : lacks c (a ++ b) = lacks c a && lacks c b.
Proof.
  induction a as [|d r IH]; [reflexivity|].
  cbn [append lacks]. rewrite IH, andb_assoc. reflexivity.
Qed.

Lemma indexOf_key k v :
  lacks EQUALS k = true -> indexOf EQUALS (k ++ String EQUALS v) = Some (String.length k).
Proof.
  induction k as [|c r IH]; intros H; [reflexivity|].
  cbn [lacks] in H. apply andb_prop in H as [Hc Hr].
  apply negb_true_iff in Hc. cbn [append indexOf String.length].
  rewrite Hc, (IH Hr). reflexivity.
Qed.

Lemma strTake_key k s : strTake (String.length k) (k ++ s) = k.
Proof.
  induction k as [|c r IH]; [destruct s; reflexivity|].
  cbn [String.length append strTake]. rewrite IH. reflexivity.
Qed.

Lemma strDrop_key k c v : strDrop (String.length k + 1) (k ++ String c v) = v.
Proof.
  induction k as [|d r IH]; [reflexivity|].
  cbn [String.length append Nat.add strDrop]. exact IH.
Qed.

Lemma addVar_entry o k v :
  wellFormed (k, v) = true -> addVar o (k ++ String EQUALS v) = setProp k v o.
Proof.
  unfold wellFormed. cbn [fst snd]. intros H.
  apply andb_prop in H as [H Hp]. apply andb_prop in H as [H _].
  apply andb_prop in H as [Hk _]. apply negb_true_iff in Hp.
  unfold addVar. rewrite (indexOf_key k v Hk), strTake_key, strDrop_key.
  unfold assign. rewrite Hp. reflexivity.
Qed.

Lemma indexOf_lacks c s : lacks c s = true -> indexOf c s = None.
Proof.
  induction s as [|d r IH]; intros H; [reflexivity|].
  cbn [lacks] in H. apply andb_prop in H as [Hd Hr].
  apply negb_true_iff in Hd. cbn [indexOf]. rewrite Hd, (IH Hr). reflexivity.
Qed.

Lemma env0_parse vars o :
  forallb wellFormed vars = true ->
  fold_left addVar (splitOn NUL (env0 vars)) o
  = fold_left (fun o' kv => setProp (fst kv) (snd kv) o') vars o.
Proof.
  revert o. induction vars as [|[k v] r IH]; intros o H; [reflexivity|].
  cbn [forallb] in H. apply andb_prop in H as [Hkv Hr].
  cbn [env0 fold_left fst snd].
  assert (Hn : lacks NUL (k ++ String EQUALS v) = true).
  { unfold wellFormed in Hkv. cbn [fst snd] in Hkv.
    apply andb_prop in Hkv as [Hkv _]. apply andb_prop in Hkv as [Hkv Hv].
    apply andb_prop in Hkv as [_ Hk].
    rewrite lacks_app. cbn [lacks]. rewrite Hk, Hv. reflexivity. }
  replace (k ++ String EQUALS (v ++ String NUL (env0 r)))%string
    with ((k ++ String EQUALS v) ++ String NUL (env0 r))%string.
  - rewrite (splitOn_entry _ _ Hn). cbn [fold_left].
    rewrite (addVar_entry o k v Hkv). apply IH, Hr.
  - clear. induction k as [|c k IH]; [reflexivity|]. cbn [append]. f_equal. exact IH.
Qed.

Lemma getProp_setProp k' v o k :
  getProp (setProp k' v o) k = if String.eqb k' k then Some v else getProp o k.
Proof.
  induction o as [|[k0 v0] r IH].
  - reflexivity.
  - cbn [setProp]. destruct (String.eqb k0 k') eqn:E0.
    + apply String.eqb_eq in E0. subst k0. cbn [getProp].
      destruct (String.eqb k' k); reflexivity.
    + cbn [getProp]. rewrite IH. destruct (String.eqb k0 k) eqn:E1; [|reflexivity].
      apply String.eqb_eq in E1. subst k0.
      rewrite String.eqb_sym, E0. reflexivity.
Qed.

Lemma getProp_fold vars o k :
  getProp (fold_left (fun o' kv => setProp (fst kv) (snd kv) o') vars o) k
  = match lastBinding vars k with
    | Some v => Some v
    | None => getProp o k
    end.
Proof.
  revert o. induction vars as [|[k' v] r IH]; intros o; [reflexivity|].
  cbn [fold_left fst snd lastBinding]. rewrite IH.
  destruct (lastBinding r k); [reflexivity|].
  rewrite getProp_setProp. destruct (String.eqb k' k); reflexivity.
Qed.

Lemma splitOn_lacks c sep s :
  lacks c s = true -> Forall (fun piece => lacks c piece = true) (splitOn sep s).
Proof.
  induction s as [|d r IH]; intros H.
  - repeat constructor.
  - cbn [lacks] in H. apply andb_prop in H as [Hd Hr]. specialize (IH Hr).
    cbn [splitOn]. destruct (Ascii.eqb d sep).
    + constructor; [reflexivity | exact IH].
    + destruct (splitOn sep r) as [|h t]; cbn [consHead].
      * repeat constructor. cbn [lacks]. rewrite Hd. reflexivity.
      * inversion IH as [|? ? Hh Ht]; subst.
        constructor; [cbn [lacks]; rewrite Hd, Hh; reflexivity | exact Ht].
Qed.

(** X22: parsing the output of [env -0] gives an object in which every
    name has the value of its last binding and no other name is defined; a
    value may hold further [=] signs; a text without any [=] gives the
    empty object. *)
Theorem parseEnvString_env0 :
  (forall vars k,
      forallb wellFormed vars = true ->
      getProp (parseEnvString (env0 vars)) k = lastBinding vars k)
  /\ (forall s, lacks EQUALS s = true -> parseEnvString s = []).
Proof.
  split.
  - intros vars k H. unfold parseEnvString.
    rewrite (env0_parse vars [] H), getProp_fold.
    destruct (lastBinding vars k); reflexivity.
  - intros s H. unfold parseEnvString.
    pose proof (splitOn_lacks EQUALS NUL s H) as Hp.
    induction Hp as [|piece r Hpiece _ IH]; [reflexivity|].
    cbn [fold_left]. unfold addVar at 2. rewrite (indexOf_lacks _ _ Hpiece). exact IH.
Qed.

Lemma parseEnvString_env0_witness :
  getProp (parseEnvString (env0 [("PATH", "/bin"); ("OPT", "a=b"); ("PATH", "/usr/bin")])) "PATH"
  = lastBinding [("PATH", "/bin"); ("OPT", "a=b"); ("PATH", "/usr/bin")] "PATH".
Proof.
  exact (proj1 parseEnvString_env0
           [("PATH", "/bin"); ("OPT", "a=b"); ("PATH", "/usr/bin")] "PATH" eq_refl).
Defined.

(** X23: the first call of [getOriginalEnvironment] fills the cache and
    later calls never compute again.  When [NUCLIDE_ORIGINAL_ENV] is set
    and not blank, the result is the parsed variable, and every later call
    returns that same object whatever [process.env] has become; when it is
    unset or blank, the result is [process.env] itself, so that a later
    call shows [process.env] as it is then. *)
Theorem getOriginalEnvironment_caches decode st :
  cachedOriginalEnvironment st = Unset ->
  let o1 := fst (getOriginalEnvironment decode st) in
  let st1 := snd (getOriginalEnvironment decode st) in
  processEnv st1 = processEnv st
  /\ cachedOriginalEnvironment st1 <> Unset
  /\ (forall raw,
        getProp (processEnv st) "NUCLIDE_ORIGINAL_ENV" = Some raw ->
        trim raw <> EmptyString ->
        o1 = parseEnvString (decode raw)
        /\ forall env',
             getOriginalEnvironment decode (mkState (cachedOriginalEnvironment st1) env')
             = (o1, mkState (cachedOriginalEnvironment st1) env'))
  /\ ((getProp (processEnv st) "NUCLIDE_ORIGINAL_ENV" = None
       \/ exists raw, getProp (processEnv st) "NUCLIDE_ORIGINAL_ENV" = Some raw
                      /\ trim raw = EmptyString) ->
      o1 = processEnv st
      /\ forall env',
           getOriginalEnvironment decode (mkState (cachedOriginalEnvironment st1) env')
           = (env', mkState (cachedOriginalEnvironment st1) env')).
Proof.
  intros Hc. cbn zeta.
  assert (H1 : getOriginalEnvironment decode st
               = (deref (match getProp (processEnv st) "NUCLIDE_ORIGINAL_ENV" with
                         | Some raw =>
                             if negb (String.eqb (trim raw) EmptyString)
                             then Own (parseEnvString (decode raw))
                             else ProcessEnv
                         | None => ProcessEnv
                         end) st,
                  mkState (match getProp (processEnv st) "NUCLIDE_ORIGINAL_ENV" with
                           | Some raw =>
                               if negb (String.eqb (trim raw) EmptyString)
                               then Own (parseEnvString (decode raw))
                               else ProcessEnv
                           | None => ProcessEnv
                           end) (processEnv st))).
  { unfold getOriginalEnvironment. rewrite Hc. reflexivity. }
  rewrite H1. clear H1. cbn [fst snd processEnv cachedOriginalEnvironment].
  destruct (getProp (processEnv st) "NUCLIDE_ORIGINAL_ENV") as [raw|] eqn:G;
    [destruct (String.eqb (trim raw) EmptyString) eqn:B|]; cbn [negb deref].
  - apply String.eqb_eq in B.
    split; [reflexivity|]. split; [discriminate|]. split.
    + intros raw' Hr Hne. injection Hr as <-. contradiction.
    + intros _. split; reflexivity.
  - apply String.eqb_neq in B.
    split; [reflexivity|]. split; [discriminate|]. split.
    + intros raw' Hr _. injection Hr as <-. split; reflexivity.
    + intros [Hn | [raw' [Hr Hb]]]; [discriminate|].
      injection Hr as <-. contradiction.
  - split; [reflexivity|]. split; [discriminate|]. split.
    + intros raw' Hr. discriminate.
    + intros _. split; reflexivity.
Qed.

Lemma getOriginalEnvironment_caches_witness :
  fst (getOriginalEnvironment (fun s => s)
         (mkState Unset [("HOME", "/root"); ("NUCLIDE_ORIGINAL_ENV", "  ")]))
  = [("HOME", "/root"); ("NUCLIDE_ORIGINAL_ENV", "  ")].
Proof.
  refine (proj1 (proj2 (proj2 (proj2
            (getOriginalEnvironment_caches (fun s => s)
               (mkState Unset [("HOME", "/root"); ("NUCLIDE_ORIGINAL_ENV", "  ")])
               eq_refl))) _)).
  right. exists "  ". split; reflexivity.
Defined.

End EnvironmentFacts.

(* ================================================================== *)
(** ** The process table: white space and line ends *)
(* ================================================================== *)

Module LayoutFacts.
Import JS Ps Table TableFacts.

Lemma tokens_blank_prefix w s : isBlank w = true -> tokens (w ++ s) = tokens s.
Proof.
  induction w as [|c r IH]; intros H; [reflexivity|].
  cbn [isBlank] in H. apply andb_prop in H as [Hc Hr].
  cbn [append]. rewrite tokens_cons, Hc. apply IH, Hr.
Qed.

Lemma tokens_blank_suffix s w : isBlank w = true -> tokens (s ++ w) = tokens s.
Proof.
  intros Hw. induction s as [|c r IH].
  - cbn [append]. apply tokens_blank, Hw.
  - cbn [append]. rewrite (tokens_cons c (r ++ w)), (tokens_cons c r).
    destruct (isWhiteSpace c); [exact IH|].
    destruct r as [|c2 r2].
    + cbn [append]. destruct w as [|d w']; [reflexivity|].
      cbn [isBlank] in Hw. apply andb_prop in Hw as [Hd Hw'].
      rewrite Hd. cbn [append] in IH. rewrite IH. reflexivity.
    + cbn [append] in *. destruct (isWhiteSpace c2); rewrite IH; reflexivity.
Qed.

(** The record of a line is a function of its columns. *)
Lemma parsePsLine_tokens l l' : tokens l = tokens l' -> parsePsLine l = parsePsLine l'.
Proof.
  intros H. rewrite !parsePsLine_recordOfLine. unfold recordOfLine. rewrite H. reflexivity.
Qed.

(** X24: the record of a line does not depend on white space at its
    ends, such as the carriage return a line keeps before its line feed,
    nor on the width of the gaps between its columns. *)
Theorem parsePsLine_layout :
  (forall w line w',
      isBlank w = true -> isBlank w' = true ->
      parsePsLine (w ++ line ++ w') = parsePsLine line)
  /\ (forall cols gap,
        forallb isToken cols = true -> isBlank gap = true -> gap <> EmptyString ->
        parsePsLine (String.concat gap cols) = parsePsLine (String.concat " " cols)).
Proof.
  split.
  - intros w line w' Hw Hw'. apply parsePsLine_tokens.
    rewrite (tokens_blank_prefix w _ Hw). apply tokens_blank_suffix, Hw'.
  - intros cols gap Hc Hg Hne. apply parsePsLine_tokens.
    rewrite (tokens_concat cols Hc).
    induction cols as [|c r IH]; [reflexivity|].
    cbn [forallb] in Hc. apply andb_prop in Hc as [Hc1 Hr].
    destruct r as [|c' r'].
    + cbn [String.concat]. apply tokens_token, Hc1.
    + change (String.concat gap (c :: c' :: r'))
        with (c ++ gap ++ String.concat gap (c' :: r'))%string.
      destruct gap as [|g gap']; [congruence|].
      cbn [isBlank] in Hg. apply andb_prop in Hg as [Hg1 Hg2].
      assert (Hsp : forall s, tokens (c ++ String g s) = c :: tokens s).
      { clear -Hc1 Hg1. induction c as [|d c IHc]; [discriminate|]. intros s.
        apply isToken_cons in Hc1 as [Hd [-> | Hc]].
        - cbn [append]. rewrite tokens_cons, Hd, Hg1.
          rewrite (tokens_cons g s), Hg1. reflexivity.
        - specialize (IHc Hc s). cbn [append]. rewrite tokens_cons, Hd.
          destruct c as [|d2 c2]; [discriminate|].
          apply isToken_cons in Hc as [Hd2 _].
          cbn [append] in *. rewrite Hd2, IHc. reflexivity. }
      cbn [append]. rewrite Hsp.
      rewrite (tokens_blank_prefix gap' _ Hg2).
      f_equal. apply IH. exact Hr.
Qed.

Lemma parsePsLine_layout_witness :
  parsePsLine ("  1 100 my command here" ++ String CR EmptyString)
  = parsePsLine "1 100 my command here".
Proof.
  exact (proj1 parsePsLine_layout "  " "1 100 my command here" (String CR EmptyString)
           eq_refl eq_refl).
Defined.

(** A line followed by CR LF is one piece. *)
Lemma splitLines_crlf l rest :
  countLF l = 0 ->
  splitLines (l ++ String CR (String LF rest)) = l :: splitLines rest.
Proof.
  induction l as [|c r IH]; intros H.
  - reflexivity.
  - cbn [countLF] in H. destruct (Ascii.eqb c LF) eqn:E1; [discriminate|].
    cbn [Nat.add] in H. specialize (IH H).
    cbn [append]. cbn [splitLines]. rewrite E1.
    destruct r as [|c2 r2].
    + cbn [append] in *. change (Ascii.eqb CR LF) with false.
      rewrite andb_false_r. rewrite IH. reflexivity.
    + cbn [append] in *. cbn [countLF] in H.
      destruct (Ascii.eqb c2 LF) eqn:E2; [discriminate|].
      rewrite andb_false_r, IH. reflexivity.
Qed.

(** A line followed by LF is one piece: the line, without the carriage
    return it may end with. *)
Lemma splitLines_lf l rest :
  countLF l = 0 ->
  exists h, splitLines (l ++ String LF rest) = h :: splitLines rest
            /\ (l = h \/ l = (h ++ String CR EmptyString)%string).
Proof.
  induction l as [|c r IH]; intros H.
  - exists EmptyString. split; [reflexivity | left; reflexivity].
  - cbn [countLF] in H. destruct (Ascii.eqb c LF) eqn:E1; [discriminate|].
    cbn [Nat.add] in H. destruct (IH H) as [h [Hs Hh]].
    cbn [append]. cbn [splitLines]. rewrite E1.
    destruct r as [|c2 r2].
    + cbn [append] in *. rewrite Ascii.eqb_refl, andb_true_r.
      destruct (Ascii.eqb c CR) eqn:E2.
      * apply Ascii.eqb_eq in E2. subst c. exists EmptyString.
        split; [reflexivity | right; reflexivity].
      * exists (String c EmptyString). split; [reflexivity | left; reflexivity].
    + cbn [append] in *. cbn [countLF] in H.
      destruct (Ascii.eqb c2 LF) eqn:E2; [discriminate|].
      rewrite andb_false_r, Hs. exists (String c h). split; [reflexivity|].
      destruct Hh as [-> | ->]; [left | right]; reflexivity.
Qed.

Lemma crlf_pieces ls :
  Forall (fun l => countLF l = 0) ls ->
  ls <> [] ->
  splitLines (String.concat (String CR (String LF EmptyString)) ls) = ls.
Proof.
  induction 1 as [|l r Hl Hr IH]; intros Hne; [congruence|].
  destruct r as [|l' r'].
  - cbn [String.concat]. apply splitLines_single, Hl.
  - change (String.concat (String CR (String LF EmptyString)) (l :: l' :: r'))
      with (l ++ String CR (String LF
              (String.concat (String CR (String LF EmptyString)) (l' :: r'))))%string.
    rewrite (splitLines_crlf _ _ Hl), IH; [reflexivity | discriminate].
Qed.

Lemma lf_pieces ls :
  Forall (fun l => countLF l = 0) ls ->
  ls <> [] ->
  map tokens (splitLines (String.concat newline ls)) = map tokens ls.
Proof.
  induction 1 as [|l r Hl Hr IH]; intros Hne; [congruence|].
  destruct r as [|l' r'].
  - cbn [String.concat]. rewrite (splitLines_single _ Hl). reflexivity.
  - change (String.concat newline (l :: l' :: r'))
      with (l ++ String LF (String.concat newline (l' :: r')))%string.
    destruct (splitLines_lf l (String.concat newline (l' :: r')) Hl) as [h [-> Hh]].
    cbn [map]. rewrite IH by discriminate. f_equal.
    destruct Hh as [-> | ->]; [reflexivity|].
    symmetry. apply tokens_blank_suffix. reflexivity.
Qed.

Lemma map_parsePsLine_tokens a b :
  map tokens a = map tokens b -> map parsePsLine a = map parsePsLine b.
Proof.
  revert b. induction a as [|x r IH]; intros [|y s] H; try discriminate; [reflexivity|].
  cbn [map] in *. injection H as H1 H2.
  rewrite (parsePsLine_tokens x y H1), (IH s H2). reflexivity.
Qed.

(** X25: a process table whose lines end with CR LF, as on Windows,
    parses to the same records as the table whose lines end with LF. *)
Theorem parsePsOutput_line_ends ls :
  Forall (fun l => countLF l = 0) ls ->
  parsePsOutput (String.concat (String CR (String LF EmptyString)) ls)
  = parsePsOutput (String.concat newline ls).
Proof.
  intros H. destruct ls as [|l r]; [reflexivity|].
  unfold parsePsOutput, slice.
  assert (Hne : l :: r <> []) by discriminate.
  pose proof (lf_pieces _ H Hne) as Hlf.
  rewrite (crlf_pieces _ H Hne). cbn [skipn].
  destruct (splitLines (String.concat newline (l :: r))) as [|h t]; [discriminate Hlf|].
  cbn [map] in Hlf. injection Hlf as _ Ht. cbn [skipn].
  symmetry. apply map_parsePsLine_tokens, Ht.
Qed.

Lemma parsePsOutput_line_ends_witness :
  parsePsOutput (String.concat (String CR (String LF EmptyString))
                   ["Name PPID PID"; "1 50 a"; "50 51 b"])
  = parsePsOutput (String.concat newline ["Name PPID PID"; "1 50 a"; "50 51 b"]).
Proof.
  apply (parsePsOutput_line_ends ["Name PPID PID"; "1 50 a"; "50 51 b"]).
  repeat constructor.
Defined.

End LayoutFacts.
